(** * flawful.add: flagged-card synthesis and override merge

    A shallow embedding of [src/flawful/add.py] and the properties of its
    headword-keyed synthesis and merge.

    Conventions of the embedding:
    - a Python [str] is the list of its code points ([list N]); [val[i]],
      [len], slices, [strip], [isdigit], [int], [in] and [join] are the
      functions of the module [Py] below, with the tables of CPython 3.11
      (Unicode 14.0);
    - a raised exception is the [Err] case of [result]; every function that
      can raise returns a [result];
    - the dictionary [tl1_flagged_dict] is an insertion-ordered association
      list, as a Python [dict] is; the set of mastered headwords is a [gset];
      the dictionary of [_to_def_dict], of which only membership and lookup
      are used, is a [gmap];
    - the functions of the [flawful] package that [add.py] calls, and the
      pandas operations it uses, are not part of [add.py]: the former are the
      fields of the record [Flawful], the latter are modelled in the module
      [Frame] from their documented behaviour. *)

From Stdlib Require Import String Ascii Decimal.
From stdpp Require Import base option list gmap sorting.

Local Open Scope N_scope.

(** ** Python strings and built-ins *)

Module Py.

Abbreviation char := N.
Abbreviation str := (list N).

(** UTF-8 decoding of a literal, used to write string constants. *)
Fixpoint utf8_bytes (s : string) : list N :=
  match s with
  | EmptyString => []
  | String a s' => N_of_ascii a :: utf8_bytes s'
  end.

Fixpoint utf8_decode (fuel : nat) (bs : list N) : str :=
  match fuel with
  | O => []
  | S fuel' =>
    match bs with
    | [] => []
    | b0 :: r0 =>
      if b0 <? 128 then b0 :: utf8_decode fuel' r0
      else if b0 <? 224 then
        match r0 with
        | b1 :: r1 => ((b0 - 192) * 64 + (b1 - 128)) :: utf8_decode fuel' r1
        | _ => []
        end
      else if b0 <? 240 then
        match r0 with
        | b1 :: b2 :: r2 =>
          ((b0 - 224) * 4096 + (b1 - 128) * 64 + (b2 - 128))
            :: utf8_decode fuel' r2
        | _ => []
        end
      else
        match r0 with
        | b1 :: b2 :: b3 :: r3 =>
          ((b0 - 240) * 262144 + (b1 - 128) * 4096 + (b2 - 128) * 64
           + (b3 - 128)) :: utf8_decode fuel' r3
        | _ => []
        end
    end
  end.

Definition u (s : string) : str :=
  utf8_decode (String.length s) (utf8_bytes s).
Arguments u : simpl never.

(** [bool(s)] for a string. *)
Definition truthy (s : str) : bool :=
  match s with [] => false | _ => true end.

(** [c in s] for a character. *)
Definition char_in (c : char) (s : str) : bool := existsb (N.eqb c) s.

(** [str.isspace] on one character (Unicode White_Space as CPython has it). *)
Definition isspace (c : char) : bool :=
  ((9 <=? c) && (c <=? 13)) || ((28 <=? c) && (c <=? 32))
  || (c =? 133) || (c =? 160) || (c =? 5760)
  || ((8192 <=? c) && (c <=? 8202))
  || (c =? 8232) || (c =? 8233) || (c =? 8239) || (c =? 8287) || (c =? 12288).

Fixpoint lstrip (s : str) : str :=
  match s with
  | c :: s' => if isspace c then lstrip s' else s
  | [] => []
  end.

Definition rstrip (s : str) : str := rev (lstrip (rev s)).

(** [s.strip()] *)
Definition strip (s : str) : str := rstrip (lstrip s).

(** The code points of the zero of every run of ten decimal digits
    (general category Nd). *)
Definition decimal_zeros : list N :=
  [48; 1632; 1776; 1984; 2406; 2534; 2662; 2790; 2918; 3046; 3174; 3302;
   3430; 3558; 3664; 3792; 3872; 4160; 4240; 6112; 6160; 6470; 6608; 6784;
   6800; 6992; 7088; 7232; 7248; 42528; 43216; 43264; 43472; 43504; 43600;
   44016; 65296; 66720; 68912; 69734; 69872; 69942; 70096; 70384; 70736;
   70864; 71248; 71360; 71472; 71904; 72016; 72784; 73040; 73120; 92768;
   92864; 93008; 120782; 120792; 120802; 120812; 120822; 123200; 123632;
   125264; 130032].

(** The characters of numeric type Digit that are not decimal (superscripts,
    subscripts, circled digits and the like), as ranges. *)
Definition other_digit_ranges : list (N * N) :=
  [(178, 179); (185, 185); (4969, 4977); (6618, 6618); (8304, 8304);
   (8308, 8313); (8320, 8329); (9312, 9320); (9332, 9340); (9352, 9360);
   (9450, 9450); (9461, 9469); (9471, 9471); (10102, 10110); (10112, 10120);
   (10122, 10130); (68160, 68163); (69216, 69224); (69714, 69722);
   (127232, 127242)].

Definition decimal_value (c : char) : option Z :=
  match List.find (fun z => (z <=? c) && (c <? z + 10)) decimal_zeros with
  | Some z => Some (Z.of_N (c - z))
  | None => None
  end.

(** [str.isdecimal] on one character. *)
Definition isdecimal (c : char) : bool := bool_decide (is_Some (decimal_value c)).

(** [str.isdigit] on one character: decimal digits and the other digits. *)
Definition isdigit (c : char) : bool :=
  isdecimal c
  || existsb (fun r => (fst r <=? c) && (c <=? snd r)) other_digit_ranges.

(** [val[i]]; the source reads it only under a guard on [len(val)]. *)
Definition at_ (s : str) (i : nat) : char := nth i s 0.

(** [sep.join(l)] *)
Fixpoint join (sep : str) (l : list str) : str :=
  match l with
  | [] => []
  | [x] => x
  | x :: l' => x ++ sep ++ join sep l'
  end.

Fixpoint startswith (s pre : str) : bool :=
  match pre, s with
  | [], _ => true
  | p :: pre', c :: s' => (p =? c) && startswith s' pre'
  | _ :: _, [] => false
  end.

(** [sub in s] for strings. *)
Fixpoint contains (s sub : str) : bool :=
  startswith s sub ||
  match s with
  | [] => false
  | _ :: s' => contains s' sub
  end.

Fixpoint uint_codes (d : Decimal.uint) : str :=
  match d with
  | Nil => []
  | D0 d' => 48 :: uint_codes d'
  | D1 d' => 49 :: uint_codes d'
  | D2 d' => 50 :: uint_codes d'
  | D3 d' => 51 :: uint_codes d'
  | D4 d' => 52 :: uint_codes d'
  | D5 d' => 53 :: uint_codes d'
  | D6 d' => 54 :: uint_codes d'
  | D7 d' => 55 :: uint_codes d'
  | D8 d' => 56 :: uint_codes d'
  | D9 d' => 57 :: uint_codes d'
  end.

(** [str(n)], as the f-string [f'{n}'] formats an [int]. *)
Definition str_of_nat (n : nat) : str := uint_codes (Nat.to_uint n).

(** [set(flags).isdisjoint(val)] *)
Definition isdisjoint (flags val : str) : bool :=
  forallb (fun c => negb (char_in c flags)) val.

(** [val.translate(str.maketrans('', '', flags))]: delete the flag characters. *)
Definition delete_chars (flags val : str) : str :=
  List.filter (fun c => negb (char_in c flags)) val.

End Py.
Import Py.

(** ** Exceptions *)

(** The exceptions the module can raise. [add.py] raises [ValueError] with
    four different messages, named here as the specification names them;
    [InvalidLiteral] is the [ValueError] of the built-in [int]; [IndexError]
    and [KeyError] come from list indexing and from pandas column selection. *)
Inductive error : Type :=
| DuplicateReference      (* '... puts in dict twice' *)
| MisformattedReference   (* 'ERROR: ... incorrect format def | ...' *)
| EmptyHeadword           (* 'headword empty for val = ...' *)
| ConflictingInput        (* 'Both or none of `tl3_prompts_list` and ...' *)
| InvalidLiteral          (* int(): invalid literal for int() with base 10 *)
| IndexError
| KeyError.

Inductive result (A : Type) : Type :=
| Ok (a : A)
| Err (e : error).
Arguments Ok {A} a.
Arguments Err {A} e.

Definition bind {A B} (r : result A) (k : A -> result B) : result B :=
  match r with
  | Ok a => k a
  | Err e => Err e
  end.

Notation "x <- r ;; k" := (bind r (fun x => k))
  (at level 100, r at next level, right associativity).

#[global] Instance error_eq_dec : EqDecision error.
Proof. solve_decision. Defined.

(** [int(c)] for a one-character string. *)
Definition int (c : char) : result Z :=
  match decimal_value c with
  | Some z => Ok z
  | None => Err InvalidLiteral
  end.

(** [l[i]] with Python's negative indices. *)
Definition getitem {A} (l : list A) (i : Z) : result A :=
  let j := (if i <? 0 then i + Z.of_nat (length l) else i)%Z in
  if (j <? 0)%Z then Err IndexError
  else match l !! Z.to_nat j with
       | Some x => Ok x
       | None => Err IndexError
       end.


(** ** Data *)

(** A Python [dict] keyed by strings, in insertion order. *)
Definition dict (V : Type) := list (str * V).

Fixpoint dict_get {V} (d : dict V) (k : str) : option V :=
  match d with
  | [] => None
  | (k', v) :: d' => if bool_decide (k' = k) then Some v else dict_get d' k
  end.

(** [k in d] *)
Definition dict_in {V} (k : str) (d : dict V) : bool :=
  bool_decide (is_Some (dict_get d k)).

Definition dict_keys {V} (d : dict V) : list str := d.*1.

(** A row of the primary input frame [df], with the columns that
    [create_tl_additional_output] reads. *)
Module Note.
Record t := mk {
  nl1 : str;
  part_of_speech : str;
  tl_notes_list : list str;
  tl_pronun : str;
  tl1_list : list str;
  tl2_list : list str
}.
End Note.

(** The value [dict_val] stored in [tl1_flagged_dict] for a headword. *)
Module Card.
Record t := mk {
  merge_id : str;
  nl1 : str;
  part_of_speech : str;
  tl_defs : str;
  answer_lang : str;
  tl1 : str;
  tl2 : str;
  tl_pronun : str
}.
End Card.

#[global] Instance card_eq_dec : EqDecision Card.t.
Proof. solve_decision. Defined.

(** The invariant of [tl1_flagged_dict]: its keys are distinct, and the
    record of a key has the key as its [merge_id]. *)
Definition dict_wf (d : dict Card.t) : Prop :=
  NoDup (dict_keys d) /\ Forall (fun kv => Card.merge_id (snd kv) = fst kv) d.

(** The value of an entry of the dictionary of [_to_def_dict]:
    [(M | None, 'some text' | '')]. *)
Abbreviation def_entry := (option Z * str)%type.

(** ** Flag classifier, reference parser and card synthesis *)

Section Synthesis.

(** The injected key function and the flag characters. *)
Variable str_to_wordlist_key : str -> str.
Variable flags : str.

(** Lines 98-106. [set_.add(headword)] is the union with the singleton. *)
Fixpoint _add_unflagged_headword_to_set (col_list : list str) (set_ : gset str)
  : gset str :=
  match col_list with
  | [] => set_
  | val :: col_list' =>
    let val := strip val in
    let headword := str_to_wordlist_key val in
    _add_unflagged_headword_to_set col_list'
      (if truthy headword && isdisjoint flags val
       then {[ headword ]} ∪ set_ else set_)
  end.

(** The trimmed token [val] has no flag character and the non-empty
    headword [h]: the condition of line 105. *)
Definition unflagged_with (h : str) (val : str) : Prop :=
  isdisjoint flags (strip val) = true
  /\ str_to_wordlist_key (strip val) = h /\ h <> [].

(** Lines 141-153: the body of the loop of [_to_def_dict] for one token.
    In the assignments of lines 147, 149 and 153 [int(val[0])] is evaluated a
    second time; it is the value [k] of the membership test just before. *)
Definition to_def_dict_token (ret_dict : gmap Z def_entry) (val : str)
  : result (gmap Z def_entry) :=
  let val := strip val in
  if (3 <=? length val)%nat
     && ((at_ val 1 =? 61 (* = *)) || (at_ val 1 =? 8776 (* U+2248 *)))
     && isdigit (at_ val 0) && isdigit (at_ val 2) then
    k <- int (at_ val 0) ;;
    if bool_decide (is_Some (ret_dict !! k)) then Err DuplicateReference
    else if (length val <=? 4)%nat then
      m <- int (at_ val 2) ;;
      Ok (<[ k := (Some m, []) ]> ret_dict)
    else
      m <- int (at_ val 2) ;;
      Ok (<[ k := (Some m, drop 4 val) ]> ret_dict)
  else if (3 <=? length val)%nat && isdigit (at_ val 0)
          && (at_ val 1 =? 58 (* : *)) then
    k <- int (at_ val 0) ;;
    if bool_decide (is_Some (ret_dict !! k)) then Err DuplicateReference
    else Ok (<[ k := (None, drop 3 val) ]> ret_dict)
  else Ok ret_dict.

Fixpoint to_def_dict_loop (def_list : list str) (ret_dict : gmap Z def_entry)
  : result (gmap Z def_entry) :=
  match def_list with
  | [] => Ok ret_dict
  | val :: def_list' =>
    ret_dict' <- to_def_dict_token ret_dict val ;;
    to_def_dict_loop def_list' ret_dict'
  end.

(** Lines 139-154. *)
Definition _to_def_dict (def_list : list str) : result (gmap Z def_entry) :=
  to_def_dict_loop def_list ∅.

(** The truth value of [def_dict[idx+1][0]]: [None] and [0] are false. *)
Definition target_truthy (target : option Z) : bool :=
  match target with
  | Some m => negb (m =? 0)%Z
  | None => false
  end.

Section Record_.

(** The arguments of one call of [_make_new_cards]. *)
Variable exclude_headwords : gset str.
Variables nl1 part_of_speech nl1_hint tl1_hint : str.
Variables tl1_list tl2_list tl_notes_list : list str.
Variable tl_pronun : str.

(** Lines 188-210: [(definition, answer_lang)] for the token at [idx]. *)
Definition resolve_definition (def_dict : gmap Z def_entry) (idx : nat)
  : result (str * str) :=
  match def_dict !! Z.of_nat (idx + 1) with
  | Some (target, text) =>
    if target_truthy target then
      tok <- getitem tl1_list (default 0%Z target - 1) ;;
      Ok (strip tok ++ u " " ++ text, u "[" ++ tl1_hint ++ u "]")
    else
      Ok (text, u "[" ++ nl1_hint ++ u "|" ++ tl1_hint ++ u "]")
  | None =>
    let tl_notes := join (u ";") tl_notes_list in
    if contains tl_notes (str_of_nat (idx + 1) ++ u ":")
       || contains tl_notes (str_of_nat (idx + 1) ++ u "=")
    then Err MisformattedReference
    else Ok ([], u "[" ++ nl1_hint ++ u "]")
  end.

(** Lines 179-221: the record [dict_val] built for a flagged token that is
    not excluded; [val] is the trimmed token and [headword] its key. *)
Definition make_dict_val (idx : nat) (val headword : str) : result Card.t :=
  let tl2 := match tl2_list !! idx with
             | Some t => strip t
             | None => []              (* except IndexError *)
             end in
  def_dict <- _to_def_dict tl_notes_list ;;
  da <- resolve_definition def_dict idx ;;
  if negb (truthy headword) then Err EmptyHeadword
  else Ok {| Card.merge_id := headword;
             Card.nl1 := nl1;
             Card.part_of_speech := part_of_speech;
             Card.tl_defs := fst da;
             Card.answer_lang := snd da;
             Card.tl1 := delete_chars flags val;
             Card.tl2 := tl2;
             Card.tl_pronun := tl_pronun |}.

(** Lines 173-226: the body of the loop of [_make_new_cards]. *)
Definition make_new_cards_token (tl1_flagged_dict_ : dict Card.t)
    (idx : nat) (val : str) : result (dict Card.t) :=
  let val := strip val in
  let headword := str_to_wordlist_key val in
  if negb (isdisjoint flags val) then
    if bool_decide (headword ∈ exclude_headwords) then Ok tl1_flagged_dict_
    else
      dict_val <- make_dict_val idx val headword ;;
      if dict_in headword tl1_flagged_dict_ then Ok tl1_flagged_dict_
      else Ok (tl1_flagged_dict_ ++ [(headword, dict_val)])
  else Ok tl1_flagged_dict_.

(** [for idx, val in enumerate(tl1_list)], from index [idx] on. *)
Fixpoint make_new_cards_loop (idx : nat) (vals : list str)
    (tl1_flagged_dict_ : dict Card.t) : result (dict Card.t) :=
  match vals with
  | [] => Ok tl1_flagged_dict_
  | val :: vals' =>
    d <- make_new_cards_token tl1_flagged_dict_ idx val ;;
    make_new_cards_loop (S idx) vals' d
  end.

(** Lines 170-226. The dictionary is updated in place in the source and
    returned here. *)
Definition _make_new_cards (tl1_flagged_dict_ : dict Card.t)
  : result (dict Card.t) :=
  make_new_cards_loop 0 tl1_list tl1_flagged_dict_.

End Record_.

(** Lines 476-480: the set [tl1_not_flagged_set] over the whole frame. *)
Fixpoint not_flagged_set (df : list Note.t) (set_ : gset str) : gset str :=
  match df with
  | [] => set_
  | row :: df' =>
    not_flagged_set df'
      (_add_unflagged_headword_to_set (Note.tl1_list row) set_)
  end.

(** Lines 482-493: the loop over the rows of [df]. *)
Fixpoint flagged_dict_loop (exclude_headwords : gset str)
    (nl_abbr tl_abbr : str) (df : list Note.t)
    (tl1_flagged_dict : dict Card.t) : result (dict Card.t) :=
  match df with
  | [] => Ok tl1_flagged_dict
  | row :: df' =>
    d <- _make_new_cards exclude_headwords
           (Note.nl1 row) (Note.part_of_speech row) nl_abbr tl_abbr
           (Note.tl1_list row) (Note.tl2_list row) (Note.tl_notes_list row)
           (Note.tl_pronun row) tl1_flagged_dict ;;
    flagged_dict_loop exclude_headwords nl_abbr tl_abbr df' d
  end.

(** Lines 476-493: [tl1_flagged_dict] as it stands when the loop is done. *)
Definition flagged_dict (nl_abbr tl_abbr : str) (df : list Note.t)
  : result (dict Card.t) :=
  flagged_dict_loop (not_flagged_set df ∅) nl_abbr tl_abbr df [].

End Synthesis.

(** A key function for the examples: the token without the two flag
    characters of the examples and in lower case for ASCII letters. *)
Definition demo_flags : str := Eval vm_compute in u "°†".

Definition demo_key (val : str) : str :=
  map (fun c => if (65 <=? c) && (c <=? 90) then c + 32 else c)
      (delete_chars demo_flags val).


(** ** The collaborators of the [flawful] package *)

(** What [add.py] reads of the object that [tag_audio_and_markup] returns. *)
Module Tagged.
Record t := mk {
  audio_output : str;
  markup_output_tl1 : list str;
  chapter : Z;
  tags : str
}.
End Tagged.

(** The functions of the [flawful] package that [add.py] calls. They are
    defined outside [add.py] and are parameters here. [trackers] stands for
    [aud_dicts] and [wordlists], which [tag_audio_and_markup] updates in
    place: the call takes the trackers and returns them. The key functions
    that [add.py] only passes through to [tag_audio_and_markup] are part of
    that field; its arguments here are [htag_prefix], [chapter] and the one
    token of [tokens=[[token]]]. *)
Record Flawful := {
  trackers : Type;
  columns_with_prefix_to_list : list (str * str) -> str -> list str;
  combine_answer_lists :
    list str -> list str -> list str -> str -> str -> list str * list str;
  braces_to_class : str -> str -> str;
  (* (hint, target, answer) *)
  make_hint_target_and_answer :
    str -> str -> list str -> list str -> str -> str -> str * str * str;
  (* (chapter, tags) *)
  init_chapter : str -> (str -> Z) -> Z * str;
  tag_audio_and_markup : trackers -> str -> Z -> str -> trackers * Tagged.t;
  (* prompts, answers, expr_prompts, expr_answers, drop_empty_rows;
     (prompt, answer) *)
  make_prompt_and_answer_table :
    list str -> list str -> list str -> list str -> bool -> str * str
}.

(** ** Frames *)

(** A row of [tl1_df] after lines 494-512: the columns of [dict_val] and the
    four columns computed from the annotation. *)
Module Flagged.
Record t := mk {
  card : Card.t;
  tl_audio : str;
  tl1_color : str;
  chapter : Z;
  Tags : str
}.
Definition merge_id (row : t) : str := Card.merge_id (card row).
End Flagged.

(** A row of the frame [tl_override_df]. [numbered] holds the cells of the
    other columns of the row by column name ([tl3p_1], [tl3t_1], ...). The
    cells [tl3_prompts_list] and [tl3_list] are read only when the frame
    has the column. *)
Module Override.
Record t := mk {
  id : str;
  tl1 : str;
  tl_headword : str;
  tl2 : str;
  tl_answer : str;
  tl_answer_list : list str;
  nl_answer : str;
  nl_answer_list : list str;
  notes : str;
  pronun : str;
  tl1_hint : str;
  part_of_speech : str;
  chaplist : str;
  tl3_prompts_list : list str;
  tl3_list : list str;
  numbered : list (str * str)
}.
Record frame := mk_frame {
  rows : list t;
  has_tl3_prompts_list : bool;    (* 'tl3_prompts_list' in df *)
  has_tl3_list : bool             (* 'tl3_list' in df *)
}.
End Override.

(** A row of [df2]: the frame [_process_tl_override_df] returns, with the
    columns renamed as in lines 528-529. *)
Module Df2.
Record t := mk {
  id : str;
  merge_id : str;
  tl_table_answer : str;
  tl_table_prompt : str;
  pronun : str;
  notes : str;
  o_audio : str;
  o_chapter : Z;
  o_Tags : str
}.
End Df2.

(** The part of pandas that lines 531-542 use. *)
Module Frame.

(** The value of the column that [indicator='merge_ind'] adds. *)
Inductive indicator := left_only | right_only | both.

#[global] Instance indicator_eq_dec : EqDecision indicator.
Proof. solve_decision. Defined.

(** A row of the merged frame. The cells of the columns of a side that has
    no row for the key are missing (NaN): that side is [None]. *)
Record merged := mk_merged {
  merge_id : str;
  left_row : option Flagged.t;
  right_row : option Df2.t;
  merge_ind : indicator
}.

(** Comparison of strings, by code points. *)
Fixpoint str_leb (a b : str) : bool :=
  match a, b with
  | [], _ => true
  | _ :: _, [] => false
  | x :: a', y :: b' => (x <? y) || ((x =? y) && str_leb a' b')
  end.

Fixpoint insert_by_key (row : merged) (rows : list merged) : list merged :=
  match rows with
  | [] => [row]
  | r :: rows' =>
    if str_leb (merge_id row) (merge_id r) then row :: r :: rows'
    else r :: insert_by_key row rows'
  end.

(** A stable sort on the key. *)
Fixpoint sort_by_key (rows : list merged) : list merged :=
  match rows with
  | [] => []
  | r :: rows' => insert_by_key r (sort_by_key rows')
  end.

(** The three kinds of rows of the merged frame. *)
Definition row_both (l : Flagged.t) (r : Df2.t) : merged :=
  mk_merged (Flagged.merge_id l) (Some l) (Some r) both.
Definition row_left_only (l : Flagged.t) : merged :=
  mk_merged (Flagged.merge_id l) (Some l) None left_only.
Definition row_right_only (r : Df2.t) : merged :=
  mk_merged (Df2.merge_id r) None (Some r) right_only.

(** The rows of the right frame with the key of a left row. *)
Definition matches (l : Flagged.t) (df2 : list Df2.t) : list Df2.t :=
  filter (fun r => Df2.merge_id r = Flagged.merge_id l) df2.

Definition left_rows (l : Flagged.t) (df2 : list Df2.t) : list merged :=
  match matches l df2 with
  | [] => [row_left_only l]
  | rs => map (row_both l) rs
  end.

(** The rows of the right frame whose key no left row has. *)
Definition unmatched (tl1_df : list Flagged.t) (df2 : list Df2.t)
  : list Df2.t :=
  filter (fun r => Df2.merge_id r ∉ map Flagged.merge_id tl1_df) df2.

(** [tl1_df.merge(df2, how='outer', on='merge_id', indicator='merge_ind')]:
    every pair of a left and a right row with the same key, every left row
    without a right row, every right row without a left row; an outer merge
    orders its rows by the key. *)
Definition merge_outer (tl1_df : list Flagged.t) (df2 : list Df2.t)
  : list merged :=
  sort_by_key
    (flat_map (fun l => left_rows l df2) tl1_df
     ++ map row_right_only (unmatched tl1_df df2)).

(** [np.where(cond, x, y)] on one row. *)
Definition np_where {A} (cond : bool) (x y : A) : A := if cond then x else y.

End Frame.

(** A row of [tl1_df] after lines 535-542: the merged row and the six
    columns assigned there. A cell that can be missing is an [option].
    (pandas stores an integer column that has missing cells as floats; the
    chapter is the same number.) *)
Module Wide.
Record t := mk {
  merged : Frame.merged;
  has_table : str;
  no_table : str;
  tl_audio : option str;
  chapter : option Z;
  Tags : option str;
  note_id : option str
}.
Definition merge_id (row : t) : str := Frame.merge_id (merged row).
Definition merge_ind (row : t) : Frame.indicator := Frame.merge_ind (merged row).
End Wide.

(** A row of the frame returned: the columns [vars_in_output + ['Tags']]. *)
Module Out.
Record t := mk {
  note_id : option str;
  nl1 : option str;
  part_of_speech : option str;
  tl_defs : option str;
  answer_lang : option str;
  tl1 : option str;
  tl2 : option str;
  tl_pronun : option str;
  tl_audio : option str;
  tl1_color : option str;
  chapter : option Z;
  tl_table_answer : option str;
  tl_table_prompt : option str;
  has_table : str;
  no_table : str;
  pronun : option str;
  notes : option str;
  Tags : option str
}.
End Out.

(** ** Override preprocessing and the merge *)

Section Additional.

Variable F : Flawful.
Variable str_to_wordlist_key : str -> str.
Variable flags : str.

(** A list comprehension over calls of [tag_audio_and_markup], in row order;
    each request is the [chapter] argument and the token. *)
Fixpoint tag_rows (trk : trackers F) (htag_prefix : str)
    (reqs : list (Z * str)) : trackers F * list Tagged.t :=
  match reqs with
  | [] => (trk, [])
  | (chapter, token) :: reqs' =>
    let '(trk1, x) := tag_audio_and_markup F trk htag_prefix chapter token in
    let '(trk2, xs) := tag_rows trk1 htag_prefix reqs' in
    (trk2, x :: xs)
  end.

(** Lines 248-267: the cells [(tl3_prompts_list, tl3_list)] of every row. *)
Definition tl3_lists (nl_abbr tl_abbr : str) (df : Override.frame)
  : result (list (list str * list str)) :=
  if negb (Override.has_tl3_prompts_list df)
     && negb (Override.has_tl3_list df) then
    Ok (map (fun r =>
               let tl3p := columns_with_prefix_to_list F (Override.numbered r) (u "tl3p_") in
               let tl3t := columns_with_prefix_to_list F (Override.numbered r) (u "tl3t_") in
               let tl3n := columns_with_prefix_to_list F (Override.numbered r) (u "tl3n_") in
               combine_answer_lists F tl3p tl3t tl3n tl_abbr nl_abbr)
            (Override.rows df))
  else if Override.has_tl3_prompts_list df || Override.has_tl3_list df then
    Err ConflictingInput
  else
    Ok (map (fun r => (map strip (Override.tl3_prompts_list r),
                       map strip (Override.tl3_list r)))
            (Override.rows df)).

(** Lines 269-274. *)
Definition braces_to_class_list (braces_html_class : option str)
    (x : list str) : list str :=
  match braces_html_class with
  | Some cls => map (fun val => braces_to_class F val cls) x
  | None => x
  end.

(** Lines 276-339 for one row, given its two expression lists and the
    annotation of its [tl1]. *)
Definition override_row (nl_abbr tl_abbr : str) (str_to_chapter : str -> Z)
    (r : Override.t) (lists : list str * list str) (x : Tagged.t) : Df2.t :=
  let '(tl3_prompts_list, tl3_list) := lists in
  let '(hint, target0, answer) :=
    make_hint_target_and_answer F (Override.tl_answer r) (Override.nl_answer r)
      (Override.tl_answer_list r) (Override.nl_answer_list r) tl_abbr nl_abbr in
  let target := hint ++ u ": " ++ target0 in
  let tl_for_headword :=
    if truthy (Override.tl_headword r) then Override.tl_headword r
    else Override.tl1 r in
  let merge_id := str_to_wordlist_key tl_for_headword in
  let chap_tags := snd (init_chapter F (Override.chaplist r) str_to_chapter) in
  let tl1_color := concat (Tagged.markup_output_tl1 x) in
  let Tags := chap_tags ++ u " " ++ Tagged.tags x in
  let prompt0 :=
    tl1_color ++ u " (" ++ Override.part_of_speech r ++ u ") " ++ target in
  let prompt :=
    if truthy (Override.tl1_hint r)
    then prompt0 ++ u " [" ++ Override.tl1_hint r ++ u "]" else prompt0 in
  let tl_table_prompt :=
    fst (make_prompt_and_answer_table F [prompt; []] [answer; []]
           tl3_prompts_list tl3_list true) in
  let tl_table_answer :=
    snd (make_prompt_and_answer_table F [prompt; Override.tl2 r] [answer; []]
           tl3_prompts_list tl3_list true) in
  {| Df2.id := Override.id r;
     Df2.merge_id := merge_id;
     Df2.tl_table_answer := tl_table_answer;
     Df2.tl_table_prompt := tl_table_prompt;
     Df2.pronun := Override.pronun r;
     Df2.notes := Override.notes r;
     Df2.o_audio := Tagged.audio_output x;
     Df2.o_chapter := Tagged.chapter x;
     Df2.o_Tags := Tags |}.

Fixpoint zip3 {A B C} (l1 : list A) (l2 : list B) (l3 : list C)
  : list (A * B * C) :=
  match l1, l2, l3 with
  | a :: l1', b :: l2', c :: l3' => (a, b, c) :: zip3 l1' l2' l3'
  | _, _, _ => []
  end.

(** Lines 248-341. The columns of the source are computed here row by row;
    only [tag_audio_and_markup] depends on the order of the calls, which is
    the order of the rows. The columns [audio], [chapter] and [Tags] carry
    the names that lines 528-529 give them. Two things of the source are
    not modelled: the columns it adds to the frame of the caller in place,
    which [add.py] does not read again, and what pandas does with a frame
    that has no rows, where the string addition of line 312 can fail on the
    type of an empty column; the model returns the empty frame there. *)
Definition _process_tl_override_df (df : Override.frame) (trk : trackers F)
    (str_to_chapter : str -> Z) (braces_html_class : option str)
    (nl_abbr tl_abbr htag_prefix : str)
  : result (trackers F * list Df2.t) :=
  lists <- tl3_lists nl_abbr tl_abbr df ;;
  let lists := map (fun pl => (braces_to_class_list braces_html_class (fst pl),
                               braces_to_class_list braces_html_class (snd pl)))
                   lists in
  let reqs := map (fun r => (fst (init_chapter F (Override.chaplist r) str_to_chapter),
                             Override.tl1 r))
                  (Override.rows df) in
  let '(trk', res_tl1) := tag_rows trk htag_prefix reqs in
  Ok (trk',
      map (fun rlx : Override.t * (list str * list str) * Tagged.t =>
             let '(r, l, x) := rlx in
             override_row nl_abbr tl_abbr str_to_chapter r l x)
          (zip3 (Override.rows df) lists res_tl1)).

(** Lines 494-512: the frame of the flagged cards, in the order of the
    dictionary, and its annotation with [chapter=999]. *)
Definition flagged_frame (trk : trackers F) (htag_prefix : str)
    (tl1_flagged_dict : dict Card.t) : trackers F * list Flagged.t :=
  let '(trk', res_tl1) :=
    tag_rows trk htag_prefix
             (map (fun kv => (999%Z, Card.tl1 (snd kv))) tl1_flagged_dict) in
  (trk',
   map (fun cx : (str * Card.t) * Tagged.t =>
          let '(kv, x) := cx in
          {| Flagged.card := snd kv;
             Flagged.tl_audio := Tagged.audio_output x;
             Flagged.tl1_color := concat (Tagged.markup_output_tl1 x);
             Flagged.chapter := Tagged.chapter x;
             Flagged.Tags := Tagged.tags x |})
       (zip tl1_flagged_dict res_tl1)).

(** Lines 535-542 on one row of the merged frame. *)
Definition assign_columns (flag_id_prefix : str) (row : Frame.merged) : Wide.t :=
  let in_df2 := negb (bool_decide (Frame.merge_ind row = Frame.left_only)) in
  {| Wide.merged := row;
     Wide.has_table := Frame.np_where in_df2 (u "has_table") [];
     Wide.no_table := Frame.np_where in_df2 [] (u "Y");
     Wide.tl_audio :=
       Frame.np_where in_df2 (Df2.o_audio <$> Frame.right_row row)
                             (Flagged.tl_audio <$> Frame.left_row row);
     Wide.chapter :=
       Frame.np_where in_df2 (Df2.o_chapter <$> Frame.right_row row)
                             (Flagged.chapter <$> Frame.left_row row);
     Wide.Tags :=
       Frame.np_where in_df2 (Df2.o_Tags <$> Frame.right_row row)
                             (Flagged.Tags <$> Frame.left_row row);
     Wide.note_id :=
       Frame.np_where in_df2 (Df2.id <$> Frame.right_row row)
                             (Some (flag_id_prefix ++ Frame.merge_id row)) |}.

(** Lines 531-542: the merge and the assigned columns. *)
Definition merge_override (flag_id_prefix : str) (tl1_df : list Flagged.t)
    (df2 : list Df2.t) : list Wide.t :=
  map (assign_columns flag_id_prefix) (Frame.merge_outer tl1_df df2).

(** A row of the merged frame takes the columns of the override row [r]. *)
Definition takes_override (w : Wide.t) (r : Df2.t) : Prop :=
  Wide.tl_audio w = Some (Df2.o_audio r)
  /\ Wide.chapter w = Some (Df2.o_chapter r)
  /\ Wide.Tags w = Some (Df2.o_Tags r)
  /\ Wide.note_id w = Some (Df2.id r)
  /\ Wide.has_table w = u "has_table"
  /\ Wide.no_table w = [].

(** A row of the merged frame keeps the columns of the flagged row [l]. *)
Definition keeps_flagged (flag_id_prefix : str) (w : Wide.t) (l : Flagged.t)
  : Prop :=
  Wide.tl_audio w = Some (Flagged.tl_audio l)
  /\ Wide.chapter w = Some (Flagged.chapter l)
  /\ Wide.Tags w = Some (Flagged.Tags l)
  /\ Wide.note_id w = Some (flag_id_prefix ++ Flagged.merge_id l)
  /\ Wide.has_table w = []
  /\ Wide.no_table w = u "Y".

(** Line 548: the selection of the output columns. *)
Definition select_output (row : Wide.t) : Out.t :=
  let l := Frame.left_row (Wide.merged row) in
  let r := Frame.right_row (Wide.merged row) in
  let c := Flagged.card <$> l in
  {| Out.note_id := Wide.note_id row;
     Out.nl1 := Card.nl1 <$> c;
     Out.part_of_speech := Card.part_of_speech <$> c;
     Out.tl_defs := Card.tl_defs <$> c;
     Out.answer_lang := Card.answer_lang <$> c;
     Out.tl1 := Card.tl1 <$> c;
     Out.tl2 := Card.tl2 <$> c;
     Out.tl_pronun := Card.tl_pronun <$> c;
     Out.tl_audio := Wide.tl_audio row;
     Out.tl1_color := Flagged.tl1_color <$> l;
     Out.chapter := Wide.chapter row;
     Out.tl_table_answer := Df2.tl_table_answer <$> r;
     Out.tl_table_prompt := Df2.tl_table_prompt <$> r;
     Out.has_table := Wide.has_table row;
     Out.no_table := Wide.no_table row;
     Out.pronun := Df2.pronun <$> r;
     Out.notes := Df2.notes <$> r;
     Out.Tags := Wide.Tags row |}.

(** Lines 476-542: the frame [tl1_df] as it stands before the selection of
    line 548. Two column selections of pandas raise [KeyError]: line 507
    when no flagged card was made (a frame built from an empty dictionary
    has no column [tl1]), and line 548 when no override frame is given (the
    column [note_id] is assigned at line 541 only). *)
Definition additional_frame (df : list Note.t) (trk : trackers F)
    (tl_override_df : option Override.frame) (str_to_chapter : str -> Z)
    (braces_html_class : option str)
    (nl_abbr tl_abbr htag_prefix flag_id_prefix : str)
  : result (trackers F * list Wide.t) :=
  tl1_flagged_dict <- flagged_dict str_to_wordlist_key flags nl_abbr tl_abbr df ;;
  match tl1_flagged_dict with
  | [] => Err KeyError
  | _ :: _ =>
    let '(trk1, tl1_df) := flagged_frame trk htag_prefix tl1_flagged_dict in
    match tl_override_df with
    | Some odf =>
      res <- _process_tl_override_df odf trk1 str_to_chapter
               braces_html_class nl_abbr tl_abbr htag_prefix ;;
      let '(trk2, df2) := res in
      Ok (trk2, merge_override flag_id_prefix tl1_df df2)
    | None => Err KeyError
    end
  end.

(** Lines 476-549. The keyword arguments take their default values at the
    call, not here. *)
Definition create_tl_additional_output (df : list Note.t) (trk : trackers F)
    (tl_override_df : option Override.frame) (str_to_chapter : str -> Z)
    (braces_html_class : option str)
    (nl_abbr tl_abbr htag_prefix flag_id_prefix : str)
  : result (trackers F * list Out.t) :=
  res <- additional_frame df trk tl_override_df str_to_chapter
           braces_html_class nl_abbr tl_abbr htag_prefix flag_id_prefix ;;
  let '(trk', tl1_df) := res in
  Ok (trk', map select_output tl1_df).

End Additional.

(** The positions of an entry of the reference mapping are decimal digits. *)
Definition digit_entry (k : Z) (v : def_entry) : Prop :=
  (0 <= k <= 9)%Z /\ forall m, fst v = Some m -> (0 <= m <= 9)%Z.

(** The token [val] is a reference for the position [k]: parsed alone, it
    gives the mapping with an entry for [k] and nothing else. *)
Definition reference_for (k : Z) (val : str) : Prop :=
  exists v, to_def_dict_token ∅ val = Ok {[ k := v ]}.

(** The token [val] raises nothing when parsed alone: it is a reference or
    is ignored, and [int] is not called on a digit it rejects. *)
Definition parses_alone (val : str) : Prop :=
  exists d, to_def_dict_token ∅ val = Ok d.

(** ** The flag-usage check *)

(** What [check_flag_usage] can raise. Its caller passes two lists of tokens
    ([example1.py], line 820), and the messages of lines 87-88, 90 and 95-96
    add a list to a string: evaluating them raises [TypeError] before the
    [ValueError] is built. Only the message of lines 92-93 is a string. *)
Module Raised.
Inductive t : Type :=
| TypeError           (* can only concatenate str (not "list") to str *)
| ValueError_tilde    (* '~ in col2: ...' *)
| IndexError.         (* col2_list[idx] *)
End Raised.

#[global] Instance raised_eq_dec : EqDecision Raised.t.
Proof. solve_decision. Defined.

(** Lines 83-96: the loop over the flags for the token [val] at [idx]. The
    result is the exception raised, if any. *)
Fixpoint check_flag_token (flags : str) (val : str) (col2_list : list str)
    (idx : nat) : option Raised.t :=
  match flags with
  | [] => None
  | flag :: flags' =>
    match col2_list !! idx with
    | None => Some Raised.IndexError
    | Some val2 =>
      if char_in flag val then
        if negb (char_in flag val2) then Some Raised.TypeError
        else if char_in 126 (* ~ *) val then Some Raised.TypeError
        else if char_in 126 val2 then Some Raised.ValueError_tilde
        else check_flag_token flags' val col2_list idx
      else if char_in flag val2 then Some Raised.TypeError
      else check_flag_token flags' val col2_list idx
    end
  end.

(** Line 82: [for idx, val in enumerate(col1_list)], from index [idx] on. *)
Fixpoint check_flag_loop (flags : str) (col2_list : list str) (idx : nat)
    (vals : list str) : option Raised.t :=
  match vals with
  | [] => None
  | val :: vals' =>
    match check_flag_token flags val col2_list idx with
    | Some e => Some e
    | None => check_flag_loop flags col2_list (S idx) vals'
    end
  end.

(** Lines 78-96, on two lists of tokens. [None] is the return without an
    exception (the function has no [return] statement). *)
Definition check_flag_usage (col1 col2 : list str) (flags : str)
  : option Raised.t :=
  if (length col1 =? length col2)%nat then check_flag_loop flags col2 0 col1
  else None.

(** Two tokens at the same index pass the check: each flag is in both or in
    neither, and a token pair with a flag has no [~]. *)
Definition flags_agree (flags val val2 : str) : Prop :=
  forall flag, flag ∈ flags ->
    char_in flag val = char_in flag val2
    /\ (char_in flag val = true ->
        char_in 126 val = false /\ char_in 126 val2 = false).

(** ** The caller: tokenizing and the key functions of [example1.py] *)

(** [s.split(sep)] for a separator of one character. *)
Fixpoint split (sep : char) (s : str) : list str :=
  match s with
  | [] => [[]]
  | c :: s' =>
    if c =? sep then [] :: split sep s'
    else match split sep s' with
         | tok :: toks => (c :: tok) :: toks
         | [] => [[c]]
         end
  end.

(** [s.replace(old, new)] for [old] of one character. *)
Definition replace_char (old : char) (new : str) (s : str) : str :=
  flat_map (fun c => if c =? old then new else [c]) s.

Section Keys.

(** [flawful.german.INITIAL_DER_DAS_DIE_PATTERN.sub('', s)]: the pattern is
    defined outside the sources at hand. *)
Variable sub_initial_der_das_die : str -> str.

(** [KEEP_INITIAL_DER_DAS_DIE_PATTERN.match(s)], lines 185-186: the
    pattern is two literals anchored at the start. *)
Definition keep_initial_der_das_die (s : str) : bool :=
  startswith s (u "die Niederlande") || startswith s (u "der Esel sagt ihm").

(** [s.translate(str.maketrans("',", '__', '?!°'))] *)
Definition translate_de (s : str) : str :=
  map (fun c => if (c =? 39) || (c =? 44) then 95 else c)
      (List.filter (fun c => negb ((c =? 63) || (c =? 33) || (c =? 176))) s).

(** [example1.py], lines 264-273. *)
Definition make_wordlist_key_notes (x : str) : str :=
  let ret_val := strip x in
  let ret_val := if negb (keep_initial_der_das_die ret_val)
                 then sub_initial_der_das_die ret_val else ret_val in
  let ret_val := translate_de ret_val in
  let ret_val := hd [] (split 40 (hd [] (split 91 ret_val))) in
  let ret_val :=
    if bool_decide (strip ret_val = u "sich")
       && negb (bool_decide (strip x = u "sich"))
    then [] else ret_val in
  strip ret_val.

(** [example1.py], lines 289-290. *)
Definition make_audio_key_notes (x : str) : str :=
  let ret_str := replace_char 47 (u "_") (make_wordlist_key_notes x) in
  replace_char 8230 (u "_") (replace_char 46 [] ret_str).

End Keys.

(** [example1.py], lines 192-195. *)
Definition tokenize_de2 (de1 de2 part_of_speech : str) : list str :=
  if bool_decide (part_of_speech = u "V")
     || (bool_decide (part_of_speech = u "N") && contains de1 (u "(in)"))
  then split 59 de2 else split 44 de2.

(** The columns that lines 736-739 of [example1.py] add to the frame, for
    one row: [de_notes_list], [de1_list] and [de2_list], which the renaming
    of line 841 passes to [create_tl_additional_output] as [tl_notes_list],
    [tl1_list] and [tl2_list]. *)
Definition note_of_fields (en1 part_of_speech de_notes de_pronun de1 de2 : str)
  : Note.t :=
  {| Note.nl1 := en1;
     Note.part_of_speech := part_of_speech;
     Note.tl_notes_list := split 59 de_notes;
     Note.tl_pronun := de_pronun;
     Note.tl1_list := split 44 de1;
     Note.tl2_list := tokenize_de2 de1 de2 part_of_speech |}.

(** ** Example inputs *)

(** Collaborators for the examples: the trackers count the calls of
    [tag_audio_and_markup]; the audio reference is the token in brackets. *)
Definition demo_flawful : Flawful := {|
  trackers := nat;
  columns_with_prefix_to_list := fun cells pre =>
    map snd (List.filter (fun kv => startswith (fst kv) pre) cells);
  combine_answer_lists := fun p a1 a2 h1 h2 => (p, a1 ++ a2);
  braces_to_class := fun val cls => val;
  make_hint_target_and_answer := fun a1 a2 l1 l2 h1 h2 => (h1, a1, a2);
  init_chapter := fun chaplist str_to_chapter => (str_to_chapter chaplist, chaplist);
  tag_audio_and_markup := fun trk htag chapter token =>
    (S trk, Tagged.mk (u "[" ++ token ++ u "]") [token] chapter htag);
  make_prompt_and_answer_table := fun p a ep ea drop =>
    (join (u "|") (p ++ ep), join (u "|") (a ++ ea))
|}.

Definition demo_note : Note.t :=
  Note.mk (u "house") (u "n") [u "2=1"] (u "")
          [u "Gebäude"; u "Haus°"; u "Bau†"] [].

Definition demo_override (id tl1 : string) : Override.t :=
  {| Override.id := u id;
     Override.tl1 := u tl1;
     Override.tl_headword := [];
     Override.tl2 := [];
     Override.tl_answer := u "answer";
     Override.tl_answer_list := [u "answer"];
     Override.nl_answer := [];
     Override.nl_answer_list := [];
     Override.notes := [];
     Override.pronun := [];
     Override.tl1_hint := [];
     Override.part_of_speech := u "n";
     Override.chaplist := u "5";
     Override.tl3_prompts_list := [];
     Override.tl3_list := [];
     Override.numbered := [] |}.

(** An override frame without the prebuilt columns; its rows [A1] and [A2]
    have the same headword under [demo_key]. *)
Definition demo_override_df : Override.frame :=
  Override.mk_frame
    [demo_override "A1" "Haus"; demo_override "A2" "haus";
     demo_override "A3" "Turm"]
    false false.


(** A row whose notes give position 1 twice and whose one flagged token has
    the headword of its unflagged token. *)
Definition demo_mastered_note : Note.t :=
  Note.mk (u "home") (u "n") [u "1=2"; u "1: x"] []
          [u "Haus"; u "haus°"] [].

(** A row whose notes give position 1 twice and whose token is flagged and
    not mastered. *)
Definition demo_duplicate_note : Note.t :=
  Note.mk (u "tower") (u "n") [u "1=2"; u "1: x"] [] [u "Turm°"] [].

Ltac elem_of_list :=
  vm_compute; repeat first [apply list_elem_of_here | apply list_elem_of_further].

Definition demo_card_haus : Card.t :=
  Card.mk (u "haus") (u "house") (u "n") (u "Gebäude ") (u "[T]") (u "Haus")
          [] [].

Definition demo_card_bau : Card.t :=
  Card.mk (u "bau") (u "house") (u "n") [] (u "[N]") (u "Bau") [] [].

(** The dictionary of flagged cards of [demo_note]. *)
Definition demo_dict : dict Card.t :=
  [(u "haus", demo_card_haus); (u "bau", demo_card_bau)].

Definition demo_flagged_haus : Flagged.t :=
  Flagged.mk demo_card_haus (u "[Haus]") (u "Haus") 999 (u "TL").

Definition demo_flagged_bau : Flagged.t :=
  Flagged.mk demo_card_bau (u "[Bau]") (u "Bau") 999 (u "TL").

(** The frame of the flagged cards of [demo_note]. *)
Definition demo_tl1_df : list Flagged.t :=
  [demo_flagged_haus; demo_flagged_bau].

Definition demo_df2_row (id tl1 merge_id : string) : Df2.t :=
  Df2.mk (u id) (u merge_id) (u "|") (u tl1 ++ u " (n) T: answer|") [] []
         (u "[" ++ u tl1 ++ u "]") 5 (u "5 TL").

(** The frame that [_process_tl_override_df] makes of [demo_override_df]. *)
Definition demo_df2 : list Df2.t :=
  [demo_df2_row "A1" "Haus" "haus"; demo_df2_row "A2" "haus" "haus";
   demo_df2_row "A3" "Turm" "turm"].

Definition demo_run :=
  additional_frame demo_flawful demo_key demo_flags [demo_note] 0%nat
    (Some demo_override_df) (fun _ => 5%Z) None (u "N") (u "T") (u "TL")
    (u "HW_").

(** * Properties *)

(** ** The error monad and dictionaries *)

Lemma Ok_inj {A} (a b : A) : Ok a = Ok b -> a = b.
Proof. by intros [= ->]. Qed.

Lemma bind_Ok {A B} (r : result A) (k : A -> result B) (b : B) :
  bind r k = Ok b <-> exists a, r = Ok a /\ k a = Ok b.
Proof.
  destruct r as [a|e]; simpl; split.
  - intros Hk. by exists a.
  - by intros (a' & [= <-] & Hk).
  - intros [=].
  - by intros (a' & [=] & _).
Qed.

Lemma bind_Err {A B} (r : result A) (k : A -> result B) (e : error) :
  r = Err e -> bind r k = Err e.
Proof. by intros ->. Qed.

Lemma truthy_true (s : str) : truthy s = true <-> s <> [].
Proof. destruct s; simpl; split; congruence. Qed.

Lemma dict_in_true {V} (k : str) (d : dict V) :
  dict_in k d = true <-> is_Some (dict_get d k).
Proof. unfold dict_in. by rewrite bool_decide_eq_true. Qed.

Lemma dict_in_false {V} (k : str) (d : dict V) :
  dict_in k d = false <-> dict_get d k = None.
Proof.
  unfold dict_in. rewrite bool_decide_eq_false.
  by rewrite <- eq_None_not_Some.
Qed.

Lemma dict_get_app {V} (d1 d2 : dict V) (k : str) :
  dict_get (d1 ++ d2) k =
  match dict_get d1 k with Some v => Some v | None => dict_get d2 k end.
Proof.
  induction d1 as [|[k' v] d1 IH]; simpl; [done|].
  by case_bool_decide.
Qed.

Lemma dict_get_Some_keys {V} (d : dict V) (k : str) (v : V) :
  dict_get d k = Some v -> k ∈ dict_keys d.
Proof.
  unfold dict_keys. induction d as [|[k' v'] d IH]; simpl; [done|].
  case_bool_decide; subst.
  - intros _. apply list_elem_of_here.
  - intros Hd. apply list_elem_of_further. by apply IH.
Qed.

Lemma dict_get_None_keys {V} (d : dict V) (k : str) :
  dict_get d k = None <-> k ∉ dict_keys d.
Proof.
  unfold dict_keys. induction d as [|[k' v'] d IH]; simpl.
  - split; [intros _; apply not_elem_of_nil | done].
  - rewrite not_elem_of_cons. case_bool_decide; subst.
    + split; [done | by intros []].
    + rewrite IH. split; [by intros ? | by intros [_ ?]].
Qed.


(** ** The flag classifier *)

Section SynthesisFacts.

Variable str_to_wordlist_key : str -> str.
Variable flags : str.

Abbreviation key := str_to_wordlist_key.

Lemma add_unflagged_spec (col_list : list str) (set_ : gset str) (h : str) :
  h ∈ _add_unflagged_headword_to_set key flags col_list set_ <->
  h ∈ set_ \/ exists val, val ∈ col_list /\ unflagged_with key flags h val.
Proof.
  revert set_. induction col_list as [|val col IH]; intros set_; simpl.
  - split; [by left|]. intros [?|(v & Hv & _)]; [done|].
    by apply elem_of_nil in Hv.
  - rewrite IH. unfold unflagged_with.
    destruct (truthy (key (strip val))) eqn:Ht;
      destruct (isdisjoint flags (strip val)) eqn:Hd; simpl.
    + apply truthy_true in Ht. rewrite elem_of_union, elem_of_singleton.
      split.
      * intros [[->|?]|(v & Hv & ?)]; [right|by left|right].
        -- exists val. split; [apply list_elem_of_here | done].
        -- exists v. split; [by apply list_elem_of_further | done].
      * intros [?|(v & Hv & Hdis & Hk & Hne)]; [left; by right|].
        apply elem_of_cons in Hv as [->|Hv].
        -- left; left. done.
        -- right. by exists v.
    + split.
      * intros [?|(v & Hv & ?)]; [by left|right].
        exists v. split; [by apply list_elem_of_further | done].
      * intros [?|(v & Hv & Hdis & Hk & Hne)]; [by left|].
        apply elem_of_cons in Hv as [->|Hv]; [congruence|].
        right. by exists v.
    + split.
      * intros [?|(v & Hv & ?)]; [by left|right].
        exists v. split; [by apply list_elem_of_further | done].
      * intros [?|(v & Hv & Hdis & Hk & Hne)]; [by left|].
        apply elem_of_cons in Hv as [->|Hv].
        -- subst h. by destruct (key (strip val)).
        -- right. by exists v.
    + split.
      * intros [?|(v & Hv & ?)]; [by left|right].
        exists v. split; [by apply list_elem_of_further | done].
      * intros [?|(v & Hv & Hdis & Hk & Hne)]; [by left|].
        apply elem_of_cons in Hv as [->|Hv]; [congruence|].
        right. by exists v.
Qed.

Lemma not_flagged_set_spec (df : list Note.t) (set_ : gset str) (h : str) :
  h ∈ not_flagged_set key flags df set_ <->
  h ∈ set_ \/
  exists row val, row ∈ df /\ val ∈ Note.tl1_list row /\
    unflagged_with key flags h val.
Proof.
  revert set_. induction df as [|row df IH]; intros set_; simpl.
  - split; [by left|]. intros [?|(r & v & Hr & _)]; [done|].
    by apply elem_of_nil in Hr.
  - rewrite IH, add_unflagged_spec. split.
    + intros [[?|(v & Hv & ?)]|(r & v & Hr & ?)]; [by left|right|right].
      * exists row, v. split; [apply list_elem_of_here | done].
      * exists r, v. split; [by apply list_elem_of_further | done].
    + intros [?|(r & v & Hr & Hv & ?)]; [left; by left|].
      apply elem_of_cons in Hr as [->|Hr].
      * left; right. by exists v.
      * right. by exists r, v.
Qed.

(** ** The body of the synthesis loop *)

Section Token.

Variable exclude_headwords : gset str.
Variables nl1 part_of_speech nl1_hint tl1_hint : str.
Variables tl1_list tl2_list tl_notes_list : list str.
Variable tl_pronun : str.

Abbreviation token_step :=
  (make_new_cards_token key flags exclude_headwords nl1 part_of_speech
     nl1_hint tl1_hint tl1_list tl2_list tl_notes_list tl_pronun).
Abbreviation dict_val_of :=
  (make_dict_val flags nl1 part_of_speech nl1_hint tl1_hint tl1_list
     tl2_list tl_notes_list tl_pronun).

(** A token without a flag character is passed over. *)
Lemma token_unflagged (d : dict Card.t) (idx : nat) (val : str) :
  isdisjoint flags (strip val) = true -> token_step d idx val = Ok d.
Proof. intros H. unfold make_new_cards_token. by rewrite H. Qed.

(** A flagged token with an excluded headword is passed over, before its
    notes are read. *)
Lemma token_excluded (d : dict Card.t) (idx : nat) (val : str) :
  isdisjoint flags (strip val) = false ->
  key (strip val) ∈ exclude_headwords ->
  token_step d idx val = Ok d.
Proof.
  intros Hf Hx. unfold make_new_cards_token. rewrite Hf. simpl.
  by rewrite bool_decide_eq_true_2.
Qed.

(** A flagged token that is not excluded: the record is built, and stored
    if the headword is new. *)
Lemma token_flagged (d : dict Card.t) (idx : nat) (val : str) :
  isdisjoint flags (strip val) = false ->
  key (strip val) ∉ exclude_headwords ->
  token_step d idx val =
  (dict_val <- dict_val_of idx (strip val) (key (strip val)) ;;
   Ok (if dict_in (key (strip val)) d then d
       else d ++ [(key (strip val), dict_val)])).
Proof.
  intros Hf Hx. unfold make_new_cards_token. rewrite Hf. simpl.
  rewrite bool_decide_eq_false_2 by done.
  destruct (dict_val_of idx (strip val) (key (strip val))); simpl; [|done].
  by destruct (dict_in (key (strip val)) d).
Qed.

Lemma token_cases (d : dict Card.t) (idx : nat) (val : str) :
  (isdisjoint flags (strip val) = true \/
   isdisjoint flags (strip val) = false /\ key (strip val) ∈ exclude_headwords)
  \/ (isdisjoint flags (strip val) = false /\
      key (strip val) ∉ exclude_headwords).
Proof.
  destruct (isdisjoint flags (strip val)); [by left; left|].
  destruct (decide (key (strip val) ∈ exclude_headwords)).
  - left; right. done.
  - right. done.
Qed.

Lemma dict_val_merge_id (idx : nat) (val headword : str) (c : Card.t) :
  dict_val_of idx val headword = Ok c -> Card.merge_id c = headword.
Proof.
  unfold make_dict_val. intros (dd & _ & (da & _ & H)%bind_Ok)%bind_Ok.
  destruct (truthy headword); simpl in H; [|done]. by injection H as <-.
Qed.

(** What a successful step does to the dictionary. *)
Lemma token_step_Ok (d d' : dict Card.t) (idx : nat) (val : str) :
  token_step d idx val = Ok d' ->
  d' = d \/
  exists c, d' = d ++ [(key (strip val), c)] /\
            dict_get d (key (strip val)) = None /\
            (key (strip val) ∉ exclude_headwords) /\
            isdisjoint flags (strip val) = false /\
            dict_val_of idx (strip val) (key (strip val)) = Ok c.
Proof.
  destruct (token_cases d idx val) as [[Hu|[Hf Hx]]|[Hf Hx]].
  - rewrite token_unflagged by done. intros [= <-]. by left.
  - rewrite token_excluded by done. intros [= <-]. by left.
  - rewrite token_flagged by done. intros (c & Hc & Hd)%bind_Ok.
    destruct (dict_in (key (strip val)) d) eqn:Hin.
    + injection Hd as <-. by left.
    + injection Hd as <-. right. exists c.
      apply dict_in_false in Hin. done.
Qed.

Lemma token_step_preserves (d d' : dict Card.t) (idx : nat) (val h : str)
    (c : Card.t) :
  token_step d idx val = Ok d' ->
  dict_get d h = Some c -> dict_get d' h = Some c.
Proof.
  intros [->|(c' & -> & _)]%token_step_Ok Hh; [done|].
  by rewrite dict_get_app, Hh.
Qed.

Lemma token_step_keys (d d' : dict Card.t) (idx : nat) (val : str) :
  token_step d idx val = Ok d' ->
  Forall (fun k => k ∉ exclude_headwords) (dict_keys d) ->
  Forall (fun k => k ∉ exclude_headwords) (dict_keys d').
Proof.
  intros [->|(c' & -> & _ & Hx & _)]%token_step_Ok Hd; [done|].
  unfold dict_keys in *. rewrite fmap_app. apply Forall_app. split; [done|].
  by repeat constructor.
Qed.

(** The record of a flagged token: the notes are parsed first, then the
    definition is resolved, then the headword is checked. *)
Lemma dict_val_notes_error (idx : nat) (val headword : str) (e : error) :
  _to_def_dict tl_notes_list = Err e ->
  dict_val_of idx val headword = Err e.
Proof. intros H. unfold make_dict_val. by rewrite H. Qed.

Lemma dict_val_resolve_error (idx : nat) (val headword : str)
    (dd : gmap Z def_entry) (e : error) :
  _to_def_dict tl_notes_list = Ok dd ->
  resolve_definition nl1_hint tl1_hint tl1_list tl_notes_list dd idx = Err e ->
  dict_val_of idx val headword = Err e.
Proof. intros H1 H2. unfold make_dict_val. rewrite H1. simpl. by rewrite H2. Qed.

Lemma dict_val_Ok (idx : nat) (val headword : str) (dd : gmap Z def_entry)
    (da : str * str) :
  _to_def_dict tl_notes_list = Ok dd ->
  resolve_definition nl1_hint tl1_hint tl1_list tl_notes_list dd idx = Ok da ->
  headword <> [] ->
  exists c, dict_val_of idx val headword = Ok c /\
            Card.tl_defs c = fst da /\ Card.answer_lang c = snd da /\
            Card.merge_id c = headword /\
            Card.tl1 c = delete_chars flags val.
Proof.
  intros H1 H2 Hh. unfold make_dict_val. rewrite H1. simpl. rewrite H2. simpl.
  apply truthy_true in Hh. rewrite Hh. simpl. eexists. by split.
Qed.

Lemma dict_val_empty_headword (idx : nat) (val : str) (dd : gmap Z def_entry)
    (da : str * str) :
  _to_def_dict tl_notes_list = Ok dd ->
  resolve_definition nl1_hint tl1_hint tl1_list tl_notes_list dd idx = Ok da ->
  dict_val_of idx val [] = Err EmptyHeadword.
Proof.
  intros H1 H2. unfold make_dict_val. rewrite H1. simpl. by rewrite H2.
Qed.

Lemma token_step_wf (d d' : dict Card.t) (idx : nat) (val : str) :
  token_step d idx val = Ok d' -> dict_wf d -> dict_wf d'.
Proof.
  intros [->|(c & -> & Hnew & _ & _ & Hc)]%token_step_Ok [Hnd Hall]; [done|].
  split.
  - unfold dict_keys in *. rewrite fmap_app. apply NoDup_app.
    split; [done|]. split; [|apply NoDup_singleton].
    intros k Hk ->%list_elem_of_singleton.
    by apply dict_get_None_keys in Hnew.
  - apply Forall_app. split; [done|]. constructor; [|done].
    simpl. by apply dict_val_merge_id in Hc.
Qed.

Abbreviation loop :=
  (make_new_cards_loop key flags exclude_headwords nl1 part_of_speech
     nl1_hint tl1_hint tl1_list tl2_list tl_notes_list tl_pronun).

Lemma loop_app (idx : nat) (vals1 vals2 : list str) (d : dict Card.t) :
  loop idx (vals1 ++ vals2) d =
  (d1 <- loop idx vals1 d ;; loop (idx + length vals1) vals2 d1).
Proof.
  revert idx d. induction vals1 as [|val vals1 IH]; intros idx d; simpl.
  - by rewrite Nat.add_0_r.
  - destruct (token_step d idx val) as [d1|e]; simpl; [|done].
    rewrite IH. by rewrite Nat.add_succ_r.
Qed.

Lemma loop_preserves (idx : nat) (vals : list str) (d d' : dict Card.t)
    (h : str) (c : Card.t) :
  loop idx vals d = Ok d' ->
  dict_get d h = Some c -> dict_get d' h = Some c.
Proof.
  revert idx d. induction vals as [|val vals IH]; intros idx d; simpl.
  - by intros [= <-].
  - intros (d1 & H1 & H2)%bind_Ok Hh.
    eapply IH; [done|]. by eapply token_step_preserves.
Qed.

Lemma loop_keys (idx : nat) (vals : list str) (d d' : dict Card.t) :
  loop idx vals d = Ok d' ->
  Forall (fun k => k ∉ exclude_headwords) (dict_keys d) ->
  Forall (fun k => k ∉ exclude_headwords) (dict_keys d').
Proof.
  revert idx d. induction vals as [|val vals IH]; intros idx d; simpl.
  - by intros [= <-].
  - intros (d1 & H1 & H2)%bind_Ok Hd.
    eapply IH; [done|]. by eapply token_step_keys.
Qed.

Lemma loop_wf (idx : nat) (vals : list str) (d d' : dict Card.t) :
  loop idx vals d = Ok d' -> dict_wf d -> dict_wf d'.
Proof.
  revert idx d. induction vals as [|val vals IH]; intros idx d; simpl.
  - by intros [= <-].
  - intros (d1 & H1 & H2)%bind_Ok Hd.
    eapply IH; [done|]. by eapply token_step_wf.
Qed.

(** Tokens that are unflagged or excluded leave the dictionary as it is. *)
Lemma loop_skip (idx : nat) (vals : list str) (d : dict Card.t) :
  Forall (fun val => isdisjoint flags (strip val) = true \/
                     key (strip val) ∈ exclude_headwords) vals ->
  loop idx vals d = Ok d.
Proof.
  revert idx. induction vals as [|val vals IH]; intros idx Hall; simpl; [done|].
  apply Forall_cons in Hall as [Hval Hall].
  assert (token_step d idx val = Ok d) as ->.
  { destruct (isdisjoint flags (strip val)) eqn:Hf.
    - by apply token_unflagged.
    - destruct Hval as [[=]|Hx]. by apply token_excluded. }
  simpl. by apply IH.
Qed.

(** The first flagged token that is not excluded has the notes parsed; an
    error of the parser is the error of the loop. *)
Lemma loop_notes_error (idx : nat) (vals : list str) (d : dict Card.t)
    (e : error) :
  Exists (fun val => isdisjoint flags (strip val) = false /\
                     key (strip val) ∉ exclude_headwords) vals ->
  _to_def_dict tl_notes_list = Err e ->
  loop idx vals d = Err e.
Proof.
  intros Hex He. revert idx.
  induction vals as [|val vals IH]; intros idx; simpl.
  - by apply Exists_nil in Hex.
  - destruct (token_cases d idx val) as [Hskip|[Hf Hx]].
    + assert (token_step d idx val = Ok d) as ->.
      { destruct Hskip as [Hu|[Hf Hx]];
          [by apply token_unflagged | by apply token_excluded]. }
      simpl. apply IH.
      apply Exists_cons in Hex as [[Hf Hx]|Hex]; [|done].
      destruct Hskip as [Hu|[_ Hx']]; [congruence | done].
    + rewrite token_flagged by done.
      by rewrite (dict_val_notes_error _ _ _ e).
Qed.

End Token.


(** ** The loop over the rows *)

Section Batch.

Variable exclude_headwords : gset str.
Variables nl_abbr tl_abbr : str.

Abbreviation batch :=
  (flagged_dict_loop key flags exclude_headwords nl_abbr tl_abbr).
Abbreviation cards_of row :=
  (_make_new_cards key flags exclude_headwords
     (Note.nl1 row) (Note.part_of_speech row) nl_abbr tl_abbr
     (Note.tl1_list row) (Note.tl2_list row) (Note.tl_notes_list row)
     (Note.tl_pronun row)).

Lemma batch_app (df1 df2 : list Note.t) (d : dict Card.t) :
  batch (df1 ++ df2) d = (d1 <- batch df1 d ;; batch df2 d1).
Proof.
  revert d. induction df1 as [|row df1 IH]; intros d; simpl; [done|].
  destruct (cards_of row d) as [d1|e]; simpl; [|done]. apply IH.
Qed.

Lemma batch_preserves (df : list Note.t) (d d' : dict Card.t) (h : str)
    (c : Card.t) :
  batch df d = Ok d' -> dict_get d h = Some c -> dict_get d' h = Some c.
Proof.
  revert d. induction df as [|row df IH]; intros d; simpl.
  - by intros [= <-].
  - intros (d1 & H1 & H2)%bind_Ok Hh.
    eapply IH; [done|]. by eapply loop_preserves.
Qed.

Lemma batch_keys (df : list Note.t) (d d' : dict Card.t) :
  batch df d = Ok d' ->
  Forall (fun k => k ∉ exclude_headwords) (dict_keys d) ->
  Forall (fun k => k ∉ exclude_headwords) (dict_keys d').
Proof.
  revert d. induction df as [|row df IH]; intros d; simpl.
  - by intros [= <-].
  - intros (d1 & H1 & H2)%bind_Ok Hd.
    eapply IH; [done|]. by eapply loop_keys.
Qed.

Lemma batch_wf (df : list Note.t) (d d' : dict Card.t) :
  batch df d = Ok d' -> dict_wf d -> dict_wf d'.
Proof.
  revert d. induction df as [|row df IH]; intros d; simpl.
  - by intros [= <-].
  - intros (d1 & H1 & H2)%bind_Ok Hd.
    eapply IH; [done|]. by eapply loop_wf.
Qed.

(** An error in a row aborts the loop over the rows that follow a
    successful part. *)
Lemma batch_abort (df1 df2 : list Note.t) (row : Note.t)
    (d d1 : dict Card.t) (e : error) :
  batch df1 d = Ok d1 -> cards_of row d1 = Err e ->
  batch (df1 ++ row :: df2) d = Err e.
Proof. intros H1 H2. rewrite batch_app, H1. simpl. by rewrite H2. Qed.

Lemma batch_abort_any (df1 df2 : list Note.t) (row : Note.t)
    (d : dict Card.t) :
  (forall d1, exists e, cards_of row d1 = Err e) ->
  exists e, batch (df1 ++ row :: df2) d = Err e.
Proof.
  intros Hrow. rewrite batch_app.
  destruct (batch df1 d) as [d1|e]; simpl; [|by exists e].
  destruct (Hrow d1) as [e ->]. by exists e.
Qed.

End Batch.

(** C3. The set of mastered headwords is exactly the set of the non-empty
    headwords of the tokens, over the primary-answer lists of all rows, that
    contain no flag character; a flagged token whose headword is in the set
    is passed over without a record being made for it, and the dictionary of
    flagged cards has no entry for a headword of the set. *)
Theorem mastered_exclusion (df : list Note.t) (nl_abbr tl_abbr : str) :
  let mastered := not_flagged_set key flags df ∅ in
  (forall h, h ∈ mastered <->
     exists row val, row ∈ df /\ val ∈ Note.tl1_list row /\
       isdisjoint flags (strip val) = true /\ key (strip val) = h /\ h <> [])
  /\ (forall nl1 part_of_speech tl1_list tl2_list tl_notes_list tl_pronun
             d idx val,
        isdisjoint flags (strip val) = false ->
        key (strip val) ∈ mastered ->
        make_new_cards_token key flags mastered nl1 part_of_speech nl_abbr
          tl_abbr tl1_list tl2_list tl_notes_list tl_pronun d idx val = Ok d)
  /\ (forall d h,
        flagged_dict key flags nl_abbr tl_abbr df = Ok d ->
        h ∈ mastered -> dict_get d h = None).
Proof.
  intros mastered. split; [|split].
  - intros h. unfold mastered. rewrite not_flagged_set_spec. split.
    + intros [Hh|?]; [|done]. by apply not_elem_of_empty in Hh.
    + intros ?. by right.
  - intros. by apply token_excluded.
  - intros d h Hd Hh. apply dict_get_None_keys. intros Hk.
    apply batch_keys in Hd; [|constructor].
    rewrite Forall_forall in Hd. by apply (Hd h).
Qed.


(** C4, as the code has it. When a flagged token is the first of its
    headword to be processed (the dictionary has no entry for the headword
    when the token is reached), the record stored for the headword at the
    end of the run is the record built for that token, and no later part of
    the run changes a stored record. A later token of the same headword, in
    the same or in another row, has its own record built before the
    membership test of line 223: the step returns the dictionary as it was
    when that record can be built (the notes of its row are parsed, its
    reference is resolved and its headword is not empty), and otherwise
    raises the error of building it, although the record would have been
    dropped. *)
Theorem first_writer_wins (exclude_headwords : gset str)
    (nl_abbr tl_abbr : str) :
  (forall (df1 df2 : list Note.t) (row : Note.t) (pre post : list str)
          (val : str) (d0 d1 d' : dict Card.t),
     Note.tl1_list row = pre ++ val :: post ->
     (d <- flagged_dict_loop key flags exclude_headwords nl_abbr tl_abbr df1 d0 ;;
      make_new_cards_loop key flags exclude_headwords
        (Note.nl1 row) (Note.part_of_speech row) nl_abbr tl_abbr
        (Note.tl1_list row) (Note.tl2_list row) (Note.tl_notes_list row)
        (Note.tl_pronun row) 0 pre d) = Ok d1 ->
     isdisjoint flags (strip val) = false ->
     key (strip val) ∉ exclude_headwords ->
     dict_get d1 (key (strip val)) = None ->
     flagged_dict_loop key flags exclude_headwords nl_abbr tl_abbr
       (df1 ++ row :: df2) d0 = Ok d' ->
     exists c,
       make_dict_val flags (Note.nl1 row) (Note.part_of_speech row)
         nl_abbr tl_abbr (Note.tl1_list row) (Note.tl2_list row)
         (Note.tl_notes_list row) (Note.tl_pronun row)
         (length pre) (strip val) (key (strip val)) = Ok c
       /\ dict_get d' (key (strip val)) = Some c)
  /\ (forall nl1 part_of_speech tl1_list tl2_list tl_notes_list tl_pronun
             (d : dict Card.t) (idx : nat) (val : str) (c0 : Card.t),
        isdisjoint flags (strip val) = false ->
        key (strip val) ∉ exclude_headwords ->
        dict_get d (key (strip val)) = Some c0 ->
        let step :=
          make_new_cards_token key flags exclude_headwords nl1 part_of_speech
            nl_abbr tl_abbr tl1_list tl2_list tl_notes_list tl_pronun d idx
            val in
        (forall e, _to_def_dict tl_notes_list = Err e -> step = Err e)
        /\ (forall dd e,
              _to_def_dict tl_notes_list = Ok dd ->
              resolve_definition nl_abbr tl_abbr tl1_list tl_notes_list dd idx
              = Err e ->
              step = Err e)
        /\ (forall dd da,
              _to_def_dict tl_notes_list = Ok dd ->
              resolve_definition nl_abbr tl_abbr tl1_list tl_notes_list dd idx
              = Ok da ->
              (key (strip val) = [] -> step = Err EmptyHeadword)
              /\ (key (strip val) <> [] -> step = Ok d)))
  /\ (forall (df : list Note.t) (d d' : dict Card.t) (h : str) (c0 : Card.t),
        flagged_dict_loop key flags exclude_headwords nl_abbr tl_abbr df d
        = Ok d' ->
        dict_get d h = Some c0 -> dict_get d' h = Some c0).
Proof.
  split; [|split].
  - intros df1 df2 row pre post val d0 d1 d' Hrow Hpre Hf Hx Hnew Hrun.
    apply bind_Ok in Hpre as (da & Hda & Hpre).
    rewrite batch_app, Hda in Hrun. simpl in Hrun.
    apply bind_Ok in Hrun as (db & Hdb & Hrun).
    unfold _make_new_cards in Hdb. rewrite Hrow in Hdb at 2.
    rewrite loop_app, Hpre in Hdb. simpl in Hdb.
    apply bind_Ok in Hdb as (dt & Hdt & Hpost).
    rewrite token_flagged in Hdt by done.
    apply bind_Ok in Hdt as (c & Hc & Hdt).
    apply dict_in_false in Hnew as Hin. rewrite Hin in Hdt.
    injection Hdt as <-. exists c. split; [done|].
    eapply batch_preserves; [done|]. eapply loop_preserves; [done|].
    rewrite dict_get_app, Hnew. simpl. by rewrite bool_decide_eq_true_2.
  - intros nl1 pos tl1_list tl2_list notes pronun d idx val c0 Hf Hx Hd step.
    assert (dict_in (key (strip val)) d = true) as Hin.
    { apply dict_in_true. by exists c0. }
    unfold step. rewrite token_flagged by done. rewrite Hin.
    split; [|split].
    + intros e He.
      by rewrite (dict_val_notes_error _ _ _ _ _ _ _ _ _ _ _ _ He).
    + intros dd e Hdd Hres.
      by rewrite (dict_val_resolve_error _ _ _ _ _ _ _ _ _ _ _ dd _ Hdd Hres).
    + intros dd da Hdd Hres. split.
      * intros ->.
        by rewrite (dict_val_empty_headword _ _ _ _ _ _ _ _ _ _ dd _ Hdd Hres).
      * intros Hne.
        destruct (dict_val_Ok nl1 pos nl_abbr tl_abbr tl1_list tl2_list notes
                    pronun idx (strip val) (key (strip val)) dd _ Hdd Hres Hne)
          as (c & -> & _).
        done.
  - intros df d d' h c0. apply batch_preserves.
Qed.


(** The definition of a card from its reference, as the code has it. For
    a flagged token at index [idx] that is not excluded and has a non-empty
    headword, when the reference mapping has
    the key [idx + 1]: with a target [m] from 1 to the length of the
    primary list, the source tag of the record is the hint of the target
    language in brackets and the definition is the trimmed token at
    position [m - 1], a space and the free text; with no target, or with
    the target 0 (the target is tested for truth), the source tag names
    both hints and the definition is the free text alone. The record is
    stored unless the headword has one already. *)
Lemma definition_from_reference (exclude_headwords : gset str)
    (nl1 part_of_speech nl1_hint tl1_hint : str)
    (tl1_list tl2_list tl_notes_list : list str) (tl_pronun : str)
    (dd : gmap Z def_entry) (d : dict Card.t) (idx : nat) (val : str) :
  isdisjoint flags (strip val) = false ->
  key (strip val) ∉ exclude_headwords ->
  key (strip val) <> [] ->
  _to_def_dict tl_notes_list = Ok dd ->
  (forall (m : Z) (text tok : str),
     dd !! Z.of_nat (idx + 1) = Some (Some m, text) ->
     (1 <= m)%Z -> tl1_list !! Z.to_nat (m - 1) = Some tok ->
     exists c,
       make_new_cards_token key flags exclude_headwords nl1 part_of_speech
         nl1_hint tl1_hint tl1_list tl2_list tl_notes_list tl_pronun d idx val
       = Ok (if dict_in (key (strip val)) d then d
             else d ++ [(key (strip val), c)])
       /\ Card.answer_lang c = u "[" ++ tl1_hint ++ u "]"
       /\ Card.tl_defs c = strip tok ++ u " " ++ text)
  /\ (forall (target : option Z) (text : str),
        dd !! Z.of_nat (idx + 1) = Some (target, text) ->
        target = None \/ target = Some 0%Z ->
        exists c,
          make_new_cards_token key flags exclude_headwords nl1 part_of_speech
            nl1_hint tl1_hint tl1_list tl2_list tl_notes_list tl_pronun d idx
            val
          = Ok (if dict_in (key (strip val)) d then d
                else d ++ [(key (strip val), c)])
          /\ Card.answer_lang c = u "[" ++ nl1_hint ++ u "|" ++ tl1_hint ++ u "]"
          /\ Card.tl_defs c = text).
Proof.
  intros Hf Hx Hh Hdd. split.
  - intros m text tok Hm H1 Htok.
    assert (resolve_definition nl1_hint tl1_hint tl1_list tl_notes_list dd idx
            = Ok (strip tok ++ u " " ++ text, u "[" ++ tl1_hint ++ u "]"))
      as Hres.
    { unfold resolve_definition. rewrite Hm. simpl.
      assert ((m =? 0)%Z = false) as -> by lia. simpl.
      unfold getitem. assert ((m - 1 <? 0)%Z = false) as Hlt by lia.
      rewrite !Hlt. by rewrite Htok. }
    destruct (dict_val_Ok nl1 part_of_speech nl1_hint tl1_hint tl1_list
                tl2_list tl_notes_list tl_pronun idx (strip val)
                (key (strip val)) dd _ Hdd Hres Hh)
      as (c & Hc & Hdefs & Hlang & _).
    exists c. rewrite token_flagged by done. rewrite Hc. simpl.
    by rewrite Hdefs, Hlang.
  - intros target text Ht Hnone.
    assert (resolve_definition nl1_hint tl1_hint tl1_list tl_notes_list dd idx
            = Ok (text, u "[" ++ nl1_hint ++ u "|" ++ tl1_hint ++ u "]"))
      as Hres.
    { unfold resolve_definition. rewrite Ht. by destruct Hnone as [-> | ->]. }
    destruct (dict_val_Ok nl1 part_of_speech nl1_hint tl1_hint tl1_list
                tl2_list tl_notes_list tl_pronun idx (strip val)
                (key (strip val)) dd _ Hdd Hres Hh)
      as (c & Hc & Hdefs & Hlang & _).
    exists c. rewrite token_flagged by done. rewrite Hc. simpl.
    by rewrite Hdefs, Hlang.
Qed.

(** C9. For a flagged token at index [idx] that is not excluded, when the
    reference mapping has no key [idx + 1]: the step raises the
    misformatted-reference error exactly when the notes, joined with [;],
    contain the text of [idx + 1] followed by [:] or by [=]; otherwise the
    source tag of the record is the hint of the native language in brackets
    and the definition is empty (and an empty headword is the only error
    left). *)
Theorem missing_reference (exclude_headwords : gset str)
    (nl1 part_of_speech nl1_hint tl1_hint : str)
    (tl1_list tl2_list tl_notes_list : list str) (tl_pronun : str)
    (dd : gmap Z def_entry) (d : dict Card.t) (idx : nat) (val : str) :
  isdisjoint flags (strip val) = false ->
  key (strip val) ∉ exclude_headwords ->
  _to_def_dict tl_notes_list = Ok dd ->
  dd !! Z.of_nat (idx + 1) = None ->
  let tl_notes := join (u ";") tl_notes_list in
  let looks_present :=
    contains tl_notes (str_of_nat (idx + 1) ++ u ":")
    || contains tl_notes (str_of_nat (idx + 1) ++ u "=") in
  let step :=
    make_new_cards_token key flags exclude_headwords nl1 part_of_speech
      nl1_hint tl1_hint tl1_list tl2_list tl_notes_list tl_pronun d idx val in
  (step = Err MisformattedReference <-> looks_present = true)
  /\ (looks_present = false -> key (strip val) <> [] ->
      exists c,
        step = Ok (if dict_in (key (strip val)) d then d
                   else d ++ [(key (strip val), c)])
        /\ Card.answer_lang c = u "[" ++ nl1_hint ++ u "]"
        /\ Card.tl_defs c = [])
  /\ (looks_present = false -> key (strip val) = [] ->
      step = Err EmptyHeadword).
Proof.
  intros Hf Hx Hdd Hnone tl_notes looks_present step.
  assert (resolve_definition nl1_hint tl1_hint tl1_list tl_notes_list dd idx
          = if looks_present then Err MisformattedReference
            else Ok ([], u "[" ++ nl1_hint ++ u "]")) as Hres.
  { unfold resolve_definition. by rewrite Hnone. }
  unfold step. rewrite token_flagged by done.
  destruct looks_present eqn:Hlooks.
  - rewrite (dict_val_resolve_error _ _ _ _ _ _ _ _ _ _ _ dd _ Hdd Hres).
    simpl. split; [done|]. split; intros [=].
  - split; [|split].
    + split; [|intros [=]].
      destruct (decide (key (strip val) = [])) as [He|Hne].
      * rewrite He.
        by rewrite (dict_val_empty_headword _ _ _ _ _ _ _ _ _ _ dd _ Hdd Hres).
      * destruct (dict_val_Ok nl1 part_of_speech nl1_hint tl1_hint tl1_list
                    tl2_list tl_notes_list tl_pronun idx (strip val)
                    (key (strip val)) dd _ Hdd Hres Hne) as (c & -> & _).
        done.
    + intros _ Hne.
      destruct (dict_val_Ok nl1 part_of_speech nl1_hint tl1_hint tl1_list
                  tl2_list tl_notes_list tl_pronun idx (strip val)
                  (key (strip val)) dd _ Hdd Hres Hne)
        as (c & Hc & Hdefs & Hlang & _).
      exists c. rewrite Hc. simpl. by rewrite Hdefs, Hlang.
    + intros _ He. rewrite He.
      by rewrite (dict_val_empty_headword _ _ _ _ _ _ _ _ _ _ dd _ Hdd Hres).
Qed.

End SynthesisFacts.


(** ** The reference parser *)

Lemma int_Ok_isdecimal (c : char) (k : Z) : int c = Ok k -> isdecimal c = true.
Proof.
  unfold int, isdecimal. destruct (decimal_value c) eqn:Hc; [|done].
  intros _. by apply bool_decide_eq_true_2.
Qed.

Lemma int_Ok_isdigit (c : char) (k : Z) : int c = Ok k -> isdigit c = true.
Proof. intros H%int_Ok_isdecimal. unfold isdigit. by rewrite H. Qed.

(** A token [N=M...] or [N≈M...] whose two positions are decimal digits. *)
Lemma to_def_dict_token_target (ret_dict : gmap Z def_entry) (val : str)
    (k m : Z) :
  (3 <= length (strip val))%nat ->
  at_ (strip val) 1 = 61 \/ at_ (strip val) 1 = 8776 ->
  int (at_ (strip val) 0) = Ok k -> int (at_ (strip val) 2) = Ok m ->
  to_def_dict_token ret_dict val =
  if bool_decide (is_Some (ret_dict !! k)) then Err DuplicateReference
  else Ok (<[ k := (Some m, if (length (strip val) <=? 4)%nat then []
                            else drop 4 (strip val)) ]> ret_dict).
Proof.
  intros Hlen Hsep Hk Hm. unfold to_def_dict_token.
  assert ((3 <=? length (strip val))%nat = true) as -> by by apply Nat.leb_le.
  assert ((at_ (strip val) 1 =? 61) || (at_ (strip val) 1 =? 8776) = true)
    as ->.
  { destruct Hsep as [-> | ->]; done. }
  rewrite (int_Ok_isdigit _ _ Hk), (int_Ok_isdigit _ _ Hm). simpl.
  rewrite Hk, Hm. simpl.
  destruct (bool_decide (is_Some (ret_dict !! k))); [done|].
  by destruct (length (strip val) <=? 4)%nat.
Qed.

(** A token [N: text] whose position is a decimal digit. *)
Lemma to_def_dict_token_text (ret_dict : gmap Z def_entry) (val : str)
    (k : Z) :
  (3 <= length (strip val))%nat ->
  at_ (strip val) 1 = 58 ->
  int (at_ (strip val) 0) = Ok k ->
  to_def_dict_token ret_dict val =
  if bool_decide (is_Some (ret_dict !! k)) then Err DuplicateReference
  else Ok (<[ k := (None, drop 3 (strip val)) ]> ret_dict).
Proof.
  intros Hlen Hsep Hk. unfold to_def_dict_token.
  assert ((3 <=? length (strip val))%nat = true) as -> by by apply Nat.leb_le.
  rewrite Hsep, (int_Ok_isdigit _ _ Hk). simpl. rewrite Hk. simpl.
  by destruct (bool_decide (is_Some (ret_dict !! k))).
Qed.

(** A token that passes neither test is ignored. *)
Lemma to_def_dict_token_ignored (ret_dict : gmap Z def_entry) (val : str) :
  (3 <=? length (strip val))%nat
  && ((at_ (strip val) 1 =? 61) || (at_ (strip val) 1 =? 8776))
  && isdigit (at_ (strip val) 0) && isdigit (at_ (strip val) 2) = false ->
  (3 <=? length (strip val))%nat && isdigit (at_ (strip val) 0)
  && (at_ (strip val) 1 =? 58) = false ->
  to_def_dict_token ret_dict val = Ok ret_dict.
Proof. intros H1 H2. unfold to_def_dict_token. by rewrite H1, H2. Qed.

Lemma int_Ok_range (c : char) (k : Z) : int c = Ok k -> (0 <= k <= 9)%Z.
Proof.
  unfold int, decimal_value.
  destruct (List.find _ decimal_zeros) as [z|] eqn:Hz; [|done].
  apply find_some in Hz as [_ Hz]. intros [= <-].
  apply andb_true_iff in Hz as [H1 H2].
  apply N.leb_le in H1. apply N.ltb_lt in H2. lia.
Qed.

(** A token is ignored by every call, or gives the same entry to every call
    (and the duplicate error when the key is taken), or fails every call. *)
Lemma to_def_dict_token_shape (val : str) :
  (forall d, to_def_dict_token d val = Ok d)
  \/ (exists k v, digit_entry k v /\
        forall d, to_def_dict_token d val =
                  if bool_decide (is_Some (d !! k)) then Err DuplicateReference
                  else Ok (<[ k := v ]> d))
  \/ (forall d, exists e, to_def_dict_token d val = Err e).
Proof.
  unfold to_def_dict_token.
  destruct ((3 <=? length (strip val))%nat
            && ((at_ (strip val) 1 =? 61) || (at_ (strip val) 1 =? 8776))
            && isdigit (at_ (strip val) 0) && isdigit (at_ (strip val) 2)).
  - destruct (int (at_ (strip val) 0)) as [k|e] eqn:Hk; simpl.
    2: { right; right. intros d. by exists e. }
    destruct (int (at_ (strip val) 2)) as [m|e] eqn:Hm; simpl.
    + right; left.
      exists k, (Some m, if (length (strip val) <=? 4)%nat then []
                         else drop 4 (strip val)).
      split.
      * split; [by eapply int_Ok_range|]. simpl. intros m' [= <-].
        by eapply int_Ok_range.
      * intros d. destruct (bool_decide (is_Some (d !! k))); [done|].
        by destruct (length (strip val) <=? 4)%nat.
    + right; right. intros d.
      destruct (bool_decide (is_Some (d !! k))); [eexists; reflexivity|].
      destruct (length (strip val) <=? 4)%nat; eexists; reflexivity.
  - destruct ((3 <=? length (strip val))%nat && isdigit (at_ (strip val) 0)
              && (at_ (strip val) 1 =? 58)).
    + destruct (int (at_ (strip val) 0)) as [k|e] eqn:Hk; simpl.
      2: { right; right. intros d. by exists e. }
      right; left. exists k, (None, drop 3 (strip val)). split.
      * split; [by eapply int_Ok_range | done].
      * intros d. by destruct (bool_decide (is_Some (d !! k))).
    + by left.
Qed.

(** ** The reference parser: a position given twice *)

Lemma to_def_dict_loop_app (l1 l2 : list str) (d : gmap Z def_entry) :
  to_def_dict_loop (l1 ++ l2) d
  = (d1 <- to_def_dict_loop l1 d ;; to_def_dict_loop l2 d1).
Proof.
  revert d. induction l1 as [|val l1 IH]; intros d; simpl; [done|].
  destruct (to_def_dict_token d val); simpl; [apply IH | done].
Qed.

(** The parser raises two errors only: its own, and that of [int]. *)
Lemma to_def_dict_token_error (d : gmap Z def_entry) (val : str) (e : error) :
  to_def_dict_token d val = Err e ->
  e = DuplicateReference \/ e = InvalidLiteral.
Proof.
  assert (forall c e', int c = Err e' -> e' = InvalidLiteral) as Hint.
  { intros c e'. unfold int. destruct (decimal_value c); [done|].
    by intros [= <-]. }
  unfold to_def_dict_token.
  destruct (_ && isdigit (at_ (strip val) 2)).
  - destruct (int (at_ (strip val) 0)) as [k|e0] eqn:Hk; simpl.
    2: { intros [= <-]. right. by eapply Hint. }
    destruct (bool_decide (is_Some (d !! k))); [intros [= <-]; by left|].
    destruct (int (at_ (strip val) 2)) as [m|e0] eqn:Hm.
    + by destruct (length (strip val) <=? 4)%nat.
    + destruct (length (strip val) <=? 4)%nat; simpl; intros [= <-]; right;
        by eapply Hint.
  - destruct (_ && (at_ (strip val) 1 =? 58)); [|done].
    destruct (int (at_ (strip val) 0)) as [k|e0] eqn:Hk; simpl.
    2: { intros [= <-]. right. by eapply Hint. }
    destruct (bool_decide (is_Some (d !! k))); [intros [= <-]; by left|done].
Qed.

Lemma to_def_dict_loop_error (l : list str) (d : gmap Z def_entry)
    (e : error) :
  to_def_dict_loop l d = Err e ->
  e = DuplicateReference \/ e = InvalidLiteral.
Proof.
  revert d. induction l as [|val l IH]; intros d; simpl; [done|].
  destruct (to_def_dict_token d val) as [d1|e1] eqn:Hval; simpl.
  - apply IH.
  - intros [= <-]. by eapply to_def_dict_token_error.
Qed.

(** A reference for the position [k] is stored when the position is free
    and raises the duplicate error when it is taken. *)
Lemma reference_for_step (k : Z) (val : str) :
  reference_for k val ->
  exists v, forall d,
    to_def_dict_token d val =
    if bool_decide (is_Some (d !! k)) then Err DuplicateReference
    else Ok (<[ k := v ]> d).
Proof.
  intros [v Hv].
  destruct (to_def_dict_token_shape val) as [I|[(k0 & v0 & _ & I)|I]].
  - rewrite I in Hv. apply Ok_inj in Hv.
    apply (f_equal (fun m : gmap Z def_entry => m !! k)) in Hv.
    by rewrite lookup_empty, lookup_singleton_eq in Hv.
  - rewrite I in Hv.
    rewrite bool_decide_eq_false_2 in Hv
      by (rewrite lookup_empty; by intros [? ?]).
    apply Ok_inj in Hv.
    apply (f_equal (fun m : gmap Z def_entry => m !! k0)) in Hv.
    rewrite lookup_insert_eq in Hv. symmetry in Hv.
    apply lookup_singleton_Some in Hv as [-> _]. by exists v0.
  - destruct (I ∅) as [e He]. congruence.
Qed.

(** A token that raises nothing when parsed alone raises at most the
    duplicate error in a list. *)
Lemma parses_alone_step (val : str) (d : gmap Z def_entry) :
  parses_alone val ->
  (exists d', to_def_dict_token d val = Ok d')
  \/ to_def_dict_token d val = Err DuplicateReference.
Proof.
  intros [d0 Hd0].
  destruct (to_def_dict_token_shape val) as [I|[(k0 & v0 & _ & I)|I]].
  - left. exists d. apply I.
  - rewrite I. destruct (bool_decide (is_Some (d !! k0))); [by right|].
    left. by eexists.
  - destruct (I ∅) as [e He]. congruence.
Qed.

Lemma to_def_dict_loop_parses (l : list str) (d : gmap Z def_entry) :
  Forall parses_alone l ->
  (exists d', to_def_dict_loop l d = Ok d')
  \/ to_def_dict_loop l d = Err DuplicateReference.
Proof.
  revert d. induction l as [|val l IH]; intros d Hl; simpl;
    [left; by exists d|].
  apply Forall_cons in Hl as [Hval Hl].
  destruct (parses_alone_step val d Hval) as [[d1 ->]| ->]; simpl.
  - by apply IH.
  - by right.
Qed.

(** A position that has an entry keeps one. *)
Lemma to_def_dict_loop_keeps (l : list str) (d d' : gmap Z def_entry)
    (k : Z) :
  to_def_dict_loop l d = Ok d' -> is_Some (d !! k) -> is_Some (d' !! k).
Proof.
  revert d. induction l as [|val l IH]; intros d; simpl.
  - by intros [= <-].
  - intros (d1 & Hval & Hl)%bind_Ok Hk. apply (IH _ Hl).
    destruct (to_def_dict_token_shape val) as [I|[(k0 & v0 & _ & I)|I]].
    + rewrite I in Hval. by injection Hval as <-.
    + rewrite I in Hval.
      destruct (bool_decide (is_Some (d !! k0))); [done|].
      injection Hval as <-. apply lookup_insert_is_Some.
      destruct (decide (k0 = k)); [by left | by right].
    + destruct (I d) as [e He]. congruence.
Qed.

(** Notes that have two references for one position are never parsed: the
    second reference raises the duplicate error, unless an error is raised
    before it is reached. *)
Lemma to_def_dict_loop_twice (pre mid post : list str) (tok1 tok2 : str)
    (k : Z) (d : gmap Z def_entry) :
  reference_for k tok1 -> reference_for k tok2 ->
  exists e,
    to_def_dict_loop (pre ++ tok1 :: mid ++ tok2 :: post) d = Err e
    /\ (e = DuplicateReference \/ e = InvalidLiteral)
    /\ (Forall parses_alone (pre ++ mid) -> e = DuplicateReference).
Proof.
  intros [v1 H1]%reference_for_step [v2 H2]%reference_for_step.
  assert (forall l d0 e, Forall parses_alone l ->
            to_def_dict_loop l d0 = Err e -> e = DuplicateReference)
    as Hdup.
  { intros l d0 e Hl He.
    destruct (to_def_dict_loop_parses l d0 Hl) as [[d' Hd']|Hd']; congruence. }
  rewrite to_def_dict_loop_app.
  destruct (to_def_dict_loop pre d) as [d1|e] eqn:Hpre; simpl.
  2: { exists e. split; [done|]. split; [by eapply to_def_dict_loop_error|].
       intros [Hp _]%Forall_app. by eapply Hdup. }
  rewrite H1. destruct (bool_decide (is_Some (d1 !! k))); simpl.
  { exists DuplicateReference. split; [done|]. split; [by left|done]. }
  rewrite to_def_dict_loop_app.
  destruct (to_def_dict_loop mid (<[k:=v1]> d1)) as [d3|e] eqn:Hmid; simpl.
  2: { exists e. split; [done|]. split; [by eapply to_def_dict_loop_error|].
       intros [_ Hm]%Forall_app. by eapply Hdup. }
  rewrite H2. rewrite bool_decide_eq_true_2.
  { exists DuplicateReference. split; [done|]. split; [by left|done]. }
  eapply to_def_dict_loop_keeps; [apply Hmid|].
  rewrite lookup_insert_eq. by eexists.
Qed.

(** The two examples of the specification, and a repeated position. *)
Example to_def_dict_target_text :
  _to_def_dict [u "2=1 (pl.)"] = Ok {[ 2%Z := (Some 1%Z, u "(pl.)") ]}.
Proof. vm_compute. reflexivity. Qed.

Example to_def_dict_free_text :
  _to_def_dict [u "3: free text"] = Ok {[ 3%Z := (None, u "free text") ]}.
Proof. vm_compute. reflexivity. Qed.

Example to_def_dict_twice :
  _to_def_dict [u "1=2"; u "1: x"] = Err DuplicateReference.
Proof. vm_compute. reflexivity. Qed.

(** C5, where the code departs from it. The token [²=1] passes the test of
    line 142-143, since [isdigit] holds of U+00B2 SUPERSCRIPT TWO, and
    [int] rejects that character at line 144: the parser neither adds an
    entry nor ignores the token, it raises the error of [int]. *)
Theorem superscript_position_raises :
  (3 <=? length (strip (u "²=1")))%nat = true
  /\ at_ (strip (u "²=1")) 1 = 61
  /\ isdigit (at_ (strip (u "²=1")) 0) = true
  /\ isdigit (at_ (strip (u "²=1")) 2) = true
  /\ int (at_ (strip (u "²=1")) 0) = Err InvalidLiteral
  /\ _to_def_dict [u "²=1"] = Err InvalidLiteral.
Proof. vm_compute. repeat split; reflexivity. Qed.


(** ** The outer merge *)

Lemma elem_of_map_2 {A B} (f : A -> B) (l : list A) (x : A) :
  x ∈ l -> f x ∈ map f l.
Proof. intros H. apply list_elem_of_In, in_map. by apply list_elem_of_In. Qed.

Lemma elem_of_map_1 {A B} (f : A -> B) (l : list A) (y : B) :
  y ∈ map f l -> exists x, f x = y /\ x ∈ l.
Proof.
  intros (x & Hx & Hl)%list_elem_of_In%in_map_iff. exists x.
  split; [done|]. by apply list_elem_of_In.
Qed.

Module FrameFacts.
Import Frame.

Lemma insert_by_key_perm (row : merged) (rows : list merged) :
  insert_by_key row rows ≡ₚ row :: rows.
Proof.
  induction rows as [|r rows IH]; simpl; [done|].
  destruct (str_leb (merge_id row) (merge_id r)); [done|].
  rewrite IH. apply Permutation_swap.
Qed.

Lemma sort_by_key_perm (rows : list merged) : sort_by_key rows ≡ₚ rows.
Proof.
  induction rows as [|r rows IH]; simpl; [done|].
  by rewrite insert_by_key_perm, IH.
Qed.

Lemma elem_of_left_rows (l : Flagged.t) (df2 : list Df2.t) (row : merged) :
  row ∈ left_rows l df2 <->
  (exists r, r ∈ df2 /\ Df2.merge_id r = Flagged.merge_id l /\
             row = row_both l r)
  \/ ((forall r, r ∈ df2 -> Df2.merge_id r <> Flagged.merge_id l) /\
      row = row_left_only l).
Proof.
  unfold left_rows. destruct (matches l df2) as [|r0 rs] eqn:Hm.
  - rewrite list_elem_of_singleton. split.
    + intros ->. right. split; [|done]. intros r Hr Hk.
      assert (r ∈ matches l df2) as Hin by by apply list_elem_of_filter.
      rewrite Hm in Hin. by apply elem_of_nil in Hin.
    + intros [(r & Hr & Hk & _)|[_ ->]]; [|done].
      assert (r ∈ matches l df2) as Hin by by apply list_elem_of_filter.
      rewrite Hm in Hin. by apply elem_of_nil in Hin.
  - rewrite <- Hm. rewrite list_elem_of_In, in_map_iff. split.
    + intros (r & <- & Hr). left. exists r.
      apply list_elem_of_In, list_elem_of_filter in Hr as [Hk Hr]. done.
    + intros [(r & Hr & Hk & ->)|[Hno _]].
      * exists r. split; [done|].
        by apply list_elem_of_In, list_elem_of_filter.
      * assert (r0 ∈ matches l df2) as [Hk Hr]%list_elem_of_filter.
        { rewrite Hm. apply list_elem_of_here. }
        by destruct (Hno r0).
Qed.

(** The rows of the merged frame. *)
Lemma elem_of_merge_outer (tl1_df : list Flagged.t) (df2 : list Df2.t)
    (row : merged) :
  row ∈ merge_outer tl1_df df2 <->
  (exists l r, l ∈ tl1_df /\ r ∈ df2 /\
     Df2.merge_id r = Flagged.merge_id l /\
     row = row_both l r)
  \/ (exists l, l ∈ tl1_df /\
        (forall r, r ∈ df2 -> Df2.merge_id r <> Flagged.merge_id l) /\
        row = row_left_only l)
  \/ (exists r, r ∈ df2 /\
        (forall l, l ∈ tl1_df -> Flagged.merge_id l <> Df2.merge_id r) /\
        row = row_right_only r).
Proof.
  unfold merge_outer. rewrite sort_by_key_perm, elem_of_app.
  rewrite !list_elem_of_In, in_flat_map, in_map_iff. split.
  - intros [(l & Hl & Hrow)|(r & <- & Hr)].
    + apply list_elem_of_In in Hl.
      apply list_elem_of_In, elem_of_left_rows in Hrow
        as [(r & Hr & Hk & ->)|[Hno ->]].
      * left. by exists l, r.
      * right; left. by exists l.
    + right; right. exists r.
      apply list_elem_of_In, list_elem_of_filter in Hr as [Hk Hr].
      split; [done|]. split; [|done]. intros l Hl Heq. apply Hk.
      rewrite <- Heq. apply list_elem_of_In, in_map. by apply list_elem_of_In.
  - intros [(l & r & Hl & Hr & Hk & ->)|[(l & Hl & Hno & ->)|(r & Hr & Hno & ->)]].
    + left. exists l. split; [by apply list_elem_of_In|].
      apply list_elem_of_In, elem_of_left_rows. left. by exists r.
    + left. exists l. split; [by apply list_elem_of_In|].
      apply list_elem_of_In, elem_of_left_rows. by right.
    + right. exists r. split; [done|].
      apply list_elem_of_In, list_elem_of_filter. split; [|done].
      intros (l & Heq & Hl)%list_elem_of_In%in_map_iff.
      apply (Hno l); [by apply list_elem_of_In | done].
Qed.

(** The headwords of the merged frame are the headwords of the two frames. *)
Lemma merge_outer_headwords (tl1_df : list Flagged.t) (df2 : list Df2.t)
    (h : str) :
  h ∈ map merge_id (merge_outer tl1_df df2) <->
  h ∈ map Flagged.merge_id tl1_df \/ h ∈ map Df2.merge_id df2.
Proof.
  split.
  - intros (row & <- & Hrow)%elem_of_map_1.
    apply elem_of_merge_outer in Hrow
      as [(l & r & Hl & Hr & Hk & ->)|[(l & Hl & Hno & ->)|(r & Hr & Hno & ->)]].
    + left. by apply (elem_of_map_2 Flagged.merge_id).
    + left. by apply (elem_of_map_2 Flagged.merge_id).
    + right. by apply (elem_of_map_2 Df2.merge_id).
  - assert (forall l, l ∈ tl1_df ->
              Flagged.merge_id l ∈ map merge_id (merge_outer tl1_df df2))
      as Hleft.
    { intros l Hl.
      destruct (decide (Flagged.merge_id l ∈ map Df2.merge_id df2)) as [Hin|Hno].
      - apply elem_of_map_1 in Hin as (r & Hk & Hr).
        apply (elem_of_map_2 merge_id _ (row_both l r)).
        apply elem_of_merge_outer. left. by exists l, r.
      - apply (elem_of_map_2 merge_id _ (row_left_only l)).
        apply elem_of_merge_outer. right; left. exists l.
        split; [done|]. split; [|done]. intros r Hr Hk. apply Hno.
        rewrite <- Hk. by apply elem_of_map_2. }
    intros [(l & <- & Hl)%elem_of_map_1|(r & <- & Hr)%elem_of_map_1].
    + by apply Hleft.
    + destruct (decide (Df2.merge_id r ∈ map Flagged.merge_id tl1_df))
        as [Hin|Hno].
      * apply elem_of_map_1 in Hin as (l & Hk & Hl). rewrite <- Hk.
        by apply Hleft.
      * apply (elem_of_map_2 merge_id _ (row_right_only r)).
        apply elem_of_merge_outer. right; right. exists r.
        split; [done|]. split; [|done]. intros l Hl Hk. apply Hno.
        rewrite <- Hk. by apply elem_of_map_2.
Qed.

(** When the keys of the right frame are distinct, a left row has at most
    one match. *)
Lemma matches_NoDup (l : Flagged.t) (df2 : list Df2.t) :
  NoDup (map Df2.merge_id df2) ->
  matches l df2 = [] \/ exists r, matches l df2 = [r].
Proof.
  unfold matches. induction df2 as [|a df2 IH]; simpl; [by left|].
  intros [Ha Hnd]%NoDup_cons. rewrite filter_cons. case_decide as Hk.
  - right. exists a. destruct (IH Hnd) as [-> | [r Hr]]; [done|].
    destruct Ha.
    assert (r ∈ filter (fun r => Df2.merge_id r = Flagged.merge_id l) df2)
      as [Hkr Hin]%list_elem_of_filter.
    { rewrite Hr. apply list_elem_of_here. }
    rewrite Hk, <- Hkr. by apply elem_of_map_2.
  - by apply IH.
Qed.

Lemma left_rows_headwords (tl1_df : list Flagged.t) (df2 : list Df2.t) :
  NoDup (map Df2.merge_id df2) ->
  map merge_id (flat_map (fun l => left_rows l df2) tl1_df)
  = map Flagged.merge_id tl1_df.
Proof.
  intros Hnd. induction tl1_df as [|l tl1_df IH]; simpl; [done|].
  rewrite map_app, IH. unfold left_rows.
  by destruct (matches_NoDup l df2 Hnd) as [-> | [r ->]].
Qed.

Lemma NoDup_map_filter {A B} (f : A -> B) (P : A -> Prop)
    `{forall x, Decision (P x)} (l : list A) :
  NoDup (map f l) -> NoDup (map f (filter P l)).
Proof.
  induction l as [|a l IH]; simpl; [done|].
  intros [Ha Hnd]%NoDup_cons. rewrite filter_cons. case_decide.
  - simpl. apply NoDup_cons. split; [|by apply IH].
    intros (x & Hx & [_ Hin]%list_elem_of_filter)%elem_of_map_1.
    apply Ha. rewrite <- Hx. by apply elem_of_map_2.
  - by apply IH.
Qed.

(** When the headwords of each frame are distinct, so are the headwords of
    the merged frame. *)
Lemma merge_outer_NoDup (tl1_df : list Flagged.t) (df2 : list Df2.t) :
  NoDup (map Flagged.merge_id tl1_df) -> NoDup (map Df2.merge_id df2) ->
  NoDup (map merge_id (merge_outer tl1_df df2)).
Proof.
  intros Hl Hr. unfold merge_outer.
  rewrite (Permutation_map merge_id (sort_by_key_perm _)).
  rewrite map_app, map_map, (left_rows_headwords _ _ Hr). simpl.
  apply NoDup_app. split; [done|]. split; [|by apply NoDup_map_filter].
  intros h Hh (r & <- & [Hno _]%list_elem_of_filter)%elem_of_map_1. done.
Qed.

End FrameFacts.


(** ** The columns assigned after the merge *)

Section MergeFacts.
Import Frame.

Variable flag_id_prefix : str.
Variable tl1_df : list Flagged.t.
Variable df2 : list Df2.t.

Lemma assign_both (l : Flagged.t) (r : Df2.t) :
  takes_override (assign_columns flag_id_prefix (row_both l r)) r.
Proof. by repeat split. Qed.

Lemma assign_right_only (r : Df2.t) :
  takes_override (assign_columns flag_id_prefix (row_right_only r)) r.
Proof. by repeat split. Qed.

Lemma assign_left_only (l : Flagged.t) :
  keeps_flagged flag_id_prefix
    (assign_columns flag_id_prefix (row_left_only l)) l.
Proof. by repeat split. Qed.

Lemma elem_of_merge_override (w : Wide.t) :
  w ∈ merge_override flag_id_prefix tl1_df df2 <->
  (exists l r, l ∈ tl1_df /\ r ∈ df2 /\ Df2.merge_id r = Flagged.merge_id l /\
               w = assign_columns flag_id_prefix (row_both l r))
  \/ (exists l, l ∈ tl1_df /\
        (forall r, r ∈ df2 -> Df2.merge_id r <> Flagged.merge_id l) /\
        w = assign_columns flag_id_prefix (row_left_only l))
  \/ (exists r, r ∈ df2 /\
        (forall l, l ∈ tl1_df -> Flagged.merge_id l <> Df2.merge_id r) /\
        w = assign_columns flag_id_prefix (row_right_only r)).
Proof.
  unfold merge_override. rewrite list_elem_of_In, in_map_iff. split.
  - intros (row & <- & Hrow).
    apply list_elem_of_In, FrameFacts.elem_of_merge_outer in Hrow
      as [(l & r & ? & ? & ? & ->)|[(l & ? & ? & ->)|(r & ? & ? & ->)]].
    + left. by exists l, r.
    + right; left. by exists l.
    + right; right. by exists r.
  - intros [(l & r & ? & ? & ? & ->)|[(l & ? & ? & ->)|(r & ? & ? & ->)]];
      eexists; (split; [done|]);
      apply list_elem_of_In, FrameFacts.elem_of_merge_outer.
    + left. by exists l, r.
    + right; left. by exists l.
    + right; right. by exists r.
Qed.

(** C2. A headword of both frames: every pair of a flagged row and an
    override row with the headword has its row in the merged frame, and
    every row of the merged frame with the headword is the row of such a
    pair and takes audio, chapter and tags of the override row, its [id]
    as identifier, and the markers [has_table] and the empty string. A
    headword of the flagged cards only: it has its row, and every row with
    the headword keeps audio, chapter and tags of the flagged card, has the
    prefix followed by the headword as identifier, and the markers the
    empty string and [Y]. *)
Theorem override_precedence :
  (forall l r, l ∈ tl1_df -> r ∈ df2 ->
     Df2.merge_id r = Flagged.merge_id l ->
     exists w, w ∈ merge_override flag_id_prefix tl1_df df2 /\
               Wide.merged w = row_both l r /\ takes_override w r)
  /\ (forall w, w ∈ merge_override flag_id_prefix tl1_df df2 ->
        Wide.merge_id w ∈ map Flagged.merge_id tl1_df ->
        Wide.merge_id w ∈ map Df2.merge_id df2 ->
        exists l r, l ∈ tl1_df /\ r ∈ df2 /\
          Flagged.merge_id l = Wide.merge_id w /\
          Df2.merge_id r = Wide.merge_id w /\
          Wide.merged w = row_both l r /\ takes_override w r)
  /\ (forall l, l ∈ tl1_df ->
        Flagged.merge_id l ∉ map Df2.merge_id df2 ->
        exists w, w ∈ merge_override flag_id_prefix tl1_df df2 /\
                  Wide.merged w = row_left_only l /\
                  keeps_flagged flag_id_prefix w l)
  /\ (forall w, w ∈ merge_override flag_id_prefix tl1_df df2 ->
        Wide.merge_id w ∉ map Df2.merge_id df2 ->
        exists l, l ∈ tl1_df /\ Flagged.merge_id l = Wide.merge_id w /\
          Wide.merged w = row_left_only l /\
                  keeps_flagged flag_id_prefix w l).
Proof.
  split; [|split; [|split]].
  - intros l r Hl Hr Hk. exists (assign_columns flag_id_prefix (row_both l r)).
    split; [|split; [done | apply assign_both]].
    apply elem_of_merge_override. left. by exists l, r.
  - intros w [(l & r & Hl & Hr & Hk & ->)|[(l & Hl & Hno & ->)|(r & Hr & Hno & ->)]]
           %elem_of_merge_override HinL HinR.
    + exists l, r. repeat split; done.
    + apply elem_of_map_1 in HinR as (r & Hk & Hr). by destruct (Hno r).
    + apply elem_of_map_1 in HinL as (l & Hk & Hl). by destruct (Hno l).
  - intros l Hl Hno. exists (assign_columns flag_id_prefix (row_left_only l)).
    split; [|split; [done | apply assign_left_only]].
    apply elem_of_merge_override. right; left. exists l.
    split; [done|]. split; [|done]. intros r Hr Hk. apply Hno.
    rewrite <- Hk. by apply elem_of_map_2.
  - intros w [(l & r & Hl & Hr & Hk & ->)|[(l & Hl & Hno & ->)|(r & Hr & Hno & ->)]]
           %elem_of_merge_override HninR.
    + destruct HninR. unfold Wide.merge_id. simpl. rewrite <- Hk.
      by apply elem_of_map_2.
    + exists l. repeat split; done.
    + destruct HninR. by apply (elem_of_map_2 Df2.merge_id).
Qed.

(** C10. A headword of the override frame only: every override row with
    the headword has its row in the merged frame, and every row of the
    merged frame with the headword is marked [has_table] and the empty
    string, as a row matched in both frames is. A row of the merged frame
    has this pair of markers exactly when its headword is a headword of the
    override frame. *)
Theorem override_only_marked :
  (forall r, r ∈ df2 ->
     Df2.merge_id r ∉ map Flagged.merge_id tl1_df ->
     exists w, w ∈ merge_override flag_id_prefix tl1_df df2 /\
               Wide.merged w = row_right_only r /\
               Wide.has_table w = u "has_table" /\ Wide.no_table w = [])
  /\ (forall w, w ∈ merge_override flag_id_prefix tl1_df df2 ->
        Wide.merge_id w ∉ map Flagged.merge_id tl1_df ->
        Wide.merge_ind w = right_only /\
        Wide.has_table w = u "has_table" /\ Wide.no_table w = [])
  /\ (forall w, w ∈ merge_override flag_id_prefix tl1_df df2 ->
        (Wide.has_table w = u "has_table" /\ Wide.no_table w = [])
        <-> Wide.merge_id w ∈ map Df2.merge_id df2).
Proof.
  split; [|split].
  - intros r Hr Hno.
    exists (assign_columns flag_id_prefix (row_right_only r)).
    split; [|by repeat split].
    apply elem_of_merge_override. right; right. exists r.
    split; [done|]. split; [|done]. intros l Hl Hk. apply Hno.
    rewrite <- Hk. by apply elem_of_map_2.
  - intros w [(l & r & Hl & Hr & Hk & ->)|[(l & Hl & Hno & ->)|(r & Hr & Hno & ->)]]
           %elem_of_merge_override HninL.
    + destruct HninL. by apply (elem_of_map_2 Flagged.merge_id).
    + destruct HninL. by apply (elem_of_map_2 Flagged.merge_id).
    + by repeat split.
  - intros w [(l & r & Hl & Hr & Hk & ->)|[(l & Hl & Hno & ->)|(r & Hr & Hno & ->)]]
           %elem_of_merge_override.
    + split; [|by repeat split]. intros _. unfold Wide.merge_id. simpl.
      rewrite <- Hk. by apply elem_of_map_2.
    + split.
      * intros [Hh _]. by vm_compute in Hh.
      * intros (r & Hk & Hr)%elem_of_map_1. by destruct (Hno r).
    + split; [|by repeat split]. intros _.
      by apply (elem_of_map_2 Df2.merge_id).
Qed.

(** What holds of the number of rows: when no two rows of the flagged frame
    and no two rows of the override frame have the same headword, the merged
    frame has one row for each headword of either frame, and as many rows as
    the two sets of headwords have elements together. *)
Lemma merge_one_row_per_headword :
  NoDup (map Flagged.merge_id tl1_df) -> NoDup (map Df2.merge_id df2) ->
  let rows := merge_override flag_id_prefix tl1_df df2 in
  NoDup (map Wide.merge_id rows)
  /\ (forall h, h ∈ map Wide.merge_id rows <->
        h ∈ map Flagged.merge_id tl1_df \/ h ∈ map Df2.merge_id df2)
  /\ length rows
     = size (list_to_set (map Flagged.merge_id tl1_df)
             ∪ list_to_set (map Df2.merge_id df2) : gset str).
Proof.
  intros Hl Hr rows.
  assert (map Wide.merge_id rows = map merge_id (merge_outer tl1_df df2))
    as Hkeys.
  { unfold rows, merge_override. rewrite map_map. done. }
  assert (NoDup (map Wide.merge_id rows)) as Hnd.
  { rewrite Hkeys. by apply FrameFacts.merge_outer_NoDup. }
  assert (forall h, h ∈ map Wide.merge_id rows <->
            h ∈ map Flagged.merge_id tl1_df \/ h ∈ map Df2.merge_id df2)
    as Hset.
  { intros h. rewrite Hkeys. apply FrameFacts.merge_outer_headwords. }
  split; [done|]. split; [done|].
  rewrite <- (length_map Wide.merge_id rows).
  rewrite <- (size_list_to_set (C:=gset str)) by done.
  f_equal. apply set_eq. intros h.
  rewrite elem_of_union, !elem_of_list_to_set. apply Hset.
Qed.

End MergeFacts.


(** ** Override preprocessing and the whole function *)

Section AdditionalFacts.

Variable F : Flawful.
Variable str_to_wordlist_key : str -> str.
Variable flags : str.

Lemma tl3_lists_conflict (nl_abbr tl_abbr : str) (df : Override.frame) :
  tl3_lists F nl_abbr tl_abbr df = Err ConflictingInput <->
  Override.has_tl3_prompts_list df = true \/ Override.has_tl3_list df = true.
Proof.
  unfold tl3_lists.
  destruct (Override.has_tl3_prompts_list df), (Override.has_tl3_list df);
    simpl; split; try done; auto.
  intros [[=]|[=]].
Qed.

(** C8, where the code departs from it. When neither prebuilt column is
    present the two lists are built from the numbered columns; when one of
    them is present the conflicting-input error is raised; and when both
    are present the same error is raised: the test of line 261 holds
    whenever the test of line 248 fails, so that the trimming of lines
    265-267 is never reached. *)
Theorem prebuilt_columns_raise (rows : list Override.t) (trk : trackers F)
    (str_to_chapter : str -> Z) (braces_html_class : option str)
    (nl_abbr tl_abbr htag_prefix : str) :
  tl3_lists F nl_abbr tl_abbr (Override.mk_frame rows false false)
  = Ok (map (fun r =>
               combine_answer_lists F
                 (columns_with_prefix_to_list F (Override.numbered r) (u "tl3p_"))
                 (columns_with_prefix_to_list F (Override.numbered r) (u "tl3t_"))
                 (columns_with_prefix_to_list F (Override.numbered r) (u "tl3n_"))
                 tl_abbr nl_abbr) rows)
  /\ _process_tl_override_df F str_to_wordlist_key
       (Override.mk_frame rows true false) trk str_to_chapter
       braces_html_class nl_abbr tl_abbr htag_prefix = Err ConflictingInput
  /\ _process_tl_override_df F str_to_wordlist_key
       (Override.mk_frame rows false true) trk str_to_chapter
       braces_html_class nl_abbr tl_abbr htag_prefix = Err ConflictingInput
  /\ _process_tl_override_df F str_to_wordlist_key
       (Override.mk_frame rows true true) trk str_to_chapter
       braces_html_class nl_abbr tl_abbr htag_prefix = Err ConflictingInput.
Proof. by repeat split. Qed.

(** The frame of a successful call is the merge of the frame of the flagged
    cards with the processed override frame. *)
Lemma additional_frame_Ok (df : list Note.t) (trk trk' : trackers F)
    (odf : Override.frame) (str_to_chapter : str -> Z)
    (braces_html_class : option str)
    (nl_abbr tl_abbr htag_prefix flag_id_prefix : str) (rows : list Wide.t) :
  additional_frame F str_to_wordlist_key flags df trk (Some odf)
    str_to_chapter braces_html_class nl_abbr tl_abbr htag_prefix
    flag_id_prefix = Ok (trk', rows) ->
  exists d trk1 tl1_df df2,
    flagged_dict str_to_wordlist_key flags nl_abbr tl_abbr df = Ok d
    /\ flagged_frame F trk htag_prefix d = (trk1, tl1_df)
    /\ _process_tl_override_df F str_to_wordlist_key odf trk1 str_to_chapter
         braces_html_class nl_abbr tl_abbr htag_prefix = Ok (trk', df2)
    /\ rows = merge_override flag_id_prefix tl1_df df2.
Proof.
  unfold additional_frame. intros (d & Hd & Hrest)%bind_Ok.
  destruct d as [|kv d]; [done|].
  destruct (flagged_frame F trk htag_prefix (kv :: d)) as [trk1 tl1_df] eqn:Hff.
  apply bind_Ok in Hrest as ([trk2 df2] & Hp & [= <- <-]).
  by exists (kv :: d), trk1, tl1_df, df2.
Qed.

Lemma tag_rows_length (trk : trackers F) (htag_prefix : str)
    (reqs : list (Z * str)) :
  length (snd (tag_rows F trk htag_prefix reqs)) = length reqs.
Proof.
  revert trk. induction reqs as [|[chapter token] reqs IH]; intros trk; simpl;
    [done|].
  destruct (tag_audio_and_markup F trk htag_prefix chapter token) as [trk1 x].
  specialize (IH trk1).
  destruct (tag_rows F trk1 htag_prefix reqs) as [trk2 xs]. simpl in *.
  by rewrite IH.
Qed.

(** The frame of the flagged cards has the records of the dictionary, in
    its order. *)
Lemma flagged_frame_cards (trk : trackers F) (htag_prefix : str)
    (d : dict Card.t) :
  map Flagged.card (snd (flagged_frame F trk htag_prefix d)) = map snd d.
Proof.
  unfold flagged_frame.
  pose proof (tag_rows_length trk htag_prefix
                (map (fun kv => (999%Z, Card.tl1 (snd kv))) d)) as Hlen.
  destruct (tag_rows F trk htag_prefix _) as [trk' res]. simpl in *.
  rewrite length_map in Hlen. clear trk trk'.
  revert res Hlen. induction d as [|kv d IH]; intros [|x res] Hlen;
    simpl in *; try done.
  f_equal. apply IH. lia.
Qed.

Lemma flagged_frame_headwords (trk : trackers F) (htag_prefix : str)
    (d : dict Card.t) :
  dict_wf d ->
  map Flagged.merge_id (snd (flagged_frame F trk htag_prefix d))
  = dict_keys d.
Proof.
  intros [_ Hall].
  change (map Flagged.merge_id ?l) with (map (fun r => Card.merge_id (Flagged.card r)) l).
  rewrite <- (map_map Flagged.card Card.merge_id), flagged_frame_cards.
  unfold dict_keys. induction Hall as [|kv d Hkv Hall IH]; simpl; [done|].
  by rewrite Hkv, IH.
Qed.

(** What holds of the number of rows of a run: when no two rows of the
    processed override frame have the same headword, the frame has one row
    for each headword of the dictionary of flagged cards or of the override
    frame, and as many rows as the two sets of headwords have elements
    together. *)
Lemma additional_frame_one_row_per_headword (df : list Note.t)
    (trk trk' : trackers F) (odf : Override.frame) (str_to_chapter : str -> Z)
    (braces_html_class : option str)
    (nl_abbr tl_abbr htag_prefix flag_id_prefix : str) (rows : list Wide.t) :
  additional_frame F str_to_wordlist_key flags df trk (Some odf)
    str_to_chapter braces_html_class nl_abbr tl_abbr htag_prefix
    flag_id_prefix = Ok (trk', rows) ->
  exists d trk1 df2,
    flagged_dict str_to_wordlist_key flags nl_abbr tl_abbr df = Ok d
    /\ _process_tl_override_df F str_to_wordlist_key odf trk1 str_to_chapter
         braces_html_class nl_abbr tl_abbr htag_prefix = Ok (trk', df2)
    /\ (NoDup (map Df2.merge_id df2) ->
        NoDup (map Wide.merge_id rows)
        /\ (forall h, h ∈ map Wide.merge_id rows <->
              h ∈ dict_keys d \/ h ∈ map Df2.merge_id df2)
        /\ length rows
           = size (list_to_set (dict_keys d)
                   ∪ list_to_set (map Df2.merge_id df2) : gset str)).
Proof.
  intros (d & trk1 & tl1_df & df2 & Hd & Hff & Hp & ->)%additional_frame_Ok.
  exists d, trk1, df2. split; [done|]. split; [done|]. intros Hnd.
  assert (dict_wf d) as Hwf.
  { eapply batch_wf; [apply Hd|]. split; [constructor | constructor]. }
  assert (map Flagged.merge_id tl1_df = dict_keys d) as Hkeys.
  { rewrite <- (flagged_frame_headwords trk htag_prefix d Hwf). by rewrite Hff. }
  rewrite <- Hkeys. apply merge_one_row_per_headword; [|done].
  rewrite Hkeys. apply Hwf.
Qed.

(** An error of the synthesis is the error of the whole function. *)
Lemma create_synthesis_error (df : list Note.t) (trk : trackers F)
    (tl_override_df : option Override.frame) (str_to_chapter : str -> Z)
    (braces_html_class : option str)
    (nl_abbr tl_abbr htag_prefix flag_id_prefix : str) (e : error) :
  flagged_dict str_to_wordlist_key flags nl_abbr tl_abbr df = Err e ->
  create_tl_additional_output F str_to_wordlist_key flags df trk
    tl_override_df str_to_chapter braces_html_class nl_abbr tl_abbr
    htag_prefix flag_id_prefix = Err e.
Proof.
  intros H. unfold create_tl_additional_output, additional_frame.
  by rewrite H.
Qed.

(** C6, as the code has it. Notes that have two references for the same
    position are never parsed: the parser raises when it reaches the second
    of the two, and the error is the duplicate-reference error unless a
    token before it has raised the error of [int] (a position that is a
    digit that [int] rejects). The notes of a row are parsed when its first
    flagged token that is not mastered is reached, and only then. For a row
    with such a token and such notes the call for the row raises that error,
    and the whole function raises an error: that one, when the rows before
    have raised none. A row whose tokens are all unflagged or mastered is
    passed over without its notes being read. *)
Theorem duplicate_reference_aborts (nl_abbr tl_abbr : str) :
  (forall (pre mid post : list str) (tok1 tok2 : str) (k : Z),
     reference_for k tok1 -> reference_for k tok2 ->
     exists e,
       _to_def_dict (pre ++ tok1 :: mid ++ tok2 :: post) = Err e
       /\ (e = DuplicateReference \/ e = InvalidLiteral)
       /\ (Forall parses_alone (pre ++ mid) -> e = DuplicateReference))
  /\ (forall (exclude_headwords : gset str) (row : Note.t) (d : dict Card.t)
             (pre mid post : list str) (tok1 tok2 : str) (k : Z),
        Exists (fun val => isdisjoint flags (strip val) = false /\
                           str_to_wordlist_key (strip val) ∉ exclude_headwords)
               (Note.tl1_list row) ->
        Note.tl_notes_list row = pre ++ tok1 :: mid ++ tok2 :: post ->
        reference_for k tok1 -> reference_for k tok2 ->
        exists e,
          _make_new_cards str_to_wordlist_key flags exclude_headwords
            (Note.nl1 row) (Note.part_of_speech row) nl_abbr tl_abbr
            (Note.tl1_list row) (Note.tl2_list row) (Note.tl_notes_list row)
            (Note.tl_pronun row) d = Err e
          /\ (e = DuplicateReference \/ e = InvalidLiteral)
          /\ (Forall parses_alone (pre ++ mid) -> e = DuplicateReference))
  /\ (forall (df1 df2 : list Note.t) (row : Note.t) (trk : trackers F)
             (tl_override_df : option Override.frame)
             (str_to_chapter : str -> Z) (braces_html_class : option str)
             (htag_prefix flag_id_prefix : str)
             (pre mid post : list str) (tok1 tok2 : str) (k : Z),
        let df := df1 ++ row :: df2 in
        let mastered := not_flagged_set str_to_wordlist_key flags df ∅ in
        Exists (fun val => isdisjoint flags (strip val) = false /\
                           str_to_wordlist_key (strip val) ∉ mastered)
               (Note.tl1_list row) ->
        Note.tl_notes_list row = pre ++ tok1 :: mid ++ tok2 :: post ->
        reference_for k tok1 -> reference_for k tok2 ->
        (exists e,
           create_tl_additional_output F str_to_wordlist_key flags df trk
             tl_override_df str_to_chapter braces_html_class nl_abbr tl_abbr
             htag_prefix flag_id_prefix = Err e)
        /\ (Forall parses_alone (pre ++ mid) ->
            forall d1,
              flagged_dict_loop str_to_wordlist_key flags mastered nl_abbr
                tl_abbr df1 [] = Ok d1 ->
              create_tl_additional_output F str_to_wordlist_key flags df trk
                tl_override_df str_to_chapter braces_html_class nl_abbr
                tl_abbr htag_prefix flag_id_prefix = Err DuplicateReference))
  /\ (forall (exclude_headwords : gset str) (row : Note.t) (d : dict Card.t),
        Forall (fun val => isdisjoint flags (strip val) = true \/
                           str_to_wordlist_key (strip val) ∈ exclude_headwords)
               (Note.tl1_list row) ->
        _make_new_cards str_to_wordlist_key flags exclude_headwords
          (Note.nl1 row) (Note.part_of_speech row) nl_abbr tl_abbr
          (Note.tl1_list row) (Note.tl2_list row) (Note.tl_notes_list row)
          (Note.tl_pronun row) d = Ok d).
Proof.
  assert (forall (excl : gset str) (row : Note.t) (d : dict Card.t)
                 (pre mid post : list str) (tok1 tok2 : str) (k : Z),
            Exists (fun val => isdisjoint flags (strip val) = false /\
                               str_to_wordlist_key (strip val) ∉ excl)
                   (Note.tl1_list row) ->
            Note.tl_notes_list row = pre ++ tok1 :: mid ++ tok2 :: post ->
            reference_for k tok1 -> reference_for k tok2 ->
            exists e,
              _make_new_cards str_to_wordlist_key flags excl
                (Note.nl1 row) (Note.part_of_speech row) nl_abbr tl_abbr
                (Note.tl1_list row) (Note.tl2_list row)
                (Note.tl_notes_list row) (Note.tl_pronun row) d = Err e
              /\ (e = DuplicateReference \/ e = InvalidLiteral)
              /\ (Forall parses_alone (pre ++ mid) -> e = DuplicateReference))
    as Hrow.
  { intros excl row d pre mid post tok1 tok2 k Hex Hnotes H1 H2.
    destruct (to_def_dict_loop_twice pre mid post tok1 tok2 k ∅ H1 H2)
      as (e & He & Hcls & Hdup).
    exists e. split; [|done].
    apply loop_notes_error; [done|]. by rewrite Hnotes. }
  split; [|split; [|split]].
  - intros pre mid post tok1 tok2 k H1 H2.
    apply (to_def_dict_loop_twice pre mid post tok1 tok2 k ∅ H1 H2).
  - apply Hrow.
  - intros df1 df2 row trk odf str_to_chapter braces htag prefix
           pre mid post tok1 tok2 k df mastered Hex Hnotes H1 H2.
    split.
    + destruct (batch_abort_any str_to_wordlist_key flags mastered nl_abbr
                  tl_abbr df1 df2 row []) as [e He].
      { intros d1.
        destruct (Hrow mastered row d1 pre mid post tok1 tok2 k Hex Hnotes
                    H1 H2) as (e & He & _).
        by exists e. }
      exists e. by apply create_synthesis_error.
    + intros Hpar d1 Hd1. apply create_synthesis_error.
      destruct (Hrow mastered row d1 pre mid post tok1 tok2 k Hex Hnotes
                  H1 H2) as (e & He & _ & Hdup).
      rewrite (Hdup Hpar) in He.
      by apply (batch_abort _ _ _ _ _ _ _ _ _ d1).
  - intros excl row d Hall. by apply loop_skip.
Qed.

End AdditionalFacts.

(** ** The example inputs *)

(** C1, where the code departs from it. The override frame has two rows,
    [A1] and [A2], with the headword [haus], which is also the headword of a
    flagged card: the merged frame has a row for each of the two, four rows
    where the two sets of headwords have three elements together. *)
Theorem override_headword_twice :
  flagged_dict demo_key demo_flags (u "N") (u "T") [demo_note] = Ok demo_dict
  /\ _process_tl_override_df demo_flawful demo_key demo_override_df 2%nat
       (fun _ => 5%Z) None (u "N") (u "T") (u "TL") = Ok (5%nat, demo_df2)
  /\ exists rows,
       demo_run = Ok (5%nat, rows)
       /\ map Wide.merge_id rows = [u "bau"; u "haus"; u "haus"; u "turm"]
       /\ map Wide.note_id rows
          = [Some (u "HW_bau"); Some (u "A1"); Some (u "A2"); Some (u "A3")]
       /\ length rows = 4%nat
       /\ size (list_to_set (dict_keys demo_dict)
                ∪ list_to_set (map Df2.merge_id demo_df2) : gset str) = 3%nat.
Proof.
  split; [by vm_compute|]. split; [by vm_compute|].
  eexists. split; [vm_compute; reflexivity|].
  repeat split; by vm_compute.
Qed.

(** The example frames are the frames the functions compute. *)
Example demo_frames :
  flagged_dict demo_key demo_flags (u "N") (u "T") [demo_note] = Ok demo_dict
  /\ flagged_frame demo_flawful 0%nat (u "TL") demo_dict = (2%nat, demo_tl1_df)
  /\ _process_tl_override_df demo_flawful demo_key demo_override_df 2%nat
       (fun _ => 5%Z) None (u "N") (u "T") (u "TL") = Ok (5%nat, demo_df2).
Proof. repeat split; by vm_compute. Qed.

(** The notes of [demo_mastered_note] give position 1 twice, and its one
    flagged token has a mastered headword: the row is passed over and the
    function returns its frame. *)
Lemma duplicate_notes_not_read :
  _to_def_dict (Note.tl_notes_list demo_mastered_note) = Err DuplicateReference
  /\ isdisjoint demo_flags (strip (u "haus°")) = false
  /\ flagged_dict demo_key demo_flags (u "N") (u "T")
       [demo_mastered_note; demo_note]
     = Ok [(u "bau", demo_card_bau)]
  /\ exists out,
       create_tl_additional_output demo_flawful demo_key demo_flags
         [demo_mastered_note; demo_note] 0%nat (Some demo_override_df)
         (fun _ => 5%Z) None (u "N") (u "T") (u "TL") (u "HW_") = Ok out.
Proof.
  split; [by vm_compute|]. split; [by vm_compute|]. split; [by vm_compute|].
  eexists. vm_compute. reflexivity.
Qed.

(** C7, where the code departs from it. The note [1=0 x] gives position 1
    the entry [(0, 'x')], whose target is set (it is not [None]): the claim,
    and the comments of lines 193 and 197, which name the two branches by
    [(M, ...)] and [(None, ...)], give the record of the flagged token at
    index 0 the source tag of the target language and a definition made of
    a primary token, a space and the free text. Line 191 tests the target
    for truth, and 0 is false: the record has the source tag of both hints
    and the free text alone as definition. *)
Theorem zero_target_is_unset :
  _to_def_dict [u "1=0 x"] = Ok {[ 1%Z := (Some 0%Z, u "x") ]}
  /\ exists c,
       flagged_dict demo_key demo_flags (u "N") (u "T")
         [Note.mk (u "house") (u "n") [u "1=0 x"] [] [u "Haus°"] []]
       = Ok [(u "haus", c)]
       /\ Card.answer_lang c = u "[N|T]"
       /\ Card.answer_lang c <> u "[" ++ u "T" ++ u "]"
       /\ Card.tl_defs c = u "x"
       /\ Card.tl_defs c <> strip (u "Haus°") ++ u " " ++ u "x".
Proof.
  split; [by vm_compute|]. eexists. split; [vm_compute; reflexivity|].
  repeat split; by vm_compute.
Qed.

(** A target beyond the primary list: line 194 raises [IndexError]. *)
Example target_out_of_range :
  flagged_dict demo_key demo_flags (u "N") (u "T")
    [Note.mk (u "house") (u "n") [u "1=5"] [] [u "Haus°"] []]
  = Err IndexError.
Proof. by vm_compute. Qed.

(** A later token of a stored headword raises: the dictionary of
    [demo_note] has a record for [haus]; the flagged token [Haus°] of a
    later row has the same headword and is not mastered, and its row has
    the note [x 1:y], which is no reference and contains [1:]. Its step
    raises the misformatted-reference error, and so does the run, where
    the record would have been dropped. *)
Lemma later_token_raises :
  flagged_dict demo_key demo_flags (u "N") (u "T") [demo_note] = Ok demo_dict
  /\ dict_get demo_dict (demo_key (strip (u "Haus°"))) = Some demo_card_haus
  /\ isdisjoint demo_flags (strip (u "Haus°")) = false
  /\ (demo_key (strip (u "Haus°"))
      ∉ not_flagged_set demo_key demo_flags
          [demo_note; Note.mk (u "home") (u "n") [u "x 1:y"] [] [u "Haus°"] []]
          ∅)
  /\ make_new_cards_token demo_key demo_flags ∅ (u "home") (u "n") (u "N")
       (u "T") [u "Haus°"] [] [u "x 1:y"] [] demo_dict 0 (u "Haus°")
     = Err MisformattedReference
  /\ flagged_dict demo_key demo_flags (u "N") (u "T")
       [demo_note; Note.mk (u "home") (u "n") [u "x 1:y"] [] [u "Haus°"] []]
     = Err MisformattedReference.
Proof.
  split; [by vm_compute|]. split; [by vm_compute|]. split; [by vm_compute|].
  split; [|split; by vm_compute].
  apply (proj1 (bool_decide_eq_false _)). by vm_compute.
Qed.

(** Notes that give position 1 twice with the token [²=1] between the two:
    [int] rejects the superscript before the second reference is reached. *)
Example duplicate_after_literal_error :
  reference_for 1 (u "1=2") /\ reference_for 1 (u "1: x")
  /\ _to_def_dict [u "1=2"; u "²=1"; u "1: x"] = Err InvalidLiteral
  /\ flagged_dict demo_key demo_flags (u "N") (u "T")
       [Note.mk (u "tower") (u "n") [u "1=2"; u "²=1"; u "1: x"] []
          [u "Turm°"] []]
     = Err InvalidLiteral.
Proof.
  split; [exists (Some 2%Z, []); by vm_compute|].
  split; [exists (None, u "x"); by vm_compute|].
  split; by vm_compute.
Qed.

Lemma mastered_exclusion_witness :
  u "haus" ∈ not_flagged_set demo_key demo_flags
               [demo_mastered_note; demo_note] ∅
  /\ make_new_cards_token demo_key demo_flags
       (not_flagged_set demo_key demo_flags [demo_mastered_note; demo_note] ∅)
       (u "home") (u "n") (u "N") (u "T") [u "Haus"; u "haus°"] []
       [u "1=2"; u "1: x"] [] [] 1 (u "haus°") = Ok []
  /\ dict_get [(u "bau", demo_card_bau)] (u "haus") = None.
Proof.
  destruct (mastered_exclusion demo_key demo_flags
              [demo_mastered_note; demo_note] (u "N") (u "T"))
    as (Hset & Hskip & Hdict).
  assert (u "haus" ∈ not_flagged_set demo_key demo_flags
                       [demo_mastered_note; demo_note] ∅) as Hin.
  { apply Hset. exists demo_mastered_note, (u "Haus").
    split; [elem_of_list|]. split; [elem_of_list|]. by vm_compute. }
  split; [done|]. split.
  - apply Hskip; [by vm_compute | done].
  - apply Hdict; [by vm_compute | done].
Defined.

Lemma first_writer_wins_witness :
  exists c,
    make_dict_val demo_flags (u "house") (u "n") (u "N") (u "T")
      [u "Gebäude"; u "Haus°"; u "Bau†"] [] [u "2=1"] [] 1
      (strip (u "Haus°")) (demo_key (strip (u "Haus°"))) = Ok c
    /\ dict_get [(u "haus", c); (u "bau", demo_card_bau)]
                (demo_key (strip (u "Haus°"))) = Some c.
Proof.
  destruct (first_writer_wins demo_key demo_flags ∅ (u "N") (u "T"))
    as (Hfirst & _).
  destruct (Hfirst [] [Note.mk (u "home") (u "n") [] [] [u "Haus†"] []]
              demo_note [u "Gebäude"] [u "Bau†"] (u "Haus°") [] [] demo_dict)
    as (c & Hc & Hget); try (by vm_compute); try apply not_elem_of_empty.
  exists c. split; [done|].
  assert (c = demo_card_haus) as ->.
  { vm_compute in Hc. by injection Hc as <-. }
  by vm_compute.
Defined.

Lemma duplicate_reference_aborts_witness :
  create_tl_additional_output demo_flawful demo_key demo_flags
    ([demo_note] ++ demo_duplicate_note :: [])
    0%nat (Some demo_override_df) (fun _ => 5%Z) None (u "N") (u "T")
    (u "TL") (u "HW_") = Err DuplicateReference.
Proof.
  destruct (duplicate_reference_aborts demo_flawful demo_key demo_flags
              (u "N") (u "T")) as (_ & _ & Hrun & _).
  destruct (Hrun [demo_note] [] demo_duplicate_note
              0%nat (Some demo_override_df) (fun _ => 5%Z) None (u "TL")
              (u "HW_") [] [] [] (u "1=2") (u "1: x") 1%Z) as (_ & Hdup).
  - apply Exists_cons_hd. split; [by vm_compute|].
    apply (proj1 (bool_decide_eq_false _)). by vm_compute.
  - reflexivity.
  - exists (Some 2%Z, []). by vm_compute.
  - exists (None, u "x"). by vm_compute.
  - apply (Hdup (Forall_nil_2 _) demo_dict). by vm_compute.
Defined.

Lemma definition_from_reference_witness :
  exists c,
    make_new_cards_token demo_key demo_flags ∅ (u "house") (u "n") (u "N")
      (u "T") [u "Gebäude"; u "Haus°"; u "Bau†"] [] [u "2=1"] [] [] 1
      (u "Haus°")
    = Ok [(u "haus", c)]
    /\ Card.answer_lang c = u "[T]"
    /\ Card.tl_defs c = u "Gebäude ".
Proof.
  destruct (definition_from_reference demo_key demo_flags ∅ (u "house")
              (u "n") (u "N") (u "T") [u "Gebäude"; u "Haus°"; u "Bau†"] []
              [u "2=1"] [] {[ 2%Z := (Some 1%Z, []) ]} [] 1 (u "Haus°"))
    as (Htarget & _); try (by vm_compute); try apply not_elem_of_empty.
  exact (Htarget 1%Z [] (u "Gebäude") eq_refl ltac:(lia) eq_refl).
Defined.

Lemma missing_reference_witness :
  exists c,
    make_new_cards_token demo_key demo_flags ∅ (u "house") (u "n") (u "N")
      (u "T") [u "Gebäude"; u "Haus°"; u "Bau†"] [] [u "2=1"] [] [] 2
      (u "Bau†")
    = Ok [(u "bau", c)]
    /\ Card.answer_lang c = u "[N]"
    /\ Card.tl_defs c = [].
Proof.
  destruct (missing_reference demo_key demo_flags ∅ (u "house") (u "n")
              (u "N") (u "T") [u "Gebäude"; u "Haus°"; u "Bau†"] []
              [u "2=1"] [] {[ 2%Z := (Some 1%Z, []) ]} [] 2 (u "Bau†"))
    as (_ & Hcard & _); try (by vm_compute); try apply not_elem_of_empty.
  exact (Hcard eq_refl ltac:(by vm_compute)).
Defined.

Lemma override_precedence_witness :
  exists w, w ∈ merge_override (u "HW_") demo_tl1_df demo_df2
            /\ Wide.merged w
               = Frame.row_both demo_flagged_haus (demo_df2_row "A1" "Haus" "haus")
            /\ takes_override w (demo_df2_row "A1" "Haus" "haus").
Proof.
  destruct (override_precedence (u "HW_") demo_tl1_df demo_df2)
    as (Hboth & _).
  apply Hboth; [elem_of_list | elem_of_list | by vm_compute].
Defined.

Lemma override_only_marked_witness :
  exists w, w ∈ merge_override (u "HW_") demo_tl1_df demo_df2
            /\ Wide.merged w
               = Frame.row_right_only (demo_df2_row "A3" "Turm" "turm")
            /\ Wide.has_table w = u "has_table" /\ Wide.no_table w = [].
Proof.
  destruct (override_only_marked (u "HW_") demo_tl1_df demo_df2)
    as (Hright & _).
  apply Hright; [elem_of_list|].
  intros Hin. apply list_elem_of_In in Hin. vm_compute in Hin.
  by destruct Hin as [|[|[]]].
Defined.


(** * Further properties *)

(** ** The flag-usage check *)

Lemma check_flag_token_None (flags val val2 : str) (col2_list : list str)
    (idx : nat) :
  col2_list !! idx = Some val2 ->
  check_flag_token flags val col2_list idx = None <-> flags_agree flags val val2.
Proof.
  intros Hidx. unfold flags_agree.
  induction flags as [|flag flags IH]; simpl.
  - split; [|done]. intros _ flag Hin. by apply elem_of_nil in Hin.
  - rewrite Hidx.
    destruct (char_in flag val) eqn:H1, (char_in flag val2) eqn:H2; simpl.
    + destruct (char_in 126 val) eqn:T1.
      { split; [done|]. intros H.
        destruct (H flag (list_elem_of_here _ _)) as [_ Ht].
        rewrite H1 in Ht. by destruct Ht. }
      destruct (char_in 126 val2) eqn:T2.
      { split; [done|]. intros H.
        destruct (H flag (list_elem_of_here _ _)) as [_ Ht].
        rewrite H1 in Ht. by destruct Ht. }
      rewrite IH. split.
      * intros H f [->|Hin]%elem_of_cons; [by rewrite H1, H2 | by apply H].
      * intros H f Hin. apply H. by apply list_elem_of_further.
    + split; [done|]. intros H.
      destruct (H flag (list_elem_of_here _ _)) as [He _]. congruence.
    + split; [done|]. intros H.
      destruct (H flag (list_elem_of_here _ _)) as [He _]. congruence.
    + rewrite IH. split.
      * intros H f [->|Hin]%elem_of_cons; [|by apply H].
        rewrite H1, H2. by split.
      * intros H f Hin. apply H. by apply list_elem_of_further.
Qed.

(** What the loop over the flags raises. *)
Lemma check_flag_token_Some (flags val val2 : str) (col2_list : list str)
    (idx : nat) (e : Raised.t) :
  col2_list !! idx = Some val2 ->
  check_flag_token flags val col2_list idx = Some e ->
  e = Raised.TypeError
  \/ (e = Raised.ValueError_tilde /\
      exists flag, flag ∈ flags /\ char_in flag val = true /\
        char_in flag val2 = true /\ char_in 126 val = false /\
        char_in 126 val2 = true).
Proof.
  intros Hidx. induction flags as [|flag flags IH]; simpl; [done|].
  rewrite Hidx.
  destruct (char_in flag val) eqn:H1, (char_in flag val2) eqn:H2; simpl.
  - destruct (char_in 126 val) eqn:T1; [intros [= <-]; by left|].
    destruct (char_in 126 val2) eqn:T2.
    + intros [= <-]. right. split; [done|]. exists flag.
      split; [apply list_elem_of_here | done].
    + intros [?|(? & f & Hin & ?)]%IH; [by left|right]. split; [done|].
      exists f. split; [by apply list_elem_of_further | done].
  - intros [= <-]. by left.
  - intros [= <-]. by left.
  - intros [?|(? & f & Hin & ?)]%IH; [by left|right]. split; [done|].
    exists f. split; [by apply list_elem_of_further | done].
Qed.

Lemma check_flag_loop_None (flags : str) (col2_list : list str) (idx : nat)
    (vals : list str) :
  length col2_list = (idx + length vals)%nat ->
  check_flag_loop flags col2_list idx vals = None <->
  Forall2 (flags_agree flags) vals (drop idx col2_list).
Proof.
  revert idx. induction vals as [|val vals IH]; intros idx Hlen; simpl.
  - rewrite drop_ge by (simpl in Hlen; lia). split; [constructor | done].
  - simpl in Hlen.
    destruct (col2_list !! idx) as [val2|] eqn:Hidx.
    2: { apply lookup_ge_None in Hidx. lia. }
    rewrite (drop_S _ _ _ Hidx).
    pose proof (check_flag_token_None flags val val2 col2_list idx Hidx) as Htok.
    destruct (check_flag_token flags val col2_list idx) as [e|].
    + split; [done|]. intros [Hv _]%Forall2_cons. by apply Htok in Hv.
    + rewrite IH by lia. split.
      * intros H. constructor; [by apply Htok | done].
      * by intros [_ H]%Forall2_cons.
Qed.

Lemma check_flag_loop_Some (flags : str) (col2_list : list str) (idx : nat)
    (vals : list str) (e : Raised.t) :
  length col2_list = (idx + length vals)%nat ->
  check_flag_loop flags col2_list idx vals = Some e ->
  e = Raised.TypeError
  \/ (e = Raised.ValueError_tilde /\
      exists i val val2 flag,
        vals !! i = Some val /\ col2_list !! (idx + i)%nat = Some val2 /\
        flag ∈ flags /\ char_in flag val = true /\
        char_in flag val2 = true /\ char_in 126 val = false /\
        char_in 126 val2 = true).
Proof.
  revert idx. induction vals as [|val vals IH]; intros idx Hlen; simpl; [done|].
  simpl in Hlen.
  destruct (col2_list !! idx) as [val2|] eqn:Hidx.
  2: { apply lookup_ge_None in Hidx. lia. }
  destruct (check_flag_token flags val col2_list idx) as [e'|] eqn:Htok.
  - intros [= <-].
    destruct (check_flag_token_Some _ _ _ _ _ _ Hidx Htok)
      as [?|(? & flag & ?)]; [by left|right].
    split; [done|]. exists 0%nat, val, val2, flag. by rewrite Nat.add_0_r.
  - intros [?|(? & i & v & v2 & flag & Hv & Hv2 & ?)]%IH; [by left| |lia].
    right. split; [done|]. exists (S i), v, v2, flag.
    split; [done|]. split; [|done]. by rewrite Nat.add_succ_r.
Qed.

Lemma flags_agree_sym (flags val val2 : str) :
  flags_agree flags val val2 -> flags_agree flags val2 val.
Proof.
  intros H flag Hin. destruct (H flag Hin) as [He Ht]. split; [done|].
  rewrite <- He. intros Hf. by destruct (Ht Hf).
Qed.

(** X1. The check passes exactly when the two columns have different lengths,
    in which case nothing is compared, or when every pair of tokens at the
    same index agrees on each flag and no flagged pair has a [~]. In
    particular it passes for every input when there are no flags. *)
Theorem check_flag_usage_passes (col1 col2 : list str) (flags : str) :
  (check_flag_usage col1 col2 flags = None <->
   length col1 <> length col2 \/ Forall2 (flags_agree flags) col1 col2)
  /\ check_flag_usage col1 col2 [] = None.
Proof.
  unfold check_flag_usage. split.
  - destruct (length col1 =? length col2)%nat eqn:Hlen.
    + apply Nat.eqb_eq in Hlen.
      rewrite check_flag_loop_None by (simpl; lia). rewrite drop_0.
      split; [by right|]. by intros [?|?].
    + apply Nat.eqb_neq in Hlen. split; [by left | done].
  - destruct (length col1 =? length col2)%nat; [|done].
    clear. generalize 0%nat. induction col1 as [|val col1 IH]; intros idx;
      simpl; [done|]. apply IH.
Qed.

(** X2. The check does not depend on which column comes first: it passes for
    two columns exactly when it passes for them exchanged. *)
Theorem check_flag_usage_reversed (col1 col2 : list str) (flags : str) :
  check_flag_usage col1 col2 flags = None <->
  check_flag_usage col2 col1 flags = None.
Proof.
  assert (forall c1 c2, check_flag_usage c1 c2 flags = None ->
                        check_flag_usage c2 c1 flags = None) as Hhalf.
  { intros c1 c2. unfold check_flag_usage.
    rewrite (Nat.eqb_sym (length c2)).
    destruct (length c1 =? length c2)%nat eqn:Hlen; [|done].
    apply Nat.eqb_eq in Hlen.
    rewrite !check_flag_loop_None by (simpl; lia). rewrite !drop_0.
    intros H. apply Forall2_flip.
    eapply Forall2_impl; [apply H|]. intros v v2. apply flags_agree_sym. }
  split; apply Hhalf.
Qed.

(** X3. The exceptions of the check on two lists of tokens: indexing the second
    column never fails; the [ValueError] is raised only for a pair of tokens
    that both have a flag, with a [~] in the second one and none in the
    first; every other failure, and so every flag that is in one column only,
    is the [TypeError] of building the message. *)
Theorem check_flag_usage_raises (col1 col2 : list str) (flags : str)
    (e : Raised.t) :
  check_flag_usage col1 col2 flags = Some e ->
  length col1 = length col2
  /\ e <> Raised.IndexError
  /\ (e = Raised.ValueError_tilde ->
      exists i val val2 flag,
        col1 !! i = Some val /\ col2 !! i = Some val2 /\ flag ∈ flags /\
        char_in flag val = true /\ char_in flag val2 = true /\
        char_in 126 val = false /\ char_in 126 val2 = true)
  /\ ((forall val2, val2 ∈ col2 -> char_in 126 val2 = false) ->
      e = Raised.TypeError).
Proof.
  unfold check_flag_usage.
  destruct (length col1 =? length col2)%nat eqn:Hlen; [|done].
  apply Nat.eqb_eq in Hlen. intros Hloop.
  apply check_flag_loop_Some in Hloop; [|simpl; lia].
  split; [done|].
  destruct Hloop as [->|(-> & i & v & v2 & flag & Hv & Hv2 & Hrest)].
  - split; [done|]. split; [done|]. done.
  - split; [done|]. split.
    + intros _. by exists i, v, v2, flag.
    + intros Hno. simpl in Hv2.
      destruct Hrest as (_ & _ & _ & _ & Ht).
      rewrite Hno in Ht; [done|]. by eapply list_elem_of_lookup_2.
Qed.


(** ** The reference parser: positions and order *)

Lemma to_def_dict_loop_digits (def_list : list str)
    (d dd : gmap Z def_entry) :
  to_def_dict_loop def_list d = Ok dd ->
  (forall k v, d !! k = Some v -> digit_entry k v) ->
  forall k v, dd !! k = Some v -> digit_entry k v.
Proof.
  revert d. induction def_list as [|val l IH]; intros d; simpl.
  - by intros [= <-].
  - intros (d1 & H1 & H2)%bind_Ok Hd. eapply IH; [done|].
    destruct (to_def_dict_token_shape val) as [Hi|[(k & v & Hkv & Hi)|Hi]].
    + rewrite Hi in H1. by injection H1 as <-.
    + rewrite Hi in H1. case_bool_decide; [done|]. injection H1 as <-.
      intros k' v'. rewrite lookup_insert. case_decide as Heq.
      * subst k'. by intros [= <-].
      * apply Hd.
    + destruct (Hi d) as [e He]. congruence.
Qed.

(** X4. The keys and the targets of the reference mapping are single decimal
    digits, so that a primary token from the tenth on never has an entry:
    the notation cannot refer to it. *)
Theorem to_def_dict_single_digits (def_list : list str)
    (dd : gmap Z def_entry) :
  _to_def_dict def_list = Ok dd ->
  (forall k target text,
     dd !! k = Some (target, text) ->
     (0 <= k <= 9)%Z /\ forall m, target = Some m -> (0 <= m <= 9)%Z)
  /\ (forall idx, (9 <= idx)%nat -> dd !! Z.of_nat (idx + 1) = None).
Proof.
  intros Hdd.
  assert (forall k v, dd !! k = Some v -> digit_entry k v) as Hall.
  { eapply to_def_dict_loop_digits; [apply Hdd|]. intros k v.
    by rewrite lookup_empty. }
  split.
  - intros k target text Hk. apply (Hall k (target, text) Hk).
  - intros idx Hidx. destruct (dd !! Z.of_nat (idx + 1)) as [v|] eqn:Hk; [|done].
    destruct (Hall _ _ Hk) as [Hr _]. lia.
Qed.

Lemma to_def_dict_loop_perm (l l' : list str) :
  l ≡ₚ l' ->
  forall d dd, to_def_dict_loop l d = Ok dd -> to_def_dict_loop l' d = Ok dd.
Proof.
  induction 1 as [|x l l' _ IH|x y l|l l' l'' _ IH1 _ IH2]; intros d dd.
  - done.
  - simpl. intros (d1 & H1 & H2)%bind_Ok. rewrite H1. simpl. by apply IH.
  - simpl. intros (d1 & Hy & (d2 & Hx & Hl)%bind_Ok)%bind_Ok.
    destruct (to_def_dict_token_shape y) as [Iy|[(ky & vy & _ & Iy)|Iy]];
      [| |destruct (Iy d) as [e He]; congruence];
      (destruct (to_def_dict_token_shape x) as [Ix|[(kx & vx & _ & Ix)|Ix]];
        [| |destruct (Ix d1) as [e He]; congruence]).
    + rewrite Iy in Hy. rewrite Ix in Hx. rewrite Ix. simpl. rewrite Iy.
      simpl. congruence.
    + rewrite Iy in Hy. injection Hy as <-. rewrite Hx. simpl. rewrite Iy.
      done.
    + rewrite Ix in Hx. injection Hx as <-. rewrite Ix. simpl. rewrite Hy.
      done.
    + rewrite Iy in Hy. case_bool_decide as Hdy; [done|]. injection Hy as <-.
      rewrite Ix in Hx. case_bool_decide as Hdx; [done|]. injection Hx as <-.
      apply eq_None_not_Some in Hdy, Hdx.
      rewrite lookup_insert in Hdx. case_decide as Hne; [done|].
      rewrite Ix. rewrite bool_decide_eq_false_2
        by (rewrite Hdx; by intros [? ?]).
      simpl. rewrite Iy. rewrite bool_decide_eq_false_2.
      2: { rewrite lookup_insert_ne by done. rewrite Hdy. by intros [? ?]. }
      simpl. by rewrite insert_insert_ne by done.
  - intros H. by apply IH2, IH1.
Qed.

(** X5. The reference mapping does not depend on the order of the notes: when
    parsing a list of notes succeeds, parsing any rearrangement of the list
    gives the same mapping. *)
Theorem to_def_dict_order (l l' : list str) (dd : gmap Z def_entry) :
  l ≡ₚ l' -> _to_def_dict l = Ok dd -> _to_def_dict l' = Ok dd.
Proof. intros Hp. by apply to_def_dict_loop_perm. Qed.


(** ** The dictionary of flagged cards: which cards, and with which fields *)

Lemma isdisjoint_delete_chars (flags val : str) :
  isdisjoint flags (delete_chars flags val) = true.
Proof.
  unfold isdisjoint, delete_chars. induction val as [|c val IH]; simpl; [done|].
  destruct (char_in c flags) eqn:Hc; simpl; [done|]. by rewrite Hc.
Qed.

Lemma delete_chars_disjoint (flags val : str) :
  isdisjoint flags val = true -> delete_chars flags val = val.
Proof.
  unfold isdisjoint, delete_chars. induction val as [|c val IH]; simpl; [done|].
  intros [Hc Hv]%andb_true_iff. rewrite Hc. by rewrite IH.
Qed.

Section SynthesisMore.

Variable str_to_wordlist_key : str -> str.
Variable flags : str.

Abbreviation key := str_to_wordlist_key.

Section TokenMore.

Variable exclude_headwords : gset str.
Variables nl1 part_of_speech nl1_hint tl1_hint : str.
Variables tl1_list tl2_list tl_notes_list : list str.
Variable tl_pronun : str.

Abbreviation token_step :=
  (make_new_cards_token key flags exclude_headwords nl1 part_of_speech
     nl1_hint tl1_hint tl1_list tl2_list tl_notes_list tl_pronun).
Abbreviation dict_val_of :=
  (make_dict_val flags nl1 part_of_speech nl1_hint tl1_hint tl1_list
     tl2_list tl_notes_list tl_pronun).
Abbreviation loop :=
  (make_new_cards_loop key flags exclude_headwords nl1 part_of_speech
     nl1_hint tl1_hint tl1_list tl2_list tl_notes_list tl_pronun).

(** The fields of a record that was built. *)
Lemma dict_val_fields (idx : nat) (val headword : str) (c : Card.t) :
  dict_val_of idx val headword = Ok c ->
  headword <> []
  /\ Card.merge_id c = headword
  /\ Card.nl1 c = nl1
  /\ Card.part_of_speech c = part_of_speech
  /\ Card.tl_pronun c = tl_pronun
  /\ Card.tl1 c = delete_chars flags val
  /\ Card.tl2 c = match tl2_list !! idx with Some t => strip t | None => [] end
  /\ (Card.answer_lang c = u "[" ++ tl1_hint ++ u "]"
      \/ Card.answer_lang c = u "[" ++ nl1_hint ++ u "|" ++ tl1_hint ++ u "]"
      \/ Card.answer_lang c = u "[" ++ nl1_hint ++ u "]").
Proof.
  unfold make_dict_val.
  intros (dd & _ & (da & Hda & H)%bind_Ok)%bind_Ok.
  destruct (truthy headword) eqn:Ht; simpl in H; [|done].
  injection H as <-. apply truthy_true in Ht. simpl.
  repeat (split; [done|]).
  unfold resolve_definition in Hda.
  destruct (dd !! Z.of_nat (idx + 1)) as [[target text]|].
  - destruct (target_truthy target).
    + apply bind_Ok in Hda as (tok & _ & [= <-]). by left.
    + injection Hda as <-. right; by left.
  - destruct (_ || _); [done|]. injection Hda as <-. right; by right.
Qed.

(** Every record of the dictionary after the loop was there before, or was
    built for a flagged token of the loop. *)
Lemma loop_provenance (idx : nat) (vals : list str) (d d' : dict Card.t)
    (h : str) (c : Card.t) :
  loop idx vals d = Ok d' -> dict_get d' h = Some c ->
  dict_get d h = Some c
  \/ exists i val,
       vals !! i = Some val /\ isdisjoint flags (strip val) = false /\
       key (strip val) = h /\ (h ∉ exclude_headwords) /\
       dict_val_of (idx + i) (strip val) h = Ok c.
Proof.
  revert idx d. induction vals as [|val vals IH]; intros idx d; simpl.
  - intros [= <-]. by left.
  - intros (d1 & H1 & H2)%bind_Ok Hh.
    destruct (IH _ _ H2 Hh) as [Hd1|(i & v & Hv & Hrest)].
    + apply token_step_Ok in H1 as [->|(c0 & -> & Hnew & Hx & Hf & Hc)];
        [by left|].
      rewrite dict_get_app in Hd1.
      destruct (dict_get d h) as [c'|] eqn:Hdh; [left; congruence|].
      simpl in Hd1. case_bool_decide as Hk; [|done]. injection Hd1 as <-.
      right. exists 0%nat, val. rewrite Nat.add_0_r. subst h. done.
    + right. exists (S i), v. split; [done|].
      by rewrite Nat.add_succ_r.
Qed.

(** Every flagged token of the loop that is not excluded has a record in
    the dictionary after the loop. *)
Lemma loop_complete (idx : nat) (vals : list str) (d d' : dict Card.t)
    (val : str) :
  loop idx vals d = Ok d' -> val ∈ vals ->
  isdisjoint flags (strip val) = false ->
  key (strip val) ∉ exclude_headwords ->
  is_Some (dict_get d' (key (strip val))).
Proof.
  revert idx d. induction vals as [|v vals IH]; intros idx d; simpl.
  - intros _ Hin. by apply elem_of_nil in Hin.
  - intros (d1 & H1 & H2)%bind_Ok [<-|Hin]%elem_of_cons Hf Hx;
      [|by eapply IH].
    rewrite token_flagged in H1 by done.
    apply bind_Ok in H1 as (c & Hc & Hd1).
    assert (is_Some (dict_get d1 (key (strip val)))) as [c1 Hc1].
    { destruct (dict_in (key (strip val)) d) eqn:Hin.
      - injection Hd1 as <-. by apply dict_in_true.
      - injection Hd1 as <-. apply dict_in_false in Hin.
        rewrite dict_get_app, Hin. simpl.
        rewrite bool_decide_eq_true_2 by done. by eexists. }
    exists c1. by eapply loop_preserves.
Qed.

(** A token that fails every step makes the loop fail. *)
Lemma loop_fails (idx : nat) (vals : list str) (d : dict Card.t) (val : str) :
  val ∈ vals ->
  (forall d1 i, exists e, token_step d1 i val = Err e) ->
  exists e, loop idx vals d = Err e.
Proof.
  intros Hin Hval. revert idx d.
  induction vals as [|v vals IH]; intros idx d; simpl.
  - by apply elem_of_nil in Hin.
  - apply elem_of_cons in Hin as [->|Hin].
    + destruct (Hval d idx) as [e ->]. by exists e.
    + destruct (token_step d idx v) as [d1|e]; simpl; [by apply IH|].
      by exists e.
Qed.

(** A flagged token with an empty headword that is not excluded fails. *)
Lemma token_empty_headword (d : dict Card.t) (idx : nat) (val : str) :
  isdisjoint flags (strip val) = false -> key (strip val) = [] ->
  [] ∉ exclude_headwords ->
  exists e, token_step d idx val = Err e.
Proof.
  intros Hf Hk Hx. rewrite token_flagged by (by rewrite ?Hk).
  rewrite Hk. unfold make_dict_val.
  destruct (_to_def_dict tl_notes_list) as [dd|e]; simpl; [|by exists e].
  destruct (resolve_definition _ _ _ _ dd idx) as [da|e]; simpl;
    [|by exists e].
  by exists EmptyHeadword.
Qed.

End TokenMore.


Section BatchMore.

Variable exclude_headwords : gset str.
Variables nl_abbr tl_abbr : str.

Abbreviation batch :=
  (flagged_dict_loop key flags exclude_headwords nl_abbr tl_abbr).
Abbreviation cards_of row :=
  (_make_new_cards key flags exclude_headwords
     (Note.nl1 row) (Note.part_of_speech row) nl_abbr tl_abbr
     (Note.tl1_list row) (Note.tl2_list row) (Note.tl_notes_list row)
     (Note.tl_pronun row)).
Abbreviation dict_val_row row :=
  (make_dict_val flags (Note.nl1 row) (Note.part_of_speech row) nl_abbr tl_abbr
     (Note.tl1_list row) (Note.tl2_list row) (Note.tl_notes_list row)
     (Note.tl_pronun row)).

Lemma batch_provenance (df : list Note.t) (d d' : dict Card.t) (h : str)
    (c : Card.t) :
  batch df d = Ok d' -> dict_get d' h = Some c ->
  dict_get d h = Some c
  \/ exists row idx val,
       row ∈ df /\ Note.tl1_list row !! idx = Some val /\
       isdisjoint flags (strip val) = false /\ key (strip val) = h /\
       (h ∉ exclude_headwords) /\
       dict_val_row row idx (strip val) h = Ok c.
Proof.
  revert d. induction df as [|row df IH]; intros d; simpl.
  - intros [= <-]. by left.
  - intros (d1 & H1 & H2)%bind_Ok Hh.
    destruct (IH _ H2 Hh) as [Hd1|(r & i & v & Hr & Hrest)].
    + destruct (loop_provenance _ _ _ _ _ _ _ _ _ _ _ _ _ _ _ H1 Hd1)
        as [?|(i & v & Hv & Hrest)]; [by left|].
      right. exists row, i, v. split; [apply list_elem_of_here | done].
    + right. exists r, i, v. split; [by apply list_elem_of_further | done].
Qed.

Lemma batch_complete (df : list Note.t) (d d' : dict Card.t) (row : Note.t)
    (val : str) :
  batch df d = Ok d' -> row ∈ df -> val ∈ Note.tl1_list row ->
  isdisjoint flags (strip val) = false ->
  key (strip val) ∉ exclude_headwords ->
  is_Some (dict_get d' (key (strip val))).
Proof.
  revert d. induction df as [|r df IH]; intros d; simpl.
  - intros _ Hin. by apply elem_of_nil in Hin.
  - intros (d1 & H1 & H2)%bind_Ok [<-|Hin]%elem_of_cons Hv Hf Hx;
      [|by eapply IH].
    destruct (loop_complete _ _ _ _ _ _ _ _ _ _ _ _ _ _ H1 Hv Hf Hx)
      as [c Hc].
    exists c. by eapply batch_preserves.
Qed.

Lemma batch_fails (df : list Note.t) (d : dict Card.t) (row : Note.t) :
  row ∈ df -> (forall d1, exists e, cards_of row d1 = Err e) ->
  exists e, batch df d = Err e.
Proof.
  intros Hin Hrow. revert d. induction df as [|r df IH]; intros d; simpl.
  - by apply elem_of_nil in Hin.
  - apply elem_of_cons in Hin as [<-|Hin].
    + destruct (Hrow d) as [e ->]. by exists e.
    + destruct (cards_of r d) as [d1|e]; simpl; [by apply IH | by exists e].
Qed.

End BatchMore.

(** X6. When the synthesis succeeds, the dictionary has a card for exactly the
    headwords of the flagged tokens that are not mastered: no such token is
    left without a card, and no card is made for anything else. *)
Theorem flagged_dict_headwords (df : list Note.t) (nl_abbr tl_abbr : str)
    (d : dict Card.t) :
  flagged_dict key flags nl_abbr tl_abbr df = Ok d ->
  forall h,
    h ∈ dict_keys d <->
    (h ∉ not_flagged_set key flags df ∅)
    /\ exists row val, row ∈ df /\ val ∈ Note.tl1_list row /\
         isdisjoint flags (strip val) = false /\ key (strip val) = h.
Proof.
  intros Hd h. split.
  - intros Hin.
    destruct (dict_get d h) as [c|] eqn:Hc.
    2: { by apply dict_get_None_keys in Hc. }
    destruct (batch_provenance _ _ _ _ _ _ _ _ Hd Hc)
      as [?|(row & idx & val & Hrow & Hval & Hf & Hk & Hx & _)]; [done|].
    split; [done|]. exists row, val. split; [done|].
    split; [by eapply list_elem_of_lookup_2 | done].
  - intros (Hx & row & val & Hrow & Hval & Hf & <-).
    destruct (batch_complete _ _ _ _ _ _ _ _ Hd Hrow Hval Hf Hx) as [c Hc].
    by eapply dict_get_Some_keys.
Qed.

(** X7. The fields of every card of the dictionary: its key is a non-empty
    headword that is not mastered and is its [merge_id]; it was built for a
    flagged token of some row, whose gloss, part of speech and pronunciation
    it carries; its [tl1] is the trimmed token without the flag characters
    and has none of them; its [tl2] is the trimmed secondary token at the
    same index, or empty when there is none; and its source tag is one of
    the three markers. *)
Theorem flagged_dict_cards (df : list Note.t) (nl_abbr tl_abbr : str)
    (d : dict Card.t) (h : str) (c : Card.t) :
  flagged_dict key flags nl_abbr tl_abbr df = Ok d ->
  dict_get d h = Some c ->
  h <> []
  /\ (h ∉ not_flagged_set key flags df ∅)
  /\ Card.merge_id c = h
  /\ isdisjoint flags (Card.tl1 c) = true
  /\ (Card.answer_lang c = u "[" ++ tl_abbr ++ u "]"
      \/ Card.answer_lang c = u "[" ++ nl_abbr ++ u "|" ++ tl_abbr ++ u "]"
      \/ Card.answer_lang c = u "[" ++ nl_abbr ++ u "]")
  /\ exists row idx val,
       row ∈ df /\ Note.tl1_list row !! idx = Some val /\
       isdisjoint flags (strip val) = false /\ key (strip val) = h /\
       Card.nl1 c = Note.nl1 row /\
       Card.part_of_speech c = Note.part_of_speech row /\
       Card.tl_pronun c = Note.tl_pronun row /\
       Card.tl1 c = delete_chars flags (strip val) /\
       Card.tl2 c = match Note.tl2_list row !! idx with
                    | Some t => strip t
                    | None => []
                    end.
Proof.
  intros Hd Hc.
  destruct (batch_provenance _ _ _ _ _ _ _ _ Hd Hc)
    as [?|(row & idx & val & Hrow & Hval & Hf & Hk & Hx & Hdv)]; [done|].
  apply dict_val_fields in Hdv
    as (Hne & Hid & Hnl & Hpos & Hpron & Htl1 & Htl2 & Hlang).
  split; [done|]. split; [done|]. split; [done|].
  split; [rewrite Htl1; apply isdisjoint_delete_chars|].
  split; [done|]. by exists row, idx, val.
Qed.

(** X8. A flagged token whose headword is empty is never passed over and never
    stored: a row that has one makes the synthesis fail, whatever the other
    tokens and rows are. *)
Theorem empty_headword_fails (df : list Note.t) (nl_abbr tl_abbr : str)
    (row : Note.t) (val : str) :
  row ∈ df -> val ∈ Note.tl1_list row ->
  isdisjoint flags (strip val) = false -> key (strip val) = [] ->
  exists e, flagged_dict key flags nl_abbr tl_abbr df = Err e.
Proof.
  intros Hrow Hval Hf Hk. unfold flagged_dict.
  assert ([] ∉ not_flagged_set key flags df ∅) as Hx.
  { rewrite not_flagged_set_spec.
    intros [Hin|(r & v & _ & _ & _ & _ & Hne)]; [|done].
    by apply not_elem_of_empty in Hin. }
  eapply batch_fails; [done|]. intros d1. unfold _make_new_cards.
  eapply loop_fails; [done|]. intros d2 i.
  by apply token_empty_headword.
Qed.

End SynthesisMore.


(** ** Trimming *)

Lemma lstrip_idem (s : str) : lstrip (lstrip s) = lstrip s.
Proof.
  induction s as [|c s IH]; simpl; [done|].
  destruct (isspace c) eqn:Hc; [done|]. simpl. by rewrite Hc.
Qed.

Lemma lstrip_snoc (l : str) (c : char) :
  isspace c = false -> lstrip (l ++ [c]) = lstrip l ++ [c].
Proof.
  intros Hc. induction l as [|x l IH]; simpl; [by rewrite Hc|].
  by destruct (isspace x).
Qed.

Lemma rstrip_cons (c : char) (t : str) :
  isspace c = false -> rstrip (c :: t) = c :: rstrip t.
Proof.
  intros Hc. unfold rstrip. simpl.
  by rewrite lstrip_snoc, rev_app_distr.
Qed.

Lemma rstrip_idem (s : str) : rstrip (rstrip s) = rstrip s.
Proof. unfold rstrip. by rewrite rev_involutive, lstrip_idem. Qed.

Lemma lstrip_head (s : str) :
  lstrip s = [] \/ exists c t, lstrip s = c :: t /\ isspace c = false.
Proof.
  induction s as [|c s IH]; simpl; [by left|].
  destruct (isspace c) eqn:Hc; [done|]. right. by exists c, s.
Qed.

Lemma strip_idem (s : str) : strip (strip s) = strip s.
Proof.
  unfold strip. destruct (lstrip_head s) as [-> | (c & t & -> & Hc)]; [done|].
  rewrite (rstrip_cons _ _ Hc). simpl. rewrite Hc.
  by rewrite (rstrip_cons _ _ Hc), rstrip_idem.
Qed.

Lemma getitem_map {A B} (f : A -> B) (l : list A) (i : Z) :
  getitem (map f l) i = (x <- getitem l i ;; Ok (f x)).
Proof.
  unfold getitem. rewrite length_map.
  destruct (_ <? 0)%Z; [done|].
  change (map f l) with (f <$> l). rewrite list_lookup_fmap.
  by destruct (l !! _).
Qed.

Lemma to_def_dict_token_strip (d : gmap Z def_entry) (val : str) :
  to_def_dict_token d (strip val) = to_def_dict_token d val.
Proof. unfold to_def_dict_token. by rewrite strip_idem. Qed.

Section Trimmed.

Variable str_to_wordlist_key : str -> str.
Variable flags : str.
Variable exclude_headwords : gset str.
Variables nl1 part_of_speech nl1_hint tl1_hint : str.
Variables tl1_list tl2_list tl_notes_list : list str.
Variable tl_pronun : str.

Lemma resolve_definition_trimmed (dd : gmap Z def_entry) (idx : nat) :
  resolve_definition nl1_hint tl1_hint (map strip tl1_list) tl_notes_list dd idx
  = resolve_definition nl1_hint tl1_hint tl1_list tl_notes_list dd idx.
Proof.
  unfold resolve_definition.
  destruct (dd !! Z.of_nat (idx + 1)) as [[target text]|]; [|done].
  destruct (target_truthy target); [|done].
  rewrite getitem_map. destruct (getitem tl1_list _); simpl; [|done].
  by rewrite strip_idem.
Qed.

Lemma dict_val_trimmed (idx : nat) (val headword : str) :
  make_dict_val flags nl1 part_of_speech nl1_hint tl1_hint
    (map strip tl1_list) (map strip tl2_list) tl_notes_list tl_pronun
    idx val headword
  = make_dict_val flags nl1 part_of_speech nl1_hint tl1_hint tl1_list
      tl2_list tl_notes_list tl_pronun idx val headword.
Proof.
  unfold make_dict_val.
  destruct (_to_def_dict tl_notes_list) as [dd|e]; simpl; [|done].
  rewrite resolve_definition_trimmed.
  change (map strip tl2_list) with (strip <$> tl2_list).
  rewrite list_lookup_fmap.
  destruct (tl2_list !! idx); simpl; [|done]. by rewrite strip_idem.
Qed.

Lemma loop_trimmed (idx : nat) (vals : list str) (d : dict Card.t) :
  make_new_cards_loop str_to_wordlist_key flags exclude_headwords nl1
    part_of_speech nl1_hint tl1_hint (map strip tl1_list)
    (map strip tl2_list) tl_notes_list tl_pronun idx (map strip vals) d
  = make_new_cards_loop str_to_wordlist_key flags exclude_headwords nl1
      part_of_speech nl1_hint tl1_hint tl1_list tl2_list tl_notes_list
      tl_pronun idx vals d.
Proof.
  revert idx d. induction vals as [|val vals IH]; intros idx d; simpl; [done|].
  unfold make_new_cards_token. rewrite strip_idem, dict_val_trimmed.
  destruct (negb (isdisjoint flags (strip val))); simpl; [|apply IH].
  case_bool_decide; simpl; [apply IH|].
  destruct (make_dict_val _ _ _ _ _ _ _ _ _ _ _ _); simpl; [|done].
  destruct (dict_in _ d); simpl; apply IH.
Qed.

(** X9. White space around the tokens does not matter: the call for a row gives
    the same result, dictionary or error, when every primary and secondary
    token has been trimmed beforehand. *)
Theorem make_new_cards_trimmed (d : dict Card.t) :
  _make_new_cards str_to_wordlist_key flags exclude_headwords nl1
    part_of_speech nl1_hint tl1_hint (map strip tl1_list)
    (map strip tl2_list) tl_notes_list tl_pronun d
  = _make_new_cards str_to_wordlist_key flags exclude_headwords nl1
      part_of_speech nl1_hint tl1_hint tl1_list tl2_list tl_notes_list
      tl_pronun d.
Proof. unfold _make_new_cards. apply loop_trimmed. Qed.

End Trimmed.


(** ** The processed override frame *)

Lemma map_zip3 {A B C D} (g : A * B * C -> D) (g' : A -> D)
    (l1 : list A) (l2 : list B) (l3 : list C) :
  length l2 = length l1 -> length l3 = length l1 ->
  (forall a b c, g (a, b, c) = g' a) ->
  map g (zip3 l1 l2 l3) = map g' l1.
Proof.
  intros H2 H3 Hg. revert l2 l3 H2 H3.
  induction l1 as [|a l1 IH]; intros [|b l2] [|c l3] H2 H3; simpl in *;
    try done.
  rewrite Hg. f_equal. apply IH; lia.
Qed.

Section OverrideMore.

Variable F : Flawful.
Variable str_to_wordlist_key : str -> str.

(** The headword of an override row: of [tl_headword] when it is not empty,
    else of [tl1] (lines 287-289). *)
Lemma override_row_fields (nl_abbr tl_abbr : str) (str_to_chapter : str -> Z)
    (r : Override.t) (lists : list str * list str) (x : Tagged.t) :
  let row := override_row F str_to_wordlist_key nl_abbr tl_abbr
               str_to_chapter r lists x in
  Df2.id row = Override.id r
  /\ Df2.pronun row = Override.pronun r
  /\ Df2.notes row = Override.notes r
  /\ Df2.merge_id row
     = str_to_wordlist_key (if truthy (Override.tl_headword r)
                            then Override.tl_headword r else Override.tl1 r)
  /\ Df2.o_audio row = Tagged.audio_output x
  /\ Df2.o_chapter row = Tagged.chapter x.
Proof.
  unfold override_row. destruct lists as [l1 l2].
  by destruct (make_hint_target_and_answer F _ _ _ _ _ _) as [[hint t] a].
Qed.

(** A column of the frame that the preprocessing returns, when it is a
    function of the override row alone, is that function of the rows of the
    override frame, in their order. *)
Lemma process_override_map (df : Override.frame) (trk trk' : trackers F)
    (str_to_chapter : str -> Z) (braces_html_class : option str)
    (nl_abbr tl_abbr htag_prefix : str) (df2 : list Df2.t) :
  _process_tl_override_df F str_to_wordlist_key df trk str_to_chapter
    braces_html_class nl_abbr tl_abbr htag_prefix = Ok (trk', df2) ->
  Override.has_tl3_prompts_list df = false
  /\ Override.has_tl3_list df = false
  /\ forall (T : Type) (f : Df2.t -> T) (f' : Override.t -> T),
       (forall r l x,
          f (override_row F str_to_wordlist_key nl_abbr tl_abbr
               str_to_chapter r l x) = f' r) ->
       map f df2 = map f' (Override.rows df).
Proof.
  unfold _process_tl_override_df. intros (lists & Hl & Hrest)%bind_Ok.
  assert (Override.has_tl3_prompts_list df = false
          /\ Override.has_tl3_list df = false
          /\ length lists = length (Override.rows df)) as (Hp & Hq & Hlen).
  { unfold tl3_lists in Hl.
    destruct (Override.has_tl3_prompts_list df), (Override.has_tl3_list df);
      simpl in Hl; try done.
    injection Hl as <-. by rewrite length_map. }
  split; [done|]. split; [done|].
  pose proof (tag_rows_length F trk htag_prefix
                (map (fun r => (fst (init_chapter F (Override.chaplist r)
                                       str_to_chapter), Override.tl1 r))
                     (Override.rows df))) as Hres.
  destruct (tag_rows F trk htag_prefix _) as [trk1 res_tl1].
  simpl in Hres. rewrite length_map in Hres.
  injection Hrest as <- <-.
  assert (length (map (fun pl : list str * list str =>
                         (braces_to_class_list F braces_html_class (fst pl),
                          braces_to_class_list F braces_html_class (snd pl)))
                      lists) = length (Override.rows df)) as Hlen'.
  { by rewrite length_map. }
  intros T f f' Hf. rewrite map_map.
  apply map_zip3; [done|done|]. intros r l x. apply Hf.
Qed.

(** X10. The frame that the preprocessing returns has one row for each row of
    the override frame, in the same order, with the same [id], [pronun] and
    [notes] and with the headword of [tl_headword], or of [tl1] when that is
    empty, as [merge_id]; and it is returned only for a frame that has
    neither of the two prebuilt list columns. *)
Theorem process_override_rows (df : Override.frame) (trk trk' : trackers F)
    (str_to_chapter : str -> Z) (braces_html_class : option str)
    (nl_abbr tl_abbr htag_prefix : str) (df2 : list Df2.t) :
  _process_tl_override_df F str_to_wordlist_key df trk str_to_chapter
    braces_html_class nl_abbr tl_abbr htag_prefix = Ok (trk', df2) ->
  Override.has_tl3_prompts_list df = false
  /\ Override.has_tl3_list df = false
  /\ length df2 = length (Override.rows df)
  /\ map Df2.id df2 = map Override.id (Override.rows df)
  /\ map Df2.pronun df2 = map Override.pronun (Override.rows df)
  /\ map Df2.notes df2 = map Override.notes (Override.rows df)
  /\ map Df2.merge_id df2
     = map (fun r => str_to_wordlist_key
                       (if truthy (Override.tl_headword r)
                        then Override.tl_headword r else Override.tl1 r))
           (Override.rows df).
Proof.
  intros (Hp & Hq & Hmap)%process_override_map.
  split; [done|]. split; [done|]. split.
  { rewrite <- (length_map Df2.id df2),
      (Hmap _ Df2.id Override.id), length_map; [done|].
    intros r l x. apply override_row_fields. }
  repeat split; apply Hmap; intros r l x; apply override_row_fields.
Qed.

End OverrideMore.

(** ** The merged frame *)

Lemma NoDup_map_inj {A B} (f : A -> B) (l : list A) (x y : A) :
  NoDup (map f l) -> x ∈ l -> y ∈ l -> f x = f y -> x = y.
Proof.
  induction l as [|a l IH]; simpl; intros Hnd Hx Hy Hf.
  - by apply elem_of_nil in Hx.
  - apply NoDup_cons in Hnd as [Hna Hnd].
    apply elem_of_cons in Hx as [->|Hx];
      apply elem_of_cons in Hy as [->|Hy]; try done.
    + exfalso. apply Hna. rewrite Hf. by apply elem_of_map_2.
    + exfalso. apply Hna. rewrite <- Hf. by apply elem_of_map_2.
    + by apply IH.
Qed.

Lemma NoDup_of_map {A B} (f : A -> B) (l : list A) :
  NoDup (map f l) -> NoDup l.
Proof. apply (NoDup_fmap_1 f). Qed.

(** The merged frame has no row twice when the left frame has no headword
    twice and the right frame no row twice. *)
Lemma merge_outer_rows_NoDup (tl1_df : list Flagged.t) (df2 : list Df2.t) :
  NoDup (map Flagged.merge_id tl1_df) -> NoDup df2 ->
  NoDup (Frame.merge_outer tl1_df df2).
Proof.
  intros Hl Hr. unfold Frame.merge_outer.
  rewrite FrameFacts.sort_by_key_perm. apply NoDup_app. split; [|split].
  - change (NoDup (tl1_df ≫= (fun l => Frame.left_rows l df2))).
    apply NoDup_bind.
    + intros l1 l2 y _ _ H1 H2.
      apply FrameFacts.elem_of_left_rows in H1, H2.
      unfold Frame.row_both, Frame.row_left_only in *.
      destruct H1 as [(r & _ & _ & ->)|[_ ->]],
               H2 as [(r' & _ & _ & E)|[_ E]]; congruence.
    + intros l _. unfold Frame.left_rows.
      destruct (Frame.matches l df2) as [|r rs] eqn:E;
        [apply NoDup_singleton|]. rewrite <- E.
      apply (NoDup_fmap_2_strong (Frame.row_both l)).
      * unfold Frame.row_both. intros; congruence.
      * by apply NoDup_filter.
    + by apply (NoDup_of_map Flagged.merge_id).
  - intros x Hx (r & Hxr & _)%elem_of_map_1.
    change (x ∈ tl1_df ≫= (fun l => Frame.left_rows l df2)) in Hx.
    apply list_elem_of_bind in Hx as (l & Hx & _).
    apply FrameFacts.elem_of_left_rows in Hx.
    unfold Frame.row_both, Frame.row_left_only, Frame.row_right_only in *.
    destruct Hx as [(r' & _ & _ & E)|[_ E]]; congruence.
  - apply (NoDup_fmap_2_strong Frame.row_right_only).
    + unfold Frame.row_right_only. intros; congruence.
    + by apply NoDup_filter.
Qed.

Section MergeMore.

Variable flag_id_prefix : str.
Variable tl1_df : list Flagged.t.
Variable df2 : list Df2.t.

(** The note ids of the merged frame are distinct, when the flagged frame
    has no headword twice, the override rows have distinct ids, and no id of
    an override row is the prefix followed by a flagged headword. Two
    override rows of one headword keep their two ids. *)
Lemma merge_note_ids_distinct :
  NoDup (map Flagged.merge_id tl1_df) ->
  NoDup (map Df2.id df2) ->
  (forall l r, l ∈ tl1_df -> r ∈ df2 ->
     Df2.id r <> flag_id_prefix ++ Flagged.merge_id l) ->
  NoDup (map Wide.note_id (merge_override flag_id_prefix tl1_df df2))
  /\ Forall (fun w => is_Some (Wide.note_id w))
            (merge_override flag_id_prefix tl1_df df2).
Proof.
  intros Hl Hr Hclash.
  assert (forall r r', r ∈ df2 -> r' ∈ df2 -> Df2.id r = Df2.id r' -> r = r')
    as Hid by (intros r r'; by apply NoDup_map_inj).
  assert (forall l l', l ∈ tl1_df -> l' ∈ tl1_df ->
            Flagged.merge_id l = Flagged.merge_id l' -> l = l')
    as Hhw by (intros l l'; by apply NoDup_map_inj).
  split.
  - unfold merge_override. rewrite map_map.
    apply (NoDup_fmap_2_strong
             (fun row => Wide.note_id (assign_columns flag_id_prefix row)));
      [|apply merge_outer_rows_NoDup; [done|by apply (NoDup_of_map Df2.id)]].
    intros x y Hx Hy.
    apply FrameFacts.elem_of_merge_outer in Hx, Hy.
    destruct Hx as [(l & r & Hl1 & Hr1 & Hm1 & ->)
                   |[(l & Hl1 & Hn1 & ->)|(r & Hr1 & Hn1 & ->)]];
      destruct Hy as [(l' & r' & Hl2 & Hr2 & Hm2 & ->)
                     |[(l' & Hl2 & Hn2 & ->)|(r' & Hr2 & Hn2 & ->)]];
      cbn; intros E; injection E as E.
    + assert (r = r') as <- by by apply Hid.
      assert (l = l') as <- by (apply Hhw; [done|done|congruence]). done.
    + by destruct (Hclash l' r).
    + assert (r = r') as <- by by apply Hid.
      by destruct (Hn2 l).
    + symmetry in E. by destruct (Hclash l r').
    + apply app_inv_head in E.
      assert (l = l') as <- by by apply Hhw. done.
    + symmetry in E. by destruct (Hclash l r').
    + assert (r = r') as <- by by apply Hid.
      by destruct (Hn1 l').
    + by destruct (Hclash l' r).
    + assert (r = r') as <- by by apply Hid. done.
  - apply Forall_forall. intros w Hw.
    apply elem_of_merge_override in Hw.
    destruct Hw as [(l & r & _ & _ & _ & ->)
                   |[(l & _ & _ & ->)|(r & _ & _ & ->)]]; by eexists.
Qed.

End MergeMore.

Lemma left_rows_length (l : Flagged.t) (df2 : list Df2.t) :
  (1 <= length (Frame.left_rows l df2))%nat.
Proof.
  unfold Frame.left_rows. destruct (Frame.matches l df2); simpl; lia.
Qed.

(** Every row of the left frame has a row in the merged frame. *)
Lemma merge_outer_length (tl1_df : list Flagged.t) (df2 : list Df2.t) :
  (length tl1_df <= length (Frame.merge_outer tl1_df df2))%nat.
Proof.
  unfold Frame.merge_outer.
  rewrite (Permutation_length (FrameFacts.sort_by_key_perm _)), length_app.
  assert (length tl1_df
          <= length (flat_map (fun l => Frame.left_rows l df2) tl1_df))%nat;
    [|lia].
  induction tl1_df as [|l tl1_df IH]; simpl; [lia|].
  rewrite length_app. pose proof (left_rows_length l df2). lia.
Qed.

(** ** The frame returned *)

Section OutputMore.

Variable F : Flawful.
Variable str_to_wordlist_key : str -> str.
Variable flags : str.

(** The steps of a call that returns a frame. *)
Lemma create_Ok_inv (df : list Note.t) (trk trk' : trackers F)
    (tl_override_df : option Override.frame) (str_to_chapter : str -> Z)
    (braces_html_class : option str)
    (nl_abbr tl_abbr htag_prefix flag_id_prefix : str) (out : list Out.t) :
  create_tl_additional_output F str_to_wordlist_key flags df trk
    tl_override_df str_to_chapter braces_html_class nl_abbr tl_abbr
    htag_prefix flag_id_prefix = Ok (trk', out) ->
  exists odf d trk1 tl1_df df2,
    tl_override_df = Some odf
    /\ flagged_dict str_to_wordlist_key flags nl_abbr tl_abbr df = Ok d
    /\ d <> []
    /\ flagged_frame F trk htag_prefix d = (trk1, tl1_df)
    /\ _process_tl_override_df F str_to_wordlist_key odf trk1 str_to_chapter
         braces_html_class nl_abbr tl_abbr htag_prefix = Ok (trk', df2)
    /\ out = map select_output (merge_override flag_id_prefix tl1_df df2).
Proof.
  unfold create_tl_additional_output.
  intros ([trk2 rows] & Ha & Hout)%bind_Ok. injection Hout as -> <-.
  unfold additional_frame in Ha. apply bind_Ok in Ha as (d & Hd & Ha).
  destruct d as [|kv d]; [done|].
  destruct (flagged_frame F trk htag_prefix (kv :: d))
    as [trk1 tl1_df] eqn:Hff.
  destruct tl_override_df as [odf|]; [|done].
  apply bind_Ok in Ha as ([trk3 df2] & Hp & Ha). injection Ha as -> <-.
  exists odf, (kv :: d), trk1, tl1_df, df2. by repeat split.
Qed.

(** X11. A frame is returned only when an override frame is given, that
    frame has neither prebuilt list column and the synthesis made at least
    one flagged card; the frame returned then has at least one row for each
    flagged card. With the default [tl_override_df=None], or when no token
    is flagged, the call raises. *)
Theorem output_frame_returned (df : list Note.t) (trk trk' : trackers F)
    (tl_override_df : option Override.frame) (str_to_chapter : str -> Z)
    (braces_html_class : option str)
    (nl_abbr tl_abbr htag_prefix flag_id_prefix : str) (out : list Out.t) :
  create_tl_additional_output F str_to_wordlist_key flags df trk
    tl_override_df str_to_chapter braces_html_class nl_abbr tl_abbr
    htag_prefix flag_id_prefix = Ok (trk', out) ->
  exists odf d,
    tl_override_df = Some odf
    /\ Override.has_tl3_prompts_list odf = false
    /\ Override.has_tl3_list odf = false
    /\ flagged_dict str_to_wordlist_key flags nl_abbr tl_abbr df = Ok d
    /\ d <> []
    /\ (length d <= length out)%nat.
Proof.
  intros (odf & d & trk1 & tl1_df & df2 & -> & Hd & Hne & Hff & Hp & ->)
    %create_Ok_inv.
  apply process_override_map in Hp as (Hp1 & Hp2 & _).
  exists odf, d. repeat (split; [done|]).
  rewrite length_map. unfold merge_override. rewrite length_map.
  etrans; [|apply merge_outer_length].
  rewrite <- (length_map snd d), <- (flagged_frame_cards F trk htag_prefix d),
    Hff, length_map. done.
Qed.

(** X12. Every row of the frame returned is of one of two kinds. A row
    marked [has_table] carries the [id] (as [note_id]), [pronun] and [notes]
    of a row of the override frame and has the two table columns. A row
    marked [no_table] carries the columns of a flagged card, has the prefix
    followed by the headword of the card as [note_id], and its override
    columns are missing. Every row has [tl_audio], [chapter] and [Tags]. *)
Theorem output_rows_marked (df : list Note.t) (trk trk' : trackers F)
    (odf : Override.frame) (str_to_chapter : str -> Z)
    (braces_html_class : option str)
    (nl_abbr tl_abbr htag_prefix flag_id_prefix : str) (out : list Out.t)
    (d : dict Card.t) :
  create_tl_additional_output F str_to_wordlist_key flags df trk
    (Some odf) str_to_chapter braces_html_class nl_abbr tl_abbr
    htag_prefix flag_id_prefix = Ok (trk', out) ->
  flagged_dict str_to_wordlist_key flags nl_abbr tl_abbr df = Ok d ->
  Forall (fun o =>
    is_Some (Out.tl_audio o) /\ is_Some (Out.chapter o)
    /\ is_Some (Out.Tags o)
    /\ ((Out.has_table o = u "has_table" /\ Out.no_table o = []
         /\ is_Some (Out.tl_table_answer o)
         /\ is_Some (Out.tl_table_prompt o)
         /\ exists r, r ∈ Override.rows odf
              /\ Out.note_id o = Some (Override.id r)
              /\ Out.pronun o = Some (Override.pronun r)
              /\ Out.notes o = Some (Override.notes r))
        \/ (Out.has_table o = [] /\ Out.no_table o = u "Y"
            /\ Out.tl_table_answer o = None
            /\ Out.tl_table_prompt o = None
            /\ Out.pronun o = None /\ Out.notes o = None
            /\ exists c, c ∈ map snd d
                 /\ Out.note_id o = Some (flag_id_prefix ++ Card.merge_id c)
                 /\ Out.nl1 o = Some (Card.nl1 c)
                 /\ Out.part_of_speech o = Some (Card.part_of_speech c)
                 /\ Out.tl_defs o = Some (Card.tl_defs c)
                 /\ Out.answer_lang o = Some (Card.answer_lang c)
                 /\ Out.tl1 o = Some (Card.tl1 c)
                 /\ Out.tl2 o = Some (Card.tl2 c)
                 /\ Out.tl_pronun o = Some (Card.tl_pronun c)))) out.
Proof.
  intros (odf' & d' & trk1 & tl1_df & df2 & Ho & Hd' & _ & Hff & Hp & ->)
    %create_Ok_inv Hd.
  injection Ho as <-. rewrite Hd in Hd'. injection Hd' as <-.
  apply process_override_map in Hp as (_ & _ & Hmap).
  assert (forall r, r ∈ df2 ->
            exists r0, r0 ∈ Override.rows odf
              /\ Some (Df2.id r) = Some (Override.id r0)
              /\ Some (Df2.pronun r) = Some (Override.pronun r0)
              /\ Some (Df2.notes r) = Some (Override.notes r0)) as Hrow.
  { intros r Hr.
    apply (elem_of_map_2 (fun r => (Df2.id r, Df2.pronun r, Df2.notes r)))
      in Hr.
    rewrite (Hmap _ _ (fun r => (Override.id r, Override.pronun r,
                                 Override.notes r))) in Hr.
    - apply elem_of_map_1 in Hr as (r0 & E & Hr0). exists r0.
      injection E as -> -> ->. done.
    - intros r1 l x.
      pose proof (override_row_fields F str_to_wordlist_key nl_abbr tl_abbr
                    str_to_chapter r1 l x) as H.
      cbv zeta in H. destruct H as (-> & -> & -> & _). done. }
  assert (forall l, l ∈ tl1_df -> Flagged.card l ∈ map snd d) as Hcard.
  { intros l Hl.
    rewrite <- (flagged_frame_cards F trk htag_prefix d), Hff.
    by apply elem_of_map_2. }
  apply Forall_forall. intros o (w & <- & Hw)%elem_of_map_1.
  apply elem_of_merge_override in Hw.
  destruct Hw as [(l & r & Hl & Hr & _ & ->)
                 |[(l & Hl & _ & ->)|(r & Hr & _ & ->)]].
  - repeat (split; [by eexists|]). left.
    repeat (split; [done || by eexists|]). by apply Hrow.
  - repeat (split; [by eexists|]). right.
    repeat (split; [done|]). exists (Flagged.card l).
    split; [by apply Hcard|]. by repeat split.
  - repeat (split; [by eexists|]). left.
    repeat (split; [done || by eexists|]). by apply Hrow.
Qed.

(** X13. The note ids of the frame returned are present and distinct, when
    the override rows have distinct ids and no id of an override row is the
    prefix followed by the headword of a flagged card. Two override rows of
    one headword keep their two ids. *)
Theorem output_note_ids_distinct (df : list Note.t) (trk trk' : trackers F)
    (odf : Override.frame) (str_to_chapter : str -> Z)
    (braces_html_class : option str)
    (nl_abbr tl_abbr htag_prefix flag_id_prefix : str) (out : list Out.t)
    (d : dict Card.t) :
  create_tl_additional_output F str_to_wordlist_key flags df trk
    (Some odf) str_to_chapter braces_html_class nl_abbr tl_abbr
    htag_prefix flag_id_prefix = Ok (trk', out) ->
  flagged_dict str_to_wordlist_key flags nl_abbr tl_abbr df = Ok d ->
  NoDup (map Override.id (Override.rows odf)) ->
  (forall r h, r ∈ Override.rows odf -> h ∈ dict_keys d ->
     Override.id r <> flag_id_prefix ++ h) ->
  NoDup (map Out.note_id out)
  /\ Forall (fun o => is_Some (Out.note_id o)) out.
Proof.
  intros (odf' & d' & trk1 & tl1_df & df2 & Ho & Hd' & _ & Hff & Hp & ->)
    %create_Ok_inv Hd Hids Hclash.
  injection Ho as <-. rewrite Hd in Hd'. injection Hd' as <-.
  apply process_override_map in Hp as (_ & _ & Hmap).
  assert (map Df2.id df2 = map Override.id (Override.rows odf)) as Hid.
  { apply Hmap. intros r l x. apply override_row_fields. }
  assert (dict_wf d) as Hwf.
  { eapply batch_wf; [apply Hd|]. split; [constructor | constructor]. }
  assert (map Flagged.merge_id tl1_df = dict_keys d) as Hkeys.
  { rewrite <- (flagged_frame_headwords F trk htag_prefix d Hwf).
    by rewrite Hff. }
  destruct (merge_note_ids_distinct flag_id_prefix tl1_df df2)
    as [Hnd Hsome].
  - rewrite Hkeys. apply Hwf.
  - by rewrite Hid.
  - intros l r Hl Hr.
    apply (elem_of_map_2 Df2.id) in Hr. rewrite Hid in Hr.
    apply elem_of_map_1 in Hr as (r0 & <- & Hr0).
    apply Hclash; [done|]. rewrite <- Hkeys. by apply elem_of_map_2.
  - split.
    + by rewrite map_map.
    + apply Forall_forall. intros o (w & <- & Hw)%elem_of_map_1.
      rewrite Forall_forall in Hsome. by apply Hsome.
Qed.

(** X14. When the headwords of the rows of the override frame are distinct,
    the frame built has one row for each headword that is flagged or in the
    override frame, and no other row. *)
Theorem one_row_per_headword (df : list Note.t) (trk trk' : trackers F)
    (odf : Override.frame) (str_to_chapter : str -> Z)
    (braces_html_class : option str)
    (nl_abbr tl_abbr htag_prefix flag_id_prefix : str) (rows : list Wide.t)
    (d : dict Card.t) :
  let headword := fun r =>
    str_to_wordlist_key (if truthy (Override.tl_headword r)
                         then Override.tl_headword r else Override.tl1 r) in
  additional_frame F str_to_wordlist_key flags df trk (Some odf)
    str_to_chapter braces_html_class nl_abbr tl_abbr htag_prefix
    flag_id_prefix = Ok (trk', rows) ->
  flagged_dict str_to_wordlist_key flags nl_abbr tl_abbr df = Ok d ->
  NoDup (map headword (Override.rows odf)) ->
  NoDup (map Wide.merge_id rows)
  /\ (forall h, h ∈ map Wide.merge_id rows <->
        h ∈ dict_keys d \/ h ∈ map headword (Override.rows odf))
  /\ length rows
     = size (list_to_set (dict_keys d)
             ∪ list_to_set (map headword (Override.rows odf)) : gset str).
Proof.
  intros headword
    (d' & trk1 & df2 & Hd' & Hp & Hrows)
    %additional_frame_one_row_per_headword Hd Hnd.
  rewrite Hd in Hd'. injection Hd' as <-.
  apply process_override_map in Hp as (_ & _ & Hmap).
  assert (map Df2.merge_id df2 = map headword (Override.rows odf)) as Hm.
  { apply Hmap. intros r l x. apply override_row_fields. }
  rewrite Hm in Hrows. by apply Hrows.
Qed.

End OutputMore.

(** ** The caller: tokens and keys *)

Lemma char_in_In (c : char) (s : str) : char_in c s = true <-> In c s.
Proof.
  unfold char_in. rewrite existsb_exists. split.
  - by intros (x & Hx & ->%N.eqb_eq).
  - intros Hc. exists c. split; [done|]. apply N.eqb_refl.
Qed.

Lemma char_in_false (c : char) (s : str) : char_in c s = false <-> ~ In c s.
Proof.
  rewrite <- char_in_In. destruct (char_in c s); split; try done.
Qed.

Lemma split_nonempty (sep : char) (s : str) : split sep s <> [].
Proof.
  induction s as [|c s IH]; simpl; [done|].
  destruct (c =? sep); [done|]. by destruct (split sep s).
Qed.

Lemma join_cons (sep x : str) (l : list str) :
  l <> [] -> join sep (x :: l) = x ++ sep ++ join sep l.
Proof. by destruct l. Qed.

Lemma join_split (sep : char) (s : str) : join [sep] (split sep s) = s.
Proof.
  induction s as [|c s IH]; simpl; [done|].
  pose proof (split_nonempty sep s) as Hne.
  destruct (c =? sep) eqn:Hc.
  - apply N.eqb_eq in Hc as ->. rewrite join_cons by done.
    simpl. by rewrite IH.
  - destruct (split sep s) as [|tok toks]; [done|].
    destruct toks as [|tok' toks]; simpl in *; by rewrite <- IH.
Qed.

Lemma split_no_sep (sep : char) (s : str) :
  Forall (fun tok => char_in sep tok = false) (split sep s).
Proof.
  induction s as [|c s IH]; simpl; [by repeat constructor|].
  destruct (c =? sep) eqn:Hc; [by constructor|].
  pose proof (split_nonempty sep s) as Hne.
  destruct (split sep s) as [|tok toks]; [done|].
  apply Forall_cons in IH as [Htok Htoks]. constructor; [|done].
  simpl. rewrite N.eqb_sym, Hc. done.
Qed.

Lemma split_app (sep : char) (tok rest : str) :
  char_in sep tok = false ->
  split sep (tok ++ sep :: rest) = tok :: split sep rest.
Proof.
  induction tok as [|c tok IH]; simpl.
  - intros _. by rewrite N.eqb_refl.
  - intros [Hc Htok]%orb_false_iff. rewrite N.eqb_sym, Hc.
    by rewrite (IH Htok).
Qed.

Lemma split_token (sep : char) (tok : str) :
  char_in sep tok = false -> split sep tok = [tok].
Proof.
  induction tok as [|c tok IH]; simpl; [done|].
  intros [Hc Htok]%orb_false_iff. rewrite N.eqb_sym, Hc.
  by rewrite (IH Htok).
Qed.

Lemma split_join (sep : char) (l : list str) :
  l <> [] -> Forall (fun tok => char_in sep tok = false) l ->
  split sep (join [sep] l) = l.
Proof.
  induction l as [|tok l IH]; [done|]. intros _ [Htok Hl]%Forall_cons.
  destruct l as [|tok' l]; [by apply split_token|].
  rewrite join_cons by done.
  change (tok ++ [sep] ++ join [sep] (tok' :: l))
    with (tok ++ sep :: join [sep] (tok' :: l)).
  rewrite split_app by done. f_equal. by apply IH.
Qed.

(** X15. The three token lists that the caller makes of the cells of a note
    are never empty and no token has the separator of its list: [;] for
    [tl_notes_list], [,] for [tl1_list], and for [tl2_list] the [;] when the
    part of speech is [V], or is [N] with [(in)] in [de1], and the [,]
    otherwise. Joining a list with its separator gives the cell back: the
    text that the format check of [_make_new_cards] searches is the cell
    [de_notes]. Every non-empty list of tokens without a comma is the
    [tl1_list] of the cell made by joining it. *)
Theorem note_tokens_round_trip (en1 part_of_speech de_notes de_pronun de1 de2
    : str) :
  let row := note_of_fields en1 part_of_speech de_notes de_pronun de1 de2 in
  join (u ";") (Note.tl_notes_list row) = de_notes
  /\ join (u ",") (Note.tl1_list row) = de1
  /\ Note.tl_notes_list row <> [] /\ Note.tl1_list row <> []
  /\ Note.tl2_list row <> []
  /\ Forall (fun tok => char_in 59 tok = false) (Note.tl_notes_list row)
  /\ Forall (fun tok => char_in 44 tok = false) (Note.tl1_list row)
  /\ (part_of_speech = u "V"
      \/ (part_of_speech = u "N" /\ contains de1 (u "(in)") = true) ->
      join (u ";") (Note.tl2_list row) = de2
      /\ Forall (fun tok => char_in 59 tok = false) (Note.tl2_list row))
  /\ (part_of_speech <> u "V" ->
      (part_of_speech <> u "N" \/ contains de1 (u "(in)") = false) ->
      join (u ",") (Note.tl2_list row) = de2
      /\ Forall (fun tok => char_in 44 tok = false) (Note.tl2_list row))
  /\ (forall l, l <> [] -> Forall (fun tok => char_in 44 tok = false) l ->
        Note.tl1_list (note_of_fields en1 part_of_speech de_notes de_pronun
                         (join (u ",") l) de2) = l).
Proof.
  change (u ";") with [59]. change (u ",") with [44]. simpl.
  split; [apply join_split|]. split; [apply join_split|].
  split; [apply split_nonempty|]. split; [apply split_nonempty|].
  split; [unfold tokenize_de2; destruct (_ || _); apply split_nonempty|].
  split; [apply split_no_sep|]. split; [apply split_no_sep|].
  split; [|split; [|apply split_join]].
  - intros Hsemi. unfold tokenize_de2.
    assert (bool_decide (part_of_speech = u "V")
            || (bool_decide (part_of_speech = u "N")
                && contains de1 (u "(in)")) = true) as ->.
    { destruct Hsemi as [->|[-> ->]].
      - by rewrite bool_decide_eq_true_2.
      - rewrite (bool_decide_eq_true_2 (u "N" = u "N")) by done.
        apply orb_true_r. }
    split; [apply join_split | apply split_no_sep].
  - intros HV HN. unfold tokenize_de2.
    assert (bool_decide (part_of_speech = u "V")
            || (bool_decide (part_of_speech = u "N")
                && contains de1 (u "(in)")) = false) as ->.
    { rewrite (bool_decide_eq_false_2 _ HV). simpl.
      destruct HN as [HN| ->].
      - by rewrite (bool_decide_eq_false_2 _ HN).
      - apply andb_false_r. }
    split; [apply join_split | apply split_no_sep].
Qed.

Lemma In_lstrip (c : char) (s : str) : In c (lstrip s) -> In c s.
Proof.
  induction s as [|x s IH]; simpl; [done|].
  destruct (isspace x); [|done]. intros H. right. by apply IH.
Qed.

Lemma In_strip (c : char) (s : str) : In c (strip s) -> In c s.
Proof.
  unfold strip, rstrip. intros H%in_rev%In_lstrip%in_rev. by apply In_lstrip.
Qed.

Lemma In_hd_split (sep c : char) (s : str) :
  In c (hd [] (split sep s)) -> In c s /\ c <> sep.
Proof.
  induction s as [|x s IH]; simpl; [done|].
  destruct (x =? sep) eqn:Hx; [done|].
  pose proof (split_nonempty sep s) as Hne.
  destruct (split sep s) as [|tok toks]; [done|]. simpl in *.
  intros [<-|Hc].
  - split; [by left|]. by apply N.eqb_neq.
  - destruct (IH Hc) as [Hin Hne']. split; [by right|done].
Qed.

Lemma In_translate_de (c : char) (s : str) :
  In c (translate_de s) ->
  c <> 39 /\ c <> 44 /\ c <> 63 /\ c <> 33 /\ c <> 176.
Proof.
  unfold translate_de. intros (x & Hc & Hx)%in_map_iff.
  apply filter_In in Hx as [_ Hx].
  apply negb_true_iff, orb_false_iff in Hx as [Hx H176].
  apply orb_false_iff in Hx as [H63 H33].
  apply N.eqb_neq in H63, H33, H176.
  destruct ((x =? 39) || (x =? 44)) eqn:Hq.
  - subst c. lia.
  - apply orb_false_iff in Hq as [H39 H44].
    apply N.eqb_neq in H39, H44. subst c. done.
Qed.

Lemma In_replace_char (old c : char) (new s : str) :
  In c (replace_char old new s) -> In c new \/ (In c s /\ c <> old).
Proof.
  unfold replace_char. intros (x & Hx & Hc)%in_flat_map.
  destruct (x =? old) eqn:Hxo; [by left|]. right.
  destruct Hc as [<-|[]]. split; [done|]. by apply N.eqb_neq.
Qed.

Section KeyFacts.

Variable sub_initial_der_das_die : str -> str.

Lemma In_wordlist_key (c : char) (x : str) :
  In c (make_wordlist_key_notes sub_initial_der_das_die x) ->
  c <> 39 /\ c <> 44 /\ c <> 63 /\ c <> 33 /\ c <> 176
  /\ c <> 91 /\ c <> 40.
Proof.
  unfold make_wordlist_key_notes. cbv zeta. intros Hc%In_strip.
  destruct (_ && _); [done|].
  apply In_hd_split in Hc as [Hc H40].
  apply In_hd_split in Hc as [Hc H91].
  apply In_translate_de in Hc. tauto.
Qed.

(** X16. The headword that [make_wordlist_key_notes] makes of a token has
    none of the characters [' , ? ! ° [ (] and no white space at either end;
    it is the headword of the trimmed token; and it is [sich] only for a
    token that is [sich] when trimmed. *)
Theorem wordlist_key_shape (x : str) :
  let key := make_wordlist_key_notes sub_initial_der_das_die in
  (forall c, c ∈ u "',?!°[(" -> char_in c (key x) = false)
  /\ strip (key x) = key x
  /\ key (strip x) = key x
  /\ (key x = u "sich" -> strip x = u "sich").
Proof.
  cbv zeta. split; [|split; [|split]].
  - intros c Hc. apply char_in_false. intros Hin%In_wordlist_key.
    vm_compute in Hc.
    repeat (apply elem_of_cons in Hc as [->|Hc]; [lia|]).
    by apply elem_of_nil in Hc.
  - unfold make_wordlist_key_notes. cbv zeta. apply strip_idem.
  - unfold make_wordlist_key_notes. cbv zeta. by rewrite strip_idem.
  - unfold make_wordlist_key_notes. cbv zeta.
    destruct (decide (strip x = u "sich")) as [Hx|Hx]; [done|].
    rewrite (bool_decide_eq_false_2 _ Hx), andb_true_r.
    destruct (bool_decide (strip _ = u "sich")) eqn:Hs.
    + intros H. vm_compute in H. discriminate H.
    + apply bool_decide_eq_false in Hs. intros H. by destruct Hs.
Qed.

(** X17. The audio key that [make_audio_key_notes] makes of a token has none
    of the characters [/ . …] and none of those that the headword cannot
    have. *)
Theorem audio_key_shape (x : str) :
  forall c, c ∈ u "/.…',?!°[(" ->
    char_in c (make_audio_key_notes sub_initial_der_das_die x) = false.
Proof.
  intros c Hc. apply char_in_false. unfold make_audio_key_notes.
  change (u "_") with [95]. intros Hin.
  assert (c <> 8230 /\ c <> 46 /\ c <> 47
          /\ (c = 95 \/ In c (make_wordlist_key_notes
                                sub_initial_der_das_die x)))
    as (H1 & H2 & H3 & Hk).
  { apply In_replace_char in Hin as [[<-|[]]|[Hin H1]].
    { split; [lia|]. split; [lia|]. split; [lia|]. by left. }
    apply In_replace_char in Hin as [[]|[Hin H2]].
    apply In_replace_char in Hin as [[<-|[]]|[Hin H3]].
    { split; [lia|]. split; [lia|]. split; [lia|]. by left. }
    split; [done|]. split; [done|]. split; [done|]. by right. }
  vm_compute in Hc.
  destruct Hk as [->|Hk%In_wordlist_key].
  - repeat (apply elem_of_cons in Hc as [Hc|Hc]; [lia|]).
    by apply elem_of_nil in Hc.
  - repeat (apply elem_of_cons in Hc as [->|Hc]; [lia|]).
    by apply elem_of_nil in Hc.
Qed.

End KeyFacts.

(** ** Rows that repeat *)

Section SynthesisReplay.

Variable str_to_wordlist_key : str -> str.
Variable flags : str.

Abbreviation key := str_to_wordlist_key.

(** The tokens of a row that was processed change no dictionary that has
    the headwords the row left. *)
Lemma loop_replay (exclude_headwords : gset str)
    (nl1 part_of_speech nl1_hint tl1_hint : str)
    (tl1_list tl2_list tl_notes_list : list str) (tl_pronun : str)
    (vals : list str) (idx : nat) (d0 d1 d2 : dict Card.t) :
  make_new_cards_loop key flags exclude_headwords nl1 part_of_speech
    nl1_hint tl1_hint tl1_list tl2_list tl_notes_list tl_pronun
    idx vals d0 = Ok d1 ->
  (forall h, is_Some (dict_get d1 h) -> is_Some (dict_get d2 h)) ->
  make_new_cards_loop key flags exclude_headwords nl1 part_of_speech
    nl1_hint tl1_hint tl1_list tl2_list tl_notes_list tl_pronun
    idx vals d2 = Ok d2.
Proof.
  revert idx d0. induction vals as [|val vals IH]; intros idx d0; [done|].
  simpl. intros (d0' & Hstep & Hloop)%bind_Ok Hsub.
  destruct (token_cases key flags exclude_headwords d0 idx val)
    as [[Hu|[Hf He]]|[Hf He]].
  - rewrite token_unflagged by done. simpl. by eapply IH.
  - rewrite token_excluded by done. simpl. by eapply IH.
  - rewrite token_flagged in Hstep by done.
    apply bind_Ok in Hstep as (c & Hc & Hd0'). injection Hd0' as <-.
    rewrite token_flagged by done. rewrite Hc. simpl.
    assert (dict_in (key (strip val)) d2 = true) as ->.
    { apply dict_in_true, Hsub.
      assert (is_Some (dict_get
                (if dict_in (key (strip val)) d0 then d0
                 else d0 ++ [(key (strip val), c)]) (key (strip val))))
        as [c' Hc'].
      { destruct (dict_in (key (strip val)) d0) eqn:Hin.
        - by apply dict_in_true.
        - apply dict_in_false in Hin. rewrite dict_get_app, Hin. simpl.
          rewrite bool_decide_eq_true_2 by done. by eexists. }
      exists c'. eapply loop_preserves; [apply Hloop|done]. }
    by eapply IH.
Qed.

Lemma batch_replay (exclude_headwords : gset str) (nl_abbr tl_abbr : str)
    (df df' : list Note.t) (d : dict Card.t) :
  flagged_dict_loop key flags exclude_headwords nl_abbr tl_abbr df [] = Ok d ->
  (forall row, row ∈ df' -> row ∈ df) ->
  flagged_dict_loop key flags exclude_headwords nl_abbr tl_abbr df' d = Ok d.
Proof.
  intros Hd. induction df' as [|row df' IH]; intros Hsub; [done|].
  simpl.
  assert (row ∈ df) as Hrow by (apply Hsub, list_elem_of_here).
  apply list_elem_of_split in Hrow as (df1 & df2 & ->).
  pose proof Hd as Hd0. rewrite batch_app in Hd0.
  apply bind_Ok in Hd0 as (dA & HA & Hrest). simpl in Hrest.
  apply bind_Ok in Hrest as (dB & HB & Hrest).
  unfold _make_new_cards in *.
  rewrite (loop_replay _ _ _ _ _ _ _ _ _ _ _ _ dB d HB).
  - simpl. apply IH. intros r Hr. apply Hsub. by apply list_elem_of_further.
  - intros h [c Hc]. exists c. eapply batch_preserves; [apply Hrest|done].
Qed.

(** X18. Rows that repeat rows of the frame change nothing: the dictionary
    of flagged cards, or the error raised, is that of the frame without
    them. *)
Theorem repeated_rows_change_nothing (nl_abbr tl_abbr : str)
    (df df' : list Note.t) :
  (forall row, row ∈ df' -> row ∈ df) ->
  flagged_dict key flags nl_abbr tl_abbr (df ++ df')
  = flagged_dict key flags nl_abbr tl_abbr df.
Proof.
  intros Hsub. unfold flagged_dict.
  assert (not_flagged_set key flags (df ++ df') ∅
          = not_flagged_set key flags df ∅) as ->.
  { apply set_eq. intros h. rewrite !not_flagged_set_spec.
    split; (intros [Hh|(row & val & Hrow & Hrest)]; [by left|right]);
      exists row, val; (split; [|done]).
    - apply elem_of_app in Hrow as [Hrow|Hrow]; [done|by apply Hsub].
    - apply elem_of_app. by left. }
  rewrite batch_app.
  destruct (flagged_dict_loop key flags _ nl_abbr tl_abbr df [])
    as [d|e] eqn:Hd; [|done].
  simpl. by eapply batch_replay.
Qed.

End SynthesisReplay.

(** ** The entries of the reference mapping *)

Lemma to_def_dict_loop_entries (def_list : list str)
    (d dd : gmap Z def_entry) (k : Z) (v : def_entry) :
  to_def_dict_loop def_list d = Ok dd ->
  dd !! k = Some v <->
  d !! k = Some v
  \/ exists tok, tok ∈ def_list /\ to_def_dict_token ∅ tok = Ok {[ k := v ]}.
Proof.
  revert d. induction def_list as [|tok l IH]; intros d; simpl.
  - intros [= <-]. split; [by left|]. intros [H|(tok & Htok & _)]; [done|].
    by apply elem_of_nil in Htok.
  - intros (d1 & Htok & Hloop)%bind_Ok. rewrite (IH _ Hloop). clear IH Hloop.
    assert (d1 !! k = Some v <->
            d !! k = Some v \/ to_def_dict_token ∅ tok = Ok {[ k := v ]})
      as Hd1.
    { destruct (to_def_dict_token_shape tok) as [I|[(k0 & v0 & _ & I)|I]].
      - rewrite I in Htok. injection Htok as <-. rewrite I.
        split; [by left|]. intros [H|H]; [done|].
        apply Ok_inj in H. apply (f_equal (fun m => m !! k)) in H.
        by rewrite lookup_empty, lookup_singleton_eq in H.
      - rewrite I in Htok. case_bool_decide as Hin; [done|].
        injection Htok as <-. apply eq_None_not_Some in Hin.
        rewrite I, bool_decide_eq_false_2
          by (rewrite lookup_empty; by intros [? ?]).
        rewrite insert_empty. destruct (decide (k = k0)) as [->|Hne].
        + rewrite lookup_insert_eq, Hin. split.
          * intros [= ->]. by right.
          * intros [H|H]; [done|]. apply Ok_inj in H.
            apply (f_equal (fun m => m !! k0)) in H.
            by rewrite !lookup_singleton_eq in H.
        + rewrite lookup_insert_ne by done. split; [by left|].
          intros [H|H]; [done|]. apply Ok_inj in H.
          apply (f_equal (fun m => m !! k)) in H.
          rewrite lookup_singleton_eq, lookup_singleton_ne in H by done.
          done.
      - destruct (I d) as [e He]. congruence. }
    rewrite Hd1. split.
    + intros [[H|H]|(tok' & Hin & H)]; [by left| |].
      * right. exists tok. split; [apply list_elem_of_here|done].
      * right. exists tok'. split; [by apply list_elem_of_further|done].
    + intros [H|(tok' & Hin & H)]; [by left; left|].
      apply elem_of_cons in Hin as [->|Hin]; [by left; right|].
      right. by exists tok'.
Qed.

(** X19. The reference mapping made of a list of notes has exactly the
    entries that its tokens give one by one: position [k] has the value [v]
    if and only if some token of the list, parsed alone, gives the mapping
    with the single entry [k : v]. *)
Theorem to_def_dict_entries (def_list : list str) (dd : gmap Z def_entry)
    (k : Z) (v : def_entry) :
  _to_def_dict def_list = Ok dd ->
  dd !! k = Some v <->
  exists tok, tok ∈ def_list /\ _to_def_dict [tok] = Ok {[ k := v ]}.
Proof.
  unfold _to_def_dict. intros H.
  rewrite (to_def_dict_loop_entries _ _ _ k v H), lookup_empty.
  assert (forall tok, to_def_dict_loop [tok] ∅ = to_def_dict_token ∅ tok)
    as Hone.
  { intros tok. simpl. by destruct (to_def_dict_token ∅ tok). }
  split.
  - intros [?|(tok & Hin & Htok)]; [done|]. exists tok. by rewrite Hone.
  - intros (tok & Hin & Htok). right. exists tok. by rewrite <- Hone.
Qed.

(** ** The further properties on the example inputs *)

Lemma check_flag_usage_raises_witness :
  exists i val val2 flag,
    [u "Haus°"] !! i = Some val /\ [u "~ Haus°"] !! i = Some val2 /\
    flag ∈ demo_flags /\
    char_in flag val = true /\ char_in flag val2 = true /\
    char_in 126 val = false /\ char_in 126 val2 = true.
Proof.
  destruct (check_flag_usage_raises [u "Haus°"] [u "~ Haus°"] demo_flags
              Raised.ValueError_tilde) as (_ & _ & H & _); [by vm_compute|].
  by apply H.
Defined.

Lemma to_def_dict_single_digits_witness :
  exists dd, _to_def_dict [u "10=1"; u "2=1"] = Ok dd
    /\ dd !! Z.of_nat (9 + 1) = None.
Proof.
  destruct (_to_def_dict [u "10=1"; u "2=1"]) as [dd|e] eqn:H;
    [|by vm_compute in H].
  exists dd. split; [done|].
  destruct (to_def_dict_single_digits _ dd H) as [_ Hidx]. apply Hidx. lia.
Defined.

Lemma to_def_dict_order_witness :
  exists dd, _to_def_dict [u "2=1"; u "3: x"] = Ok dd
    /\ _to_def_dict [u "3: x"; u "2=1"] = Ok dd.
Proof.
  destruct (_to_def_dict [u "2=1"; u "3: x"]) as [dd|e] eqn:H;
    [|by vm_compute in H].
  exists dd. split; [done|].
  apply (to_def_dict_order [u "2=1"; u "3: x"] [u "3: x"; u "2=1"] dd);
    [apply perm_swap | done].
Defined.

Lemma flagged_dict_headwords_witness :
  (u "haus" ∉ not_flagged_set demo_key demo_flags [demo_note] ∅)
  /\ exists row val, row ∈ [demo_note] /\ val ∈ Note.tl1_list row /\
       isdisjoint demo_flags (strip val) = false /\
       demo_key (strip val) = u "haus".
Proof.
  apply (flagged_dict_headwords demo_key demo_flags [demo_note] (u "N")
           (u "T") demo_dict); [by vm_compute|].
  elem_of_list.
Defined.

Lemma flagged_dict_cards_witness :
  Card.merge_id demo_card_haus = u "haus"
  /\ isdisjoint demo_flags (Card.tl1 demo_card_haus) = true.
Proof.
  destruct (flagged_dict_cards demo_key demo_flags [demo_note] (u "N")
              (u "T") demo_dict (u "haus") demo_card_haus)
    as (_ & _ & Hid & Htl1 & _); [by vm_compute|by vm_compute|].
  by split.
Defined.

Lemma empty_headword_fails_witness :
  exists e,
    flagged_dict demo_key demo_flags (u "N") (u "T")
      [demo_note; Note.mk (u "degree") (u "n") [] [] [u " ° "] []] = Err e.
Proof.
  apply (empty_headword_fails demo_key demo_flags _ (u "N") (u "T")
           (Note.mk (u "degree") (u "n") [] [] [u " ° "] []) (u " ° ")).
  - apply list_elem_of_further, list_elem_of_here.
  - apply list_elem_of_here.
  - by vm_compute.
  - by vm_compute.
Defined.

Lemma process_override_rows_witness :
  map Df2.merge_id demo_df2
  = map (fun r => demo_key (if truthy (Override.tl_headword r)
                            then Override.tl_headword r else Override.tl1 r))
        (Override.rows demo_override_df).
Proof.
  destruct (process_override_rows demo_flawful demo_key demo_override_df
              0%nat 3%nat (fun _ => 5%Z) None (u "N") (u "T") (u "TL")
              demo_df2) as (_ & _ & _ & _ & _ & _ & H); [by vm_compute|].
  exact H.
Defined.

Lemma output_frame_returned_witness :
  exists trk' out odf d,
    create_tl_additional_output demo_flawful demo_key demo_flags [demo_note]
      0%nat (Some demo_override_df) (fun _ => 5%Z) None (u "N") (u "T")
      (u "TL") (u "HW_") = Ok (trk', out)
    /\ Some demo_override_df = Some odf
    /\ flagged_dict demo_key demo_flags (u "N") (u "T") [demo_note] = Ok d
    /\ (length d <= length out)%nat.
Proof.
  destruct (create_tl_additional_output demo_flawful demo_key demo_flags
              [demo_note] 0%nat (Some demo_override_df) (fun _ => 5%Z) None
              (u "N") (u "T") (u "TL") (u "HW_")) as [[trk' out]|e] eqn:H;
    [|by vm_compute in H].
  destruct (output_frame_returned _ _ _ _ _ _ _ _ _ _ _ _ _ _ H)
    as (odf & d & Ho & _ & _ & Hd & _ & Hlen).
  by exists trk', out, odf, d.
Defined.

Lemma output_rows_marked_witness :
  exists trk' out,
    create_tl_additional_output demo_flawful demo_key demo_flags [demo_note]
      0%nat (Some demo_override_df) (fun _ => 5%Z) None (u "N") (u "T")
      (u "TL") (u "HW_") = Ok (trk', out)
    /\ Forall (fun o => is_Some (Out.tl_audio o) /\ is_Some (Out.chapter o)
                        /\ is_Some (Out.Tags o)) out.
Proof.
  destruct (create_tl_additional_output demo_flawful demo_key demo_flags
              [demo_note] 0%nat (Some demo_override_df) (fun _ => 5%Z) None
              (u "N") (u "T") (u "TL") (u "HW_")) as [[trk' out]|e] eqn:H;
    [|by vm_compute in H].
  exists trk', out. split; [done|].
  eapply Forall_impl.
  - apply (output_rows_marked _ _ _ _ _ _ _ _ _ _ _ _ _ _ demo_dict H).
    by vm_compute.
  - simpl. intros o (Ha & Hc & Ht & _). done.
Defined.

Lemma output_note_ids_distinct_witness :
  exists trk' out,
    create_tl_additional_output demo_flawful demo_key demo_flags [demo_note]
      0%nat (Some demo_override_df) (fun _ => 5%Z) None (u "N") (u "T")
      (u "TL") (u "HW_") = Ok (trk', out)
    /\ NoDup (map Out.note_id out).
Proof.
  destruct (create_tl_additional_output demo_flawful demo_key demo_flags
              [demo_note] 0%nat (Some demo_override_df) (fun _ => 5%Z) None
              (u "N") (u "T") (u "TL") (u "HW_")) as [[trk' out]|e] eqn:H;
    [|by vm_compute in H].
  exists trk', out. split; [done|].
  destruct (output_note_ids_distinct _ _ _ _ _ _ _ _ _ _ _ _ _ _ demo_dict H)
    as [Hnd _]; [by vm_compute| | |done].
  - apply (bool_decide_unpack _). by vm_compute.
  - intros r h Hr _ E. simpl in Hr.
    repeat (apply elem_of_cons in Hr as [->|Hr];
            [vm_compute in E; discriminate E|]).
    by apply elem_of_nil in Hr.
Defined.

Lemma one_row_per_headword_witness :
  exists trk' rows,
    additional_frame demo_flawful demo_key demo_flags [demo_note] 0%nat
      (Some (Override.mk_frame
               [demo_override "A1" "Haus"; demo_override "A3" "Turm"]
               false false))
      (fun _ => 5%Z) None (u "N") (u "T") (u "TL") (u "HW_")
    = Ok (trk', rows)
    /\ NoDup (map Wide.merge_id rows) /\ length rows = 3%nat.
Proof.
  destruct (additional_frame demo_flawful demo_key demo_flags [demo_note]
              0%nat
              (Some (Override.mk_frame
                       [demo_override "A1" "Haus"; demo_override "A3" "Turm"]
                       false false))
              (fun _ => 5%Z) None (u "N") (u "T") (u "TL") (u "HW_"))
    as [[trk' rows]|e] eqn:H; [|by vm_compute in H].
  exists trk', rows. split; [done|].
  destruct (one_row_per_headword _ _ _ _ _ _ _ _ _ _ _ _ _ _ demo_dict H)
    as (Hnd & _ & Hlen); [by vm_compute| |].
  - apply (bool_decide_unpack _). by vm_compute.
  - split; [done|]. rewrite Hlen. by vm_compute.
Defined.

Lemma audio_key_shape_witness :
  char_in 47 (make_audio_key_notes (fun s => s) (u "und/oder")) = false.
Proof.
  apply (audio_key_shape (fun s => s) (u "und/oder") 47). elem_of_list.
Defined.

Lemma repeated_rows_change_nothing_witness :
  flagged_dict demo_key demo_flags (u "N") (u "T")
    ([demo_note; demo_mastered_note] ++ [demo_note])
  = flagged_dict demo_key demo_flags (u "N") (u "T")
      [demo_note; demo_mastered_note].
Proof.
  apply (repeated_rows_change_nothing demo_key demo_flags (u "N") (u "T")
           [demo_note; demo_mastered_note] [demo_note]).
  intros row Hrow. apply elem_of_cons in Hrow as [->|Hrow].
  - apply list_elem_of_here.
  - by apply elem_of_nil in Hrow.
Defined.

Lemma to_def_dict_entries_witness :
  exists tok, tok ∈ [u "2=1"; u "3: x"]
    /\ _to_def_dict [tok] = Ok {[ 3%Z := (None, u "x") ]}.
Proof.
  destruct (_to_def_dict [u "2=1"; u "3: x"]) as [dd|e] eqn:H;
    [|by vm_compute in H].
  apply (to_def_dict_entries [u "2=1"; u "3: x"] dd 3%Z (None, u "x") H).
  vm_compute in H. apply Ok_inj in H. rewrite <- H. by vm_compute.
Defined.
